(** * FnordMetric: the query planner and the metric HTTP API

    A shallow embedding of [QueryPlan] (the planner that turns a parsed
    statement tree into an executable plan) and of [metricdb::HTTPAPI].

    The planner works on a pointer-based, mutable syntax tree.  The
    embedding keeps that: syntax nodes live in a store, a node refers to
    its children by address, [new ASTNode] allocates, and the setters
    update a cell in place.  Aliasing between the tree the caller owns
    and the trees the planner builds is therefore visible in the model.

    Vector sizes and indices are mathematical numbers: the [int] loop
    counters and the [int col_index] of the source range over positions
    of child vectors, and the model does not represent their overflow.
    [assert] is modelled as aborting the computation. *)

From stdpp Require Import base option list strings gmap.
From Stdlib Require Import ZArith Lia Ascii.

Set Default Proof Using "Type".
Open Scope Z_scope.
Open Scope nat_scope.

(** ** Outcomes of a run *)

(** What can go wrong in the C++ code. [AssertionFailed]: an [assert]
    fired.  [InvalidAccess]: a null or dangling pointer was dereferenced,
    a vector was indexed out of range, or an exception escaped.
    [Diverges]: a traversal follows a cycle of child pointers and never
    returns.  [OutOfFuel]: the bound on the planner's own recursion, which
    exists only in the model, was reached. *)
Inductive failure := AssertionFailed | InvalidAccess | Diverges | OutOfFuel.

Inductive result (A : Type) :=
| Ok (a : A)
| Err (e : failure).
Arguments Ok {A} a.
Arguments Err {A} e.

Global Instance result_ret : MRet result := λ A a, Ok a.
Global Instance result_bind : MBind result := λ A B f m,
  match m with
  | Ok a => f a
  | Err e => Err e
  end.

Definition assert (b : bool) : result unit :=
  if b then Ok () else Err AssertionFailed.

Definition deref {A} (o : option A) : result A :=
  match o with
  | Some a => Ok a
  | None => Err InvalidAccess
  end.

(** ** Tokens *)

Module Token.
(** The three chart tokens the planner inspects; [T_OTHER] stands for
    the remaining kinds of the lexer. *)
Inductive kTokenType := T_BAR | T_LINE | T_AREA | T_OTHER (name : string).

Record Token := mk { getType : kTokenType; getString : string }.

Global Instance kTokenType_eq_dec : EqDecision kTokenType.
Proof. solve_decision. Defined.
Global Instance Token_eq_dec : EqDecision Token.
Proof. solve_decision. Defined.
End Token.

(** ** Syntax nodes in the store *)

Module ASTNode.
Inductive kASTNodeType :=
| T_SELECT | T_SELECT_LIST | T_GROUP_BY | T_COLUMN_NAME | T_DERIVED_COLUMN
| T_RESOLVED_COLUMN | T_METHOD_CALL | T_LITERAL | T_SERIES | T_SERIES_NAME
| T_DRAW | T_LIMIT
| T_OTHER (n : nat).

Global Instance kASTNodeType_eq_dec : EqDecision kASTNodeType.
Proof. solve_decision. Defined.

Abbreviation addr := nat (only parsing).

(** One [ASTNode] object: its tag, its optional token, its optional
    resolved index and the pointers to its children, in order. *)
Record ASTNode := mk {
  type_ : kASTNodeType;
  token_ : option Token.Token;
  id_ : option Z;
  children_ : list addr
}.

Global Instance ASTNode_eq_dec : EqDecision ASTNode.
Proof. solve_decision. Defined.

(** The store: the object at address [a] is the [a]-th cell.  Objects
    are never freed during planning. *)
Abbreviation heap := (list ASTNode) (only parsing).

Definition get (h : heap) (a : addr) : result ASTNode := deref (h !! a).

(** [new ASTNode(type)] *)
Definition newNode (ty : kASTNodeType) : ASTNode :=
  {| type_ := ty; token_ := None; id_ := None; children_ := [] |}.

Definition alloc (h : heap) (c : ASTNode) : heap * addr :=
  (h ++ [c], length h).

Definition update (h : heap) (a : addr) (f : ASTNode → ASTNode) : result heap :=
  c ← get h a; Ok (<[a := f c]> h).

Definition setType (h : heap) (a : addr) (ty : kASTNodeType) : result heap :=
  update h a (λ c, {| type_ := ty; token_ := token_ c; id_ := id_ c;
                      children_ := children_ c |}).

Definition setID (h : heap) (a : addr) (i : Z) : result heap :=
  update h a (λ c, {| type_ := type_ c; token_ := token_ c; id_ := Some i;
                      children_ := children_ c |}).

Definition setToken (h : heap) (a : addr) (t : Token.Token) : result heap :=
  update h a (λ c, {| type_ := type_ c; token_ := Some t; id_ := id_ c;
                      children_ := children_ c |}).

Definition setChildren (c : ASTNode) (l : list addr) : ASTNode :=
  {| type_ := type_ c; token_ := token_ c; id_ := id_ c; children_ := l |}.

(** [appendChild(child)]: push_back on the child vector. *)
Definition appendChild (h : heap) (a child : addr) : result heap :=
  update h a (λ c, setChildren c (children_ c ++ [child])).

(** Modelled from the spec: the two-argument [appendChild(child, index)]
    of astnode.h, which the planner uses to splice the generated select
    list in at position 0 (§4.4 step 3). *)
Definition appendChildAt (h : heap) (a child : addr) (i : nat) : result heap :=
  c ← get h a;
  if decide (i ≤ length (children_ c))
  then Ok (<[a := setChildren c (take i (children_ c) ++ child :: drop i (children_ c))]> h)
  else Err InvalidAccess.

(** Modelled from the spec: [removeChild(index)] of astnode.h, which
    takes the child at that position out of the child vector (§4.4
    steps 3 and 4). *)
Definition removeChild (h : heap) (a : addr) (i : nat) : result heap :=
  c ← get h a;
  if decide (i < length (children_ c))
  then Ok (<[a := setChildren c (delete i (children_ c))]> h)
  else Err InvalidAccess.

(** [getChildren()[i]] *)
Definition child (c : ASTNode) (i : nat) : result addr := deref (children_ c !! i).

(** Threads the store through a call per element and collects the
    results. *)
Fixpoint each {A} (f : heap → addr → result (heap * A)) (h : heap)
    (l : list addr) : result (heap * list A) :=
  match l with
  | [] => Ok (h, [])
  | a :: l' =>
      '(h1, x) ← f h a;
      '(h2, xs) ← each f h1 l';
      Ok (h2, x :: xs)
  end.

(** Modelled from the spec: [deepCopy] of astnode.h.  A clone is a
    fully independent subtree with a new root, of identical shape and
    token values (§3); as a new node it carries no resolved index. *)
Fixpoint deepCopy_rec (fuel : nat) (h : heap) (a : addr) : result (heap * addr) :=
  match fuel with
  | 0 => Err Diverges
  | S k =>
      c ← get h a;
      '(h1, kids) ← each (deepCopy_rec k) h (children_ c);
      Ok (alloc h1 {| type_ := type_ c; token_ := token_ c; id_ := None;
                      children_ := kids |})
  end.

(** A chain of distinct cells is no longer than the store, so this much
    fuel is enough unless the child pointers form a cycle. *)
Definition deepCopy (h : heap) (a : addr) : result (heap * addr) :=
  deepCopy_rec (S (length h)) h a.
End ASTNode.

(** ** Syntax trees as values *)

(** The content of a subtree of the store, without addresses.  This is
    what an expression compiler or a table scan gets to see of a node,
    and what two subtrees at different addresses are compared by. *)
#[warnings="-register-all"]
Inductive tree :=
| Node (ty : ASTNode.kASTNodeType) (tok : option Token.Token) (id : option Z)
       (kids : list tree).

(** Reading the subtree below an address out of the store, children in
    order.  It fails when a child pointer dangles, and with [Diverges]
    when the child pointers form a cycle. *)
Fixpoint readAll (read : ASTNode.addr → result tree) (l : list ASTNode.addr)
    : result (list tree) :=
  match l with
  | [] => Ok []
  | x :: l' => t ← read x; ts ← readAll read l'; Ok (t :: ts)
  end.

Fixpoint readAST_rec (fuel : nat) (h : ASTNode.heap) (a : ASTNode.addr) : result tree :=
  match fuel with
  | 0 => Err Diverges
  | S k =>
      c ← ASTNode.get h a;
      kids ← readAll (readAST_rec k h) (ASTNode.children_ c);
      Ok (Node (ASTNode.type_ c) (ASTNode.token_ c) (ASTNode.id_ c) kids)
  end.

Definition readAST (h : ASTNode.heap) (a : ASTNode.addr) : result tree :=
  readAST_rec (S (length h)) h a.

(** ** Plans *)

Module DrawStatement.
Inductive kDrawStatementType := T_BAR_CHART | T_LINE_CHART | T_AREA_CHART.
End DrawStatement.

(** An entry of the symbol table. *)
Record SymbolTableEntry := { isAggregate : bool }.

(** The collaborators of the planner whose code is outside the excerpt.
    [lookupSymbol] is the process-wide symbol table; [compileAST] turns an
    expression tree into its compiled form and adds the scratch slots it
    needs to the running scratchpad length; [TableScan_build] and
    [TablelessSelect_build] are the two leaf builders, which inspect the
    statement and answer with the output columns of the plan node they
    build, or with nothing (the [nullptr] of the source) when the
    statement is not of their shape. *)
Class Collaborators := {
  CompiledExpression : Type;
  TableRepository : Type;
  lookupSymbol : string → option SymbolTableEntry;
  compileAST : tree → nat → result (CompiledExpression * nat);
  TableScan_build : ASTNode.heap → ASTNode.addr → TableRepository → option (list string);
  TablelessSelect_build : ASTNode.heap → ASTNode.addr → option (list string)
}.

Module QueryPlan.
Import ASTNode.

Section Planner.
Context `{Collaborators}.

(** The plan nodes.  Every node exposes its output columns; a leaf is
    otherwise opaque. *)
Inductive Executable :=
| TableScan (columns : list string)
| TablelessSelect (columns : list string)
| LimitClause (limit offset : option Token.Token) (child : Executable)
| GroupBy (columns : list string) (select_expr group_expr : CompiledExpression)
          (scratchpad_len : nat) (child : Executable)
| SeriesStatement (columns : list string) (name_expr : CompiledExpression)
                  (child : Executable)
| DrawStatement (type : DrawStatement.kDrawStatementType).

(** Modelled from the spec: [Executable::getColumns] (§3: each plan
    node exposes an ordered list of output column names).  A limit
    passes the columns of its child through; a draw statement has none. *)
Fixpoint getColumns (e : Executable) : list string :=
  match e with
  | TableScan cols | TablelessSelect cols => cols
  | LimitClause _ _ c => getColumns c
  | GroupBy cols _ _ _ _ | SeriesStatement cols _ _ => cols
  | DrawStatement _ => []
  end.

Definition isGroupBy (e : Executable) : bool :=
  match e with GroupBy _ _ _ _ _ => true | _ => false end.

(** *** hasGroupByClause *)

Fixpoint anyType (h : heap) (ty : kASTNodeType) (l : list addr) : result bool :=
  match l with
  | [] => Ok false
  | a :: l' =>
      c ← get h a;
      if decide (type_ c = ty) then Ok true else anyType h ty l'
  end.

Definition hasGroupByClause (h : heap) (ast : addr) : result bool :=
  n ← get h ast;
  if negb (bool_decide (type_ n = T_SELECT)) || (length (children_ n) <? 2)
  then Ok false
  else anyType h T_GROUP_BY (children_ n).

(** *** hasAggregationExpression *)

(** Whether a METHOD_CALL node calls an aggregate function; both
    asserts of the source are here. *)
Definition isAggregateCall (tok : option Token.Token) : result bool :=
  match tok with
  | None => Err AssertionFailed
  | Some tok =>
      match lookupSymbol (Token.getString tok) with
      | None => Err AssertionFailed
      | Some symbol => Ok (isAggregate symbol)
      end
  end.

(** The loop over the children: the first child with an aggregate
    ends the search. *)
Fixpoint anyChild (check : addr → result bool) (l : list addr) : result bool :=
  match l with
  | [] => Ok false
  | c :: l' => b ← check c; if b : bool then Ok true else anyChild check l'
  end.

Fixpoint hasAggregationExpression_rec (fuel : nat) (h : heap) (ast : addr) : result bool :=
  match fuel with
  | 0 => Err Diverges
  | S k =>
      n ← get h ast;
      agg ← (if decide (type_ n = T_METHOD_CALL) then isAggregateCall (token_ n)
             else Ok false);
      if agg : bool then Ok true
      else anyChild (hasAggregationExpression_rec k h) (children_ n)
  end.

Definition hasAggregationExpression (h : heap) (ast : addr) : result bool :=
  hasAggregationExpression_rec (S (length h)) h ast.

Definition hasAggregationInSelectList (h : heap) (ast : addr) : result bool :=
  n ← get h ast;
  if negb (bool_decide (type_ n = T_SELECT)) || (length (children_ n) <? 2)
  then Ok false
  else
    select_list ← child n 0;
    sl ← get h select_list;
    _ ← assert (bool_decide (type_ sl = T_SELECT_LIST));
    hasAggregationExpression h select_list.

(** *** buildDrawStatement *)

Definition buildDrawStatement (h : heap) (ast : addr) : result Executable :=
  n ← get h ast;
  tok ← deref (token_ n);
  match Token.getType tok with
  | Token.T_BAR => Ok (DrawStatement DrawStatement.T_BAR_CHART)
  | Token.T_LINE => Ok (DrawStatement DrawStatement.T_LINE_CHART)
  | Token.T_AREA => Ok (DrawStatement DrawStatement.T_AREA_CHART)
  | _ => Err AssertionFailed
  end.

(** *** buildInternalSelectList *)

(** The search for a column that is already in the select list: the
    body of the loop is empty, so [col_index] comes out as it went in. *)
Definition searchCandidates (candidates : list addr) (col_index : Z) : Z :=
  foldl (λ ci _, ci) col_index candidates.

(** The loop over the children of a node that is not a column
    reference; it runs over the child vector as it was when the loop
    started.  (The callers never pass a target that lies inside the
    tree being rewritten.) *)
Fixpoint visitChildren (visit : heap → addr → result (heap * bool))
    (h : heap) (l : list addr) : result (heap * bool) :=
  match l with
  | [] => Ok (h, true)
  | c :: l' =>
      '(h1, ok) ← visit h c;
      if ok : bool then visitChildren visit h1 l' else Ok (h1, false)
  end.

Fixpoint buildInternalSelectList_rec (fuel : nat) (h : heap)
    (node target_select_list : addr) : result (heap * bool) :=
  match fuel with
  | 0 => Err Diverges
  | S k =>
      n ← get h node;
      if decide (type_ n = T_COLUMN_NAME) then
        tl ← get h target_select_list;
        let col_index := searchCandidates (children_ tl) (-1)%Z in
        '(h4, col_index) ←
          (if (col_index <? 0)%Z then
             let '(h1, derived) := alloc h (newNode T_DERIVED_COLUMN) in
             '(h2, copy) ← deepCopy h1 node;
             h3 ← appendChild h2 derived copy;
             h4 ← appendChild h3 target_select_list derived;
             tl' ← get h4 target_select_list;
             Ok (h4, (Z.of_nat (length (children_ tl')) - 1)%Z)
           else Ok (h, col_index));
        h5 ← setType h4 node T_RESOLVED_COLUMN;
        h6 ← setID h5 node col_index;
        Ok (h6, true)
      else
        visitChildren (λ h' c, buildInternalSelectList_rec k h' c target_select_list)
                      h (children_ n)
  end.

Definition buildInternalSelectList (h : heap) (node target_select_list : addr)
    : result (heap * bool) :=
  buildInternalSelectList_rec (S (length h)) h node target_select_list.

(** [compileAST(ast, &scratchpad_len)] with the scratchpad length
    starting at zero: the compiler is handed the subtree at [ast]. *)
Definition compile (h : heap) (ast : addr) : result (CompiledExpression * nat) :=
  t ← readAST h ast;
  compileAST t 0.

(** *** buildSeriesStatement *)

(** The loop that copies the column names of the nested plan: [i] is
    the loop counter and [n] the number of axes still to go. *)
Fixpoint pushAxes (n i : nat) (columns column_names : list string) : list string :=
  match n with
  | 0 => column_names
  | S n' =>
      match columns !! i with
      | Some c => pushAxes n' (S i) columns (column_names ++ [c])
      | None => column_names
      end
  end.

Definition buildSeriesStatement
    (buildQueryPlan : heap → addr → result (heap * Executable))
    (h : heap) (ast : addr) : result (heap * Executable) :=
  n ← get h ast;
  select_ast ← child n 1;
  sel ← get h select_ast;
  _ ← assert (0 <? length (children_ sel));
  child_sl ← child sel 0;
  csl ← get h child_sl;
  _ ← assert (bool_decide (type_ csl = T_SELECT_LIST));
  let num_axes := length (children_ csl) in
  (* build or copy name expression *)
  name0 ← child n 0;
  nm ← get h name0;
  '(h1, name) ←
    (if decide (type_ nm = T_SERIES_NAME) then
       token ← deref (token_ nm);
       let '(h', name) := alloc h (newNode T_LITERAL) in
       h'' ← setToken h' name token;
       Ok (h'', name)
     else
       '(h', name) ← deepCopy h name0;
       '(h'', _) ← buildInternalSelectList h' name child_sl;
       Ok (h'', name));
  (* build nested select statement *)
  n1 ← get h1 ast;
  nested ← child n1 1;
  '(h2, select) ← buildQueryPlan h1 nested;
  (* compile name expression *)
  '(name_expr, scratchpad_len) ← compile h2 name;
  _ ← assert (scratchpad_len =? 0);
  (* resolve output column names *)
  let column_names := pushAxes num_axes 0 (getColumns select) ["series"%string] in
  Ok (h2, SeriesStatement column_names name_expr select).

(** *** buildGroupBy *)

(** Position of the first child with the given tag. *)
Fixpoint findType (h : heap) (ty : kASTNodeType) (l : list addr) (i : nat)
    : result (option nat) :=
  match l with
  | [] => Ok None
  | a :: l' =>
      c ← get h a;
      if decide (type_ c = ty) then Ok (Some i) else findType h ty l' (S i)
  end.

(** Remove the group by clause from the child statement: the first
    child tagged GROUP_BY, if there is one. *)
Definition removeGroupBy (h : heap) (child_ast : addr) : result heap :=
  c ← get h child_ast;
  found ← findType h T_GROUP_BY (children_ c) 0;
  match found with
  | Some i => removeChild h child_ast i
  | None => Ok h
  end.

(** Copy all group expressions of one clause and add the fields they
    need to the child select list. *)
Fixpoint copyGroupExprs (h : heap) (group_exprs child_sl : addr)
    (l : list addr) : result heap :=
  match l with
  | [] => Ok h
  | group_expr :: l' =>
      '(h1, e) ← deepCopy h group_expr;
      '(h2, _) ← buildInternalSelectList h1 e child_sl;
      h3 ← appendChild h2 group_exprs e;
      copyGroupExprs h3 group_exprs child_sl l'
  end.

(** The search for group by clauses among the children of the
    statement. *)
Fixpoint searchGroupBy (h : heap) (group_exprs child_sl child_ast : addr)
    (l : list addr) : result heap :=
  match l with
  | [] => Ok h
  | c :: l' =>
      cn ← get h c;
      if decide (type_ cn = T_GROUP_BY) then
        h1 ← copyGroupExprs h group_exprs child_sl (children_ cn);
        h2 ← removeGroupBy h1 child_ast;
        searchGroupBy h2 group_exprs child_sl child_ast l'
      else searchGroupBy h group_exprs child_sl child_ast l'
  end.

(** The trees [buildGroupBy] makes before it compiles anything. *)
Record GroupByTrees := {
  gb_select_list : addr;
  gb_group_exprs : addr;
  gb_child_sl : addr;
  gb_child_ast : addr
}.

Definition rewriteGroupBy (h : heap) (ast : addr) : result (heap * GroupByTrees) :=
  let '(h0, group_exprs) := alloc h (newNode T_GROUP_BY) in
  n ← get h0 ast;
  own_sl ← child n 0;
  sl ← get h0 own_sl;
  _ ← assert (bool_decide (type_ sl = T_SELECT_LIST));
  (* copy own select list *)
  '(h1, select_list) ← deepCopy h0 own_sl;
  (* generate select list for child *)
  let '(h2, child_sl) := alloc h1 (newNode T_SELECT_LIST) in
  '(h3, _) ← buildInternalSelectList h2 select_list child_sl;
  (* copy ast for child and swap out select lists *)
  '(h4, child_ast) ← deepCopy h3 ast;
  h5 ← removeChild h4 child_ast 0;
  h6 ← appendChildAt h5 child_ast child_sl 0;
  (* search for a group by clause *)
  n6 ← get h6 ast;
  h7 ← searchGroupBy h6 group_exprs child_sl child_ast (children_ n6);
  Ok (h7, {| gb_select_list := select_list; gb_group_exprs := group_exprs;
             gb_child_sl := child_sl; gb_child_ast := child_ast |}).

Definition buildGroupBy
    (buildQueryPlan : heap → addr → result (heap * Executable))
    (h : heap) (ast : addr) : result (heap * Executable) :=
  '(h7, t) ← rewriteGroupBy h ast;
  (* compile select list and group expressions *)
  '(select_expr, select_scratchpad_len) ← compile h7 (gb_select_list t);
  '(group_expr, group_scratchpad_len) ← compile h7 (gb_group_exprs t);
  _ ← assert (group_scratchpad_len =? 0);
  (* resolve output column names *)
  sl ← get h7 (gb_select_list t);
  let column_names := (λ _, "unnamed"%string) <$> children_ sl in
  '(h8, child_plan) ← buildQueryPlan h7 (gb_child_ast t);
  Ok (h8, GroupBy column_names select_expr group_expr select_scratchpad_len
                  child_plan).

(** *** LimitClause::build *)

(** Modelled from the spec: [LimitClause::build], whose code is outside
    the excerpt (§4.1 step 3).  When a LIMIT clause is present, the
    inner plan is built by recursing on the statement with the limit
    clause removed, and wrapped in a LimitClause node; limit and offset
    are read from the tokens of the clause.  Without a LIMIT clause the
    answer is nothing, the [nullptr] of the source. *)
Definition LimitClause_build
    (buildQueryPlan : heap → addr → result (heap * Executable))
    (h : heap) (ast : addr) : result (option (heap * Executable)) :=
  n ← get h ast;
  found ← findType h T_LIMIT (children_ n) 0;
  match found with
  | None => Ok None
  | Some i =>
      clause ← child n i;
      cl ← get h clause;
      offset ← match children_ cl with
               | [] => Ok None
               | o :: _ => oc ← get h o; Ok (token_ oc)
               end;
      '(h1, new_ast) ← deepCopy h ast;
      h2 ← removeChild h1 new_ast i;
      '(h3, inner) ← buildQueryPlan h2 new_ast;
      Ok (Some (h3, LimitClause (token_ cl) offset inner))
  end.

Definition hasLimitClause (h : heap) (ast : addr) : result bool :=
  n ← get h ast;
  anyType h T_LIMIT (children_ n).

(** *** buildQueryPlan *)

Fixpoint buildQueryPlan (fuel : nat) (repo : TableRepository) (h : heap)
    (ast : addr) : result (heap * Executable) :=
  match fuel with
  | 0 => Err OutOfFuel
  | S k =>
      n ← get h ast;
      (* series statement *)
      if decide (type_ n = T_SERIES) then
        buildSeriesStatement (buildQueryPlan k repo) h ast
      (* draw statement *)
      else if decide (type_ n = T_DRAW) then
        exec ← buildDrawStatement h ast; Ok (h, exec)
      else
        (* internal nodes: multi table query (joins), order, aggregation, limit *)
        limit ← LimitClause_build (buildQueryPlan k repo) h ast;
        match limit with
        | Some exec => Ok exec
        | None =>
            group_by ← hasGroupByClause h ast;
            aggr ← (if group_by : bool then Ok true
                    else hasAggregationInSelectList h ast);
            if aggr : bool then buildGroupBy (buildQueryPlan k repo) h ast
            else
              (* leaf nodes: table scan, tableless select *)
              match TableScan_build h ast repo with
              | Some columns => Ok (h, TableScan columns)
              | None =>
                  match TablelessSelect_build h ast with
                  | Some columns => Ok (h, TablelessSelect columns)
                  | None => Err AssertionFailed (* cant build queryplan *)
                  end
              end
        end
  end.
End Planner.
End QueryPlan.

(** ** The metric HTTP API *)

(** What the API uses of the C++ library and of the utilities of the
    repository that are outside the excerpt: [std::stod] on an abstract
    type of doubles, answering with the parsed number, or with nothing
    when the call throws; and [StringUtil::stripTrailingSlashes]. *)
Class Library := {
  double : Type;
  stod : string → option double;
  stripTrailingSlashes : string → string
}.

(** *** std::stod *)

(** What [std::stod] accepts.  It reads its argument with [strtod]:
    white space is skipped, and the longest text after it that has the
    form of a number is converted (the subject sequence of the C
    standard): an optional sign followed by decimal digits with an
    optional point and an optional exponent, or the same in
    hexadecimal after [0x], or INF, INFINITY or NAN in any case.  What
    follows the number is ignored.  [std::stod] throws when there is
    no such text (std::invalid_argument) and when [strtod] reports a
    range error (std::out_of_range). *)
Module strtod.
Definition code (c : ascii) : nat := nat_of_ascii c.

Definition between (lo hi : nat) (c : ascii) : bool :=
  (lo <=? code c) && (code c <=? hi).

(** The tests of <cctype> in the C locale. *)
Definition isspace (c : ascii) : bool := (code c =? 32) || between 9 13 c.
Definition isdigit (c : ascii) : bool := between 48 57 c.
Definition isupper (c : ascii) : bool := between 65 90 c.
Definition isalpha (c : ascii) : bool := isupper c || between 97 122 c.
Definition isxdigit (c : ascii) : bool :=
  isdigit c || between 65 70 c || between 97 102 c.
Definition tolower (c : ascii) : ascii :=
  if isupper c then ascii_of_nat (code c + 32) else c.

(** The characters that may stand between the parentheses of NAN(...). *)
Definition isnchar (c : ascii) : bool :=
  isdigit c || isalpha c || bool_decide (c = "_"%char).

(** The longest prefix of characters that pass the test, and the rest. *)
Fixpoint span (p : ascii → bool) (l : list ascii) : list ascii * list ascii :=
  match l with
  | c :: l' => if p c then let '(a, b) := span p l' in (c :: a, b) else ([], l)
  | [] => ([], [])
  end.

Definition sign (l : list ascii) : list ascii * list ascii :=
  match l with
  | c :: l' =>
      if bool_decide (c = "+"%char) || bool_decide (c = "-"%char)
      then ([c], l') else ([], l)
  | [] => ([], [])
  end.

(** Digits with an optional point among them, at least one digit. *)
Definition digits (digit : ascii → bool) (l : list ascii)
    : option (list ascii * list ascii) :=
  let '(int, r1) := span digit l in
  match r1 with
  | c :: r2 =>
      if bool_decide (c = "."%char) then
        let '(frac, r3) := span digit r2 in
        match int, frac with
        | [], [] => None
        | _, _ => Some (int ++ c :: frac, r3)
        end
      else match int with [] => None | _ => Some (int, r1) end
  | [] => match int with [] => None | _ => Some (int, r1) end
  end.

(** The exponent part when it is complete: the mark, an optional sign
    and at least one decimal digit; nothing otherwise. *)
Definition exponent (mark : ascii) (l : list ascii) : list ascii :=
  match l with
  | c :: r =>
      if bool_decide (tolower c = mark) then
        let '(sg, r') := sign r in
        match span isdigit r' with
        | ([], _) => []
        | (ds, _) => c :: sg ++ ds
        end
      else []
  | [] => []
  end.

Definition number (digit : ascii → bool) (mark : ascii) (l : list ascii)
    : option (list ascii) :=
  '(m, r) ← digits digit l; Some (m ++ exponent mark r).

Definition hexadecimal (l : list ascii) : option (list ascii) :=
  match l with
  | z :: x :: r =>
      if bool_decide (z = "0"%char) && bool_decide (tolower x = "x"%char)
      then b ← number isxdigit "p"%char r; Some (z :: x :: b)
      else None
  | _ => None
  end.

(** A word at the start of the text, in any case. *)
Definition word (w : string) (l : list ascii) : option (list ascii * list ascii) :=
  let n := String.length w in
  if bool_decide (tolower <$> take n l = String.list_ascii_of_string w)
  then Some (take n l, drop n l) else None.

Definition nanChars (l : list ascii) : list ascii :=
  match l with
  | c :: r =>
      if bool_decide (c = "("%char) then
        match span isnchar r with
        | (cs, d :: _) => if bool_decide (d = ")"%char) then c :: cs ++ [d] else []
        | (_, []) => []
        end
      else []
  | [] => []
  end.

Definition unsigned (l : list ascii) : option (list ascii) :=
  match hexadecimal l with
  | Some b => Some b
  | None =>
      match number isdigit "e"%char l with
      | Some b => Some b
      | None =>
          match word "infinity" l with
          | Some (m, _) => Some m
          | None =>
              match word "inf" l with
              | Some (m, _) => Some m
              | None => '(m, r) ← word "nan" l; Some (m ++ nanChars r)
              end
          end
      end
  end.

(** The text [strtod] converts, or nothing when there is no
    conversion. *)
Definition subject (s : string) : option string :=
  let '(sg, l) := sign (span isspace (String.list_ascii_of_string s)).2 in
  b ← unsigned l; Some (String.string_of_list_ascii (sg ++ b)).

(** The text is a number as a whole: all of it is converted. *)
Definition numeral (s : string) : Prop := subject s = Some s.
End strtod.

(** [std::stod] on the doubles of the library: [convert] is the value
    [strtod] gives to a text that has the form of a number, or nothing
    when it reports a range error. *)
Definition standard_stod `{Library} (convert : string → option double) : Prop :=
  ∀ s, stod s = strtod.subject s ≫= convert.

Module http.
Inductive kMethod := M_GET | M_POST | M_OTHER.

(** Modelled from the spec: the status constants of the http library
    (§6 names the codes 400, 404 and 201; OK is 200). *)
Definition kStatusOK : Z := 200.
Definition kStatusCreated : Z := 201.
Definition kStatusBadRequest : Z := 400.
Definition kStatusNotFound : Z := 404.

(** What is written to the response body: text given to [addBody], or
    the calls made on the JSON stream over the body. *)
Inductive body_item :=
| Text (s : string)
| BeginObject | EndObject | BeginArray | EndArray
| ObjectEntry (key : string)
| JString (s : string)
| JInteger (i : Z).

Record HTTPResponse := mkResponse {
  status : option Z;
  headers : list (string * string);
  body : list body_item
}.

Definition setStatus (r : HTTPResponse) (s : Z) : HTTPResponse :=
  {| status := Some s; headers := headers r; body := body r |}.
Definition addHeader (r : HTTPResponse) (k v : string) : HTTPResponse :=
  {| status := status r; headers := headers r ++ [(k, v)]; body := body r |}.
Definition addBody (r : HTTPResponse) (items : list body_item) : HTTPResponse :=
  {| status := status r; headers := headers r; body := body r ++ items |}.
End http.

Module URI.
(** A parsed request URI: its path and its query parameters in order. *)
Record URI := mk { path : string; queryParams : list (string * string) }.

(** Modelled from the spec: [URI::getParam], which looks a query
    parameter up by name (§6: a missing [value] is an error). *)
Fixpoint getParam (params : list (string * string)) (key : string) : option string :=
  match params with
  | [] => None
  | (k, v) :: rest => if decide (k = key) then Some v else getParam rest key
  end.
End URI.

(** [std::string::substr(pos)]: throws when [pos] is past the end. *)
Fixpoint string_drop (n : nat) (s : string) : string :=
  match n, s with
  | 0, _ => s
  | S n', String _ s' => string_drop n' s'
  | S _, EmptyString => EmptyString
  end.

Definition substr (s : string) (pos : nat) : result string :=
  if decide (pos ≤ String.length s) then Ok (string_drop pos s)
  else Err InvalidAccess.

Module MetricRepository.
Section Repository.
Context `{Library}.

Record Sample := { time : Z; value : double }.

(** The calls made on the repository and its metrics. *)
Inductive call :=
| ListMetrics
| FindMetric (key : string)
| FindOrCreateMetric (key : string)
| AddSample (key : string)
| ScanSamples (key : string).

(** Modelled from the spec: the metric repository (§6).  A metric is
    its key and the samples stored under it, oldest first; the
    repository also records the calls it receives. *)
Record MetricRepository := mk {
  metrics : gmap string (list Sample);
  calls : list call
}.

Definition log (r : MetricRepository) (c : call) : MetricRepository :=
  {| metrics := metrics r; calls := calls r ++ [c] |}.

Definition listMetrics (r : MetricRepository) : MetricRepository * list string :=
  (log r ListMetrics, (map_to_list (metrics r)).*1).

Definition findMetric (r : MetricRepository) (key : string)
    : MetricRepository * option string :=
  (log r (FindMetric key),
   match metrics r !! key with Some _ => Some key | None => None end).

Definition findOrCreateMetric (r : MetricRepository) (key : string)
    : MetricRepository * string :=
  let r' := log r (FindOrCreateMetric key) in
  match metrics r !! key with
  | Some _ => (r', key)
  | None => ({| metrics := <[key := []]> (metrics r'); calls := calls r' |}, key)
  end.

(** The sample is stored with the time of its arrival. *)
Definition addSample (r : MetricRepository) (metric : string) (now : Z)
    (v : double) : MetricRepository :=
  let r' := log r (AddSample metric) in
  {| metrics := alter (λ l, l ++ [{| time := now; value := v |}]) metric (metrics r');
     calls := calls r' |}.

(** The samples of the half-open time range, in the order of the log. *)
Definition scanSamples (r : MetricRepository) (metric : string) (from to : Z)
    : MetricRepository * list Sample :=
  (log r (ScanSamples metric),
   filter (λ s, (from ≤ time s)%Z ∧ (time s < to)%Z)
          (default [] (metrics r !! metric))).
End Repository.
End MetricRepository.

Module HTTPAPI.
Import http MetricRepository.

Section Handlers.
Context `{Library}.

Definition kMetricsUrl : string := "/metrics".
Definition kMetricsUrlPrefix : string := "/metrics/".
Definition kQueryUrl : string := "/query".

Record HTTPRequest := { method : kMethod; uri : URI.URI }.

(** The path of a request to [/metrics/{key}]. *)
Definition metricPath (key : string) : string := kMetricsUrlPrefix +:+ key.

Definition renderMetricList (repo : MetricRepository) (response : HTTPResponse)
    : MetricRepository * HTTPResponse :=
  let response := setStatus response kStatusOK in
  let response := addHeader response "Content-Type" "application/json; charset=utf-8" in
  let '(repo, keys) := listMetrics repo in
  let entries := mjoin ((λ key, [BeginObject; ObjectEntry "key"; JString key; EndObject]) <$> keys) in
  (repo, addBody response
           ([BeginObject; ObjectEntry "metrics"; BeginArray] ++ entries
            ++ [EndArray; EndObject])).

Definition insertSample (now : Z) (repo : MetricRepository)
    (response : HTTPResponse) (uri : URI.URI)
    : result (MetricRepository * HTTPResponse) :=
  let params := URI.queryParams uri in
  metric_key ← substr (URI.path uri) (String.length kMetricsUrlPrefix);
  if decide (String.length metric_key < 3) then
    let response := addBody response [Text ("error: invalid metric key: " +:+ metric_key)] in
    Ok (repo, setStatus response kStatusBadRequest)
  else
    match URI.getParam params "value" with
    | None =>
        let response := addBody response [Text "error: missing ?value=... parameter"] in
        Ok (repo, setStatus response kStatusBadRequest)
    | Some value_str =>
        match stod value_str with
        | None =>
            let response := addBody response [Text ("error: invalid value: " +:+ value_str)] in
            Ok (repo, setStatus response kStatusBadRequest)
        | Some v =>
            let '(repo, metric) := findOrCreateMetric repo metric_key in
            let repo := addSample repo metric now v in
            Ok (repo, setStatus response kStatusCreated)
        end
    end.

Definition renderMetricSampleScan (now : Z) (repo : MetricRepository)
    (response : HTTPResponse) (uri : URI.URI)
    : result (MetricRepository * HTTPResponse) :=
  metric_key ← substr (URI.path uri) (String.length kMetricsUrlPrefix);
  if decide (String.length metric_key < 3) then
    let response := addBody response [Text ("error: invalid metric key: " +:+ metric_key)] in
    Ok (repo, setStatus response kStatusBadRequest)
  else
    let '(repo, metric) := findMetric repo metric_key in
    match metric with
    | None =>
        let response := addBody response [Text ("metric not found: " +:+ metric_key)] in
        Ok (repo, setStatus response kStatusNotFound)
    | Some metric =>
        let response := setStatus response kStatusOK in
        let response := addHeader response "Content-Type" "application/json; charset=utf-8" in
        let '(repo, samples) := scanSamples repo metric 0 now in
        let entries :=
          mjoin ((λ s, [BeginObject; ObjectEntry "time"; JInteger (time s); EndObject])
                 <$> samples) in
        Ok (repo, addBody response
                    ([BeginObject; ObjectEntry "samples"; BeginArray] ++ entries
                     ++ [EndArray; EndObject]))
    end.

(** [path.compare(0, n, prefix) == 0] with [n] the length of the prefix. *)
Definition hasPrefix (p s : string) : bool := String.prefix p s.

(** The answer is whether the request was handled, with the repository
    and the response as the handler left them. *)
Definition handleHTTPRequest (now : Z) (repo : MetricRepository)
    (request : HTTPRequest) (response : HTTPResponse)
    : result (bool * MetricRepository * HTTPResponse) :=
  let path := stripTrailingSlashes (URI.path (uri request)) in
  if decide (path = kMetricsUrl) then
    match method request with
    | M_GET =>
        let '(repo, response) := renderMetricList repo response in
        Ok (true, repo, response)
    | _ => Ok (false, repo, response)
    end
  else if hasPrefix kMetricsUrlPrefix path then
    match method request with
    | M_GET =>
        '(repo, response) ← renderMetricSampleScan now repo response (uri request);
        Ok (true, repo, response)
    | M_POST =>
        '(repo, response) ← insertSample now repo response (uri request);
        Ok (true, repo, response)
    | _ => Ok (false, repo, response)
    end
  else if decide (path = kQueryUrl) then
    match method request with
    | M_GET | M_POST => Ok (true, repo, response)
    | _ => Ok (false, repo, response)
    end
  else Ok (false, repo, response).
End Handlers.
End HTTPAPI.

(** ** Vocabulary of the statements about the store *)

Section StoreVocabulary.
Import ASTNode.

(** [keeps n h h']: every object of [h] is still there in [h'], and
    the objects at addresses below [n] are as they were. *)
Definition keeps (n : nat) (h h' : heap) : Prop :=
  length h ≤ length h' ∧ ∀ a, a < n → h' !! a = h !! a.

(** [region n h]: the objects from address [n] on only point to
    objects from address [n] on. *)
Definition region (n : nat) (h : heap) : Prop :=
  n ≤ length h ∧
  ∀ a c, n ≤ a → h !! a = Some c → Forall (λ k, n ≤ k) (children_ c).

(** A run from [h] to [h'] that stays inside the region from [n] on. *)
Definition within (n : nat) (h h' : heap) : Prop :=
  keeps n h h' ∧ region n h'.
End StoreVocabulary.

(** ** Statement trees laid out in the store *)

Section TreeVocabulary.
Import ASTNode.

(** A tree of objects: every node with the address it lives at. *)
#[warnings="-register-all"]
Inductive atree :=
| ANode (a : addr) (ty : kASTNodeType) (tok : option Token.Token) (id : option Z)
        (kids : list atree).

Definition root (t : atree) : addr :=
  match t with ANode a _ _ _ _ => a end.

Definition akids (t : atree) : list atree :=
  match t with ANode _ _ _ _ kids => kids end.

(** The object a node of the tree stands for. *)
Definition cell (t : atree) : ASTNode :=
  match t with
  | ANode _ ty tok id kids =>
      {| type_ := ty; token_ := tok; id_ := id; children_ := root <$> kids |}
  end.

(** The node and everything below it, parents first. *)
Fixpoint subtrees (t : atree) : list atree :=
  t :: match t with ANode _ _ _ _ kids => kids ≫= subtrees end.

Definition addrs (t : atree) : list addr := root <$> subtrees t.

(** The store holds the tree: each node is the object at its address. *)
Definition models (h : heap) (t : atree) : Prop :=
  ∀ s, s ∈ subtrees t → h !! root s = Some (cell s).

(** The tree is a tree: no object occurs in it twice. *)
Definition separate (ts : list atree) : Prop := NoDup (ts ≫= addrs).

(** Trees made of objects allocated between two states of the store. *)
Definition allocated (lo hi : nat) (ts : list atree) : Prop :=
  separate ts ∧ Forall (λ a, lo ≤ a < hi) (ts ≫= addrs).

Fixpoint erase (t : atree) : tree :=
  match t with
  | ANode _ ty tok id kids => Node ty tok id (erase <$> kids)
  end.

Fixpoint depth (t : tree) : nat :=
  match t with
  | Node _ _ _ kids => S (foldr (λ k d, depth k `max` d) 0 kids)
  end.

(** What a clone looks like: the same shape and tokens, no resolved
    index. *)
Fixpoint clone (t : tree) : tree :=
  match t with
  | Node ty tok _ kids => Node ty tok None (clone <$> kids)
  end.

(** *** The push-down as a function on trees *)

(** The column references of an expression, in the order the push-down
    meets them. *)
Fixpoint columns (t : tree) : list tree :=
  match t with
  | Node ty _ _ kids =>
      if decide (ty = T_COLUMN_NAME) then [t] else kids ≫= columns
  end.

(** The entry the push-down adds to the target select list for a
    column reference. *)
Definition derived (column : tree) : tree :=
  Node T_DERIVED_COLUMN None None [clone column].

(** Children are rewritten left to right; each one starts counting
    where the one before it stopped. *)
Fixpoint rewriteEach {T} (rewrite : T → nat → T) (count : T → nat)
    (l : list T) (next : nat) : list T :=
  match l with
  | [] => []
  | k :: l' => rewrite k next :: rewriteEach rewrite count l' (next + count k)
  end.

(** The expression after the push-down, when the target select list
    has [next] entries: the i-th column reference met becomes a
    resolved column with index [next + i]. *)
Fixpoint pushDown (t : tree) (next : nat) : tree :=
  match t with
  | Node ty tok id kids =>
      if decide (ty = T_COLUMN_NAME)
      then Node T_RESOLVED_COLUMN tok (Some (Z.of_nat next)) kids
      else Node ty tok id
             (rewriteEach pushDown (λ k, length (columns k)) kids next)
  end.

(** The same on a tree of objects: the nodes stay where they are. *)
Fixpoint resolve (t : atree) (next : nat) : atree :=
  match t with
  | ANode a ty tok id kids =>
      if decide (ty = T_COLUMN_NAME)
      then ANode a T_RESOLVED_COLUMN tok (Some (Z.of_nat next)) kids
      else ANode a ty tok id
             (rewriteEach resolve (λ k, length (columns (erase k))) kids next)
  end.

(** What a push-down into [target] leaves behind: the target has the
    new entries [cols] at its end, these are trees of newly allocated
    objects, and apart from the target and the objects in [touched]
    the store is as before. *)
Record pushed (h : heap) (touched : list addr) (target : addr) (tl : ASTNode)
    (h' : heap) (cols : list atree) : Prop := {
  pushed_target :
    h' !! target = Some (setChildren tl (children_ tl ++ (root <$> cols)));
  pushed_cols : Forall (models h') cols;
  pushed_allocated : allocated (length h) (length h') cols;
  pushed_length : length h ≤ length h';
  pushed_frame :
    ∀ a, a < length h → a ∉ touched → a ≠ target → h' !! a = h !! a
}.
End TreeVocabulary.

(** ** Aggregates and grouping keys *)

Section AggregateVocabulary.
Context `{Collaborators}.
Import ASTNode.

(** The symbol table marks the function a call names as an aggregate. *)
Definition namesAggregate (tok : option Token.Token) : bool :=
  match tok with
  | Some tok =>
      match lookupSymbol (Token.getString tok) with
      | Some symbol => isAggregate symbol
      | None => false
      end
  | None => false
  end.

(** The expression contains a call of an aggregate function. *)
Fixpoint callsAggregate (t : tree) : bool :=
  match t with
  | Node ty tok _ kids =>
      (bool_decide (ty = T_METHOD_CALL) && namesAggregate tok)
      || existsb callsAggregate kids
  end.

(** The grouping keys of the statement at [ast] are pure: the children
    of the statement are objects of the store, and every expression of
    every GROUP BY clause among them can be read from the store and
    contains no call of an aggregate function. *)
Definition pureKey (h : heap) (g : addr) : Prop :=
  ∃ t, readAST h g = Ok t ∧ callsAggregate t = false.

Definition pureClause (h : heap) (c : addr) : Prop :=
  ∃ cn, h !! c = Some cn ∧
        (type_ cn = T_GROUP_BY → Forall (pureKey h) (children_ cn)).

Definition pureGroupKeys (h : heap) (ast : addr) : Prop :=
  ∃ n, h !! ast = Some n ∧ Forall (pureClause h) (children_ n).

(** Modelled from the spec: the contract of [compileAST], the expression
    compiler, whose code is outside the excerpt (§3: non-aggregating
    expressions compile with zero scratch slots).  An expression without
    aggregate calls leaves the scratchpad length as it was. *)
Definition compilesPure : Prop :=
  ∀ t n expr n',
    callsAggregate t = false → compileAST t n = Ok (expr, n') → n' = n.

(** The state of the store while [buildGroupBy] collects the grouping
    expressions: the objects of the store [h0] the builder was entered
    with are as they were, and the GROUP_BY container at [group_exprs]
    holds trees of objects allocated after [lo] that contain no
    aggregate call. *)
Record collecting (h0 : heap) (lo : nat) (group_exprs : addr) (h : heap) : Prop := {
  collecting_within : within (length h0) h0 h;
  collecting_lo : lo ≤ length h;
  collecting_exprs :
    ∃ gs, h !! group_exprs = Some (cell (ANode group_exprs T_GROUP_BY None None gs)) ∧
          Forall (models h) gs ∧
          Forall (λ g, callsAggregate (erase g) = false) gs ∧
          Forall (λ a, lo ≤ a) (gs ≫= addrs)
}.
End AggregateVocabulary.

(** ** Sample statements and collaborators *)

Module Demo.
Import ASTNode.

(** A symbol table with the aggregate [avg] and the plain function
    [abs]. *)
Definition symbols (name : string) : option SymbolTableEntry :=
  if decide (name = "avg"%string) then Some {| isAggregate := true |}
  else if decide (name = "abs"%string) then Some {| isAggregate := false |}
  else None.

(** Number of calls of [avg] in an expression: the scratch slots the
    sample compiler asks for. *)
Fixpoint slots (t : tree) : nat :=
  match t with
  | Node ty tok _ kids =>
      (if bool_decide (ty = T_METHOD_CALL)
          && bool_decide (Token.getString <$> tok = Some "avg"%string)
       then 1 else 0)
      + foldr (λ k n, slots k + n) 0 kids
  end.

(** The table scan of the sample accepts every SELECT statement and
    names one column per entry of its select list. *)
Definition scan (h : heap) (ast : addr) : option (list string) :=
  n ← h !! ast;
  if decide (type_ n = T_SELECT) then
    sl ← children_ n !! 0;
    c ← h !! sl;
    Some (imap (λ i _, String (ascii_of_nat (48 + i)) EmptyString) (children_ c))
  else None.

Definition collaborators : Collaborators := {|
  CompiledExpression := tree;
  TableRepository := unit;
  lookupSymbol := symbols;
  compileAST := λ t n, Ok (t, n + slots t);
  TableScan_build := λ h ast _, scan h ast;
  TablelessSelect_build := λ _ _, None
|}.

Definition identifier (s : string) : option Token.Token :=
  Some (Token.mk (Token.T_OTHER "identifier") s).

(** select avg(value) from m group by k;  the statement is object 7. *)
Definition groupByStatement : heap := [
  (* 0 *) mk T_COLUMN_NAME (identifier "value") None [];
  (* 1 *) mk T_METHOD_CALL (identifier "avg") None [0];
  (* 2 *) mk T_DERIVED_COLUMN None None [1];
  (* 3 *) mk T_SELECT_LIST None None [2];
  (* 4 *) mk (T_OTHER 0) (identifier "m") None [];
  (* 5 *) mk T_COLUMN_NAME (identifier "k") None [];
  (* 6 *) mk T_GROUP_BY None None [5];
  (* 7 *) mk T_SELECT None None [3; 4; 6]
].

(** select time, value from m;  the statement is object 6;  object 7 is
    a series over it, named by a literal, and object 9 one named by
    the expression in object 10. *)
Definition seriesStatement : heap := [
  (* 0 *) mk T_COLUMN_NAME (identifier "time") None [];
  (* 1 *) mk T_DERIVED_COLUMN None None [0];
  (* 2 *) mk T_COLUMN_NAME (identifier "value") None [];
  (* 3 *) mk T_DERIVED_COLUMN None None [2];
  (* 4 *) mk T_SELECT_LIST None None [1; 3];
  (* 5 *) mk (T_OTHER 0) (identifier "m") None [];
  (* 6 *) mk T_SELECT None None [4; 5];
  (* 7 *) mk T_SERIES None None [8; 6];
  (* 8 *) mk T_SERIES_NAME (Some (Token.mk (Token.T_OTHER "string") "load")) None [];
  (* 9 *) mk T_SERIES None None [10; 6];
  (* 10 *) mk T_COLUMN_NAME (identifier "host") None []
].

(** abs(x) twice, as objects 1 and 3, and two empty select lists. *)
Definition twoCopies : heap := [
  (* 0 *) mk T_COLUMN_NAME (identifier "x") None [];
  (* 1 *) mk T_METHOD_CALL (identifier "abs") None [0];
  (* 2 *) mk T_COLUMN_NAME (identifier "x") None [];
  (* 3 *) mk T_METHOD_CALL (identifier "abs") None [2];
  (* 4 *) mk T_SELECT_LIST None None [];
  (* 5 *) mk T_SELECT_LIST None None []
].

Definition firstCopy : atree :=
  ANode 1 T_METHOD_CALL (identifier "abs") None
    [ANode 0 T_COLUMN_NAME (identifier "x") None []].
Definition secondCopy : atree :=
  ANode 3 T_METHOD_CALL (identifier "abs") None
    [ANode 2 T_COLUMN_NAME (identifier "x") None []].

(** add(a, b) as object 2, and an empty select list as object 3. *)
Definition sum : heap := [
  (* 0 *) mk T_COLUMN_NAME (identifier "a") None [];
  (* 1 *) mk T_COLUMN_NAME (identifier "b") None [];
  (* 2 *) mk T_METHOD_CALL (identifier "add") None [0; 1];
  (* 3 *) mk T_SELECT_LIST None None []
].

Definition sumArguments : list atree :=
  [ANode 0 T_COLUMN_NAME (identifier "a") None [];
   ANode 1 T_COLUMN_NAME (identifier "b") None []].

(** The planner over the sample collaborators. *)
Definition planner : heap → addr → result (heap * QueryPlan.Executable) :=
  QueryPlan.buildQueryPlan (H := collaborators) 2 tt.

Fixpoint stripSlashes (s : string) : string :=
  match s with
  | EmptyString => EmptyString
  | String c s' =>
      match stripSlashes s' with
      | EmptyString => if decide (c = "/"%char) then EmptyString else String c EmptyString
      | rest => String c rest
      end
  end.

(** Doubles as fractions, and a [stod] that knows two spellings. *)
Definition library : Library := {|
  double := Z * Z;
  stod := λ s, if decide (s = "3.5"%string) then Some (7, 2)%Z
               else if decide (s = "1"%string) then Some (1, 1)%Z
               else None;
  stripTrailingSlashes := stripSlashes
|}.

(** The standard [stod], on doubles that stand for the text they were
    read from. *)
Definition standardLibrary : Library := {|
  double := string;
  stod := strtod.subject;
  stripTrailingSlashes := stripSlashes
|}.

Definition noMetrics : MetricRepository.MetricRepository :=
  MetricRepository.mk (H := standardLibrary) ∅ [].

Definition emptyRepository : MetricRepository.MetricRepository :=
  MetricRepository.mk (H := library) ∅ [].

Definition blankResponse : http.HTTPResponse := http.mkResponse None [] [].

Definition sample (now : Z) (v : Z * Z) : MetricRepository.Sample :=
  MetricRepository.Build_Sample (H := library) now v.
End Demo.

(** ** More vocabulary: calls, tags and inlining *)

Section CallVocabulary.
Context `{Collaborators}.
Import ASTNode.

Definition treeType (t : tree) : kASTNodeType :=
  match t with Node ty _ _ _ => ty end.

Definition treeKids (t : tree) : list tree :=
  match t with Node _ _ _ kids => kids end.

(** The symbol table knows the function a call names. *)
Definition namesKnown (tok : option Token.Token) : bool :=
  match tok with
  | Some tok => bool_decide (is_Some (lookupSymbol (Token.getString tok)))
  | None => false
  end.

(** Every call in the expression names a function of the symbol table. *)
Fixpoint knownCalls (t : tree) : bool :=
  match t with
  | Node ty tok _ kids =>
      (if decide (ty = T_METHOD_CALL) then namesKnown tok else true)
      && forallb knownCalls kids
  end.
End CallVocabulary.

(** ** Reading the push-down backwards *)

Section InlineVocabulary.
Import ASTNode.

(** The entry a resolved column points at, in a select list whose
    entries from position [first] on are [entries]. *)
Definition pointee (first : nat) (entries : list tree) (ty : kASTNodeType)
    (id : option Z) : option tree :=
  if decide (ty = T_RESOLVED_COLUMN) then
    i ← id;
    if decide (Z.of_nat first ≤ i)%Z then entries !! (Z.to_nat i - first) else None
  else None.

(** Put the column references back: a resolved column whose index
    points at a derived column is replaced by the expression that
    derived column holds. *)
Fixpoint inline (first : nat) (entries : list tree) (t : tree) : tree :=
  match t with
  | Node ty tok id kids =>
      match pointee first entries ty id with
      | Some (Node T_DERIVED_COLUMN _ _ [c]) => c
      | _ => Node ty tok id (inline first entries <$> kids)
      end
  end.
End InlineVocabulary.

(** ** What buildGroupBy builds *)

Section GroupByVocabulary.
Import ASTNode.

(** The list without its first element that satisfies [P]. *)
Fixpoint dropFirst {A} (P : A → Prop) `{∀ x, Decision (P x)} (l : list A) : list A :=
  match l with
  | [] => []
  | x :: l' => if decide (P x) then l' else x :: dropFirst P l'
  end.

Definition isGroupByClause (t : tree) : Prop := treeType t = T_GROUP_BY.

Global Instance isGroupByClause_dec (t : tree) : Decision (isGroupByClause t).
Proof. unfold isGroupByClause. apply _. Defined.

Global Typeclasses Opaque isGroupByClause.

(** The grouping keys of a statement: the expressions of the GROUP BY
    clauses among its children, in order. *)
Definition groupKeys (kids : list tree) : list tree :=
  filter isGroupByClause kids ≫= treeKids.

(** The select list of the child statement: a derived column for each
    column reference of the select list, then one for each column
    reference of the grouping keys. *)
Definition childSelectList (sl : tree) (rest : list tree) : tree :=
  Node T_SELECT_LIST None None
       (derived <$> (columns sl ++ (groupKeys rest ≫= columns))).

(** The container of grouping expressions: the keys with their column
    references resolved, the indices continuing after those of the
    select list. *)
Definition groupExpressions (sl : tree) (rest : list tree) : tree :=
  Node T_GROUP_BY None None
       (rewriteEach pushDown (λ k, length (columns k)) (clone <$> groupKeys rest)
                    (length (columns sl))).

(** The child statement: a copy of the statement with the generated
    select list in the place of its own, and without GROUP BY clauses. *)
Definition childStatement (ty : kASTNodeType) (tok : option Token.Token)
    (sl : tree) (rest : list tree) : tree :=
  Node ty tok None
       (childSelectList sl rest
          :: (clone <$> filter (λ k, ¬ isGroupByClause k) rest)).

(** The state of the store while [buildGroupBy] searches for GROUP BY
    clauses.  The store [h0] the builder was entered with is as it
    was, and so are the trees [old] built before the search.  The
    container at [group_exprs] holds the trees [gs], the child select
    list at [child_sl] the entries [cs1] it had before the search
    followed by [cs2], and the child statement at [child_ast] has the
    child select list and then [ks] as children; [gs] and [cs2] are
    made of objects allocated from address [top] on. *)
Record grouping (h0 : heap) (top : nat) (group_exprs child_sl child_ast : addr)
    (stmt : ASTNode) (old cs1 : list atree)
    (h : heap) (gs cs2 ks : list atree) : Prop := {
  grouping_keeps : keeps (length h0) h0 h;
  grouping_old : Forall (models h) old;
  grouping_top : top ≤ length h;
  grouping_exprs :
    h !! group_exprs = Some (cell (ANode group_exprs T_GROUP_BY None None gs));
  grouping_child_sl :
    h !! child_sl
    = Some (cell (ANode child_sl T_SELECT_LIST None None (cs1 ++ cs2)));
  grouping_child_ast :
    h !! child_ast = Some (setChildren stmt (child_sl :: (root <$> ks)));
  grouping_ks : Forall (λ k, k ∈ old) ks;
  grouping_gs : Forall (models h) gs;
  grouping_gs_new : allocated top (length h) gs;
  grouping_cs : Forall (models h) cs2;
  grouping_cs_new : allocated top (length h) cs2
}.
End GroupByVocabulary.

(** ** The leaf builders *)

Section LeafVocabulary.
Context `{Collaborators}.
Import ASTNode QueryPlan.

(** The last steps of [buildQueryPlan]: a table scan, else a tableless
    select, else the planner gives up. *)
Definition buildLeaf (repo : TableRepository) (h : heap) (ast : addr)
    : result (heap * Executable) :=
  match TableScan_build h ast repo with
  | Some columns => Ok (h, TableScan columns)
  | None =>
      match TablelessSelect_build h ast with
      | Some columns => Ok (h, TablelessSelect columns)
      | None => Err AssertionFailed
      end
  end.
End LeafVocabulary.

(** ** The sample statements as trees *)

Module DemoTrees.
Import ASTNode.

Definition column (name : string) : tree :=
  Node T_COLUMN_NAME (Demo.identifier name) None [].

(** avg(value) *)
Definition selectList : tree :=
  Node T_SELECT_LIST None None
    [Node T_DERIVED_COLUMN None None
       [Node T_METHOD_CALL (Demo.identifier "avg") None [column "value"]]].

(** from m group by k *)
Definition clauses : list tree :=
  [Node (T_OTHER 0) (Demo.identifier "m") None [];
   Node T_GROUP_BY None None [column "k"]].

(** The grouping key of [Demo.groupByStatement] where it lies in the
    store. *)
Definition keyColumn : atree := ANode 5 T_COLUMN_NAME (Demo.identifier "k") None [].
End DemoTrees.

(** * Properties *)

(** ** The outcome monad *)

Lemma bind_Ok {A B} (m : result A) (f : A → result B) (b : B) :
  m ≫= f = Ok b ↔ ∃ a, m = Ok a ∧ f a = Ok b.
Proof.
  destruct m as [a|e]; simpl.
  - split; [eauto | intros (a' & [= <-] & ?); done].
  - split; [done | intros (a' & [=] & ?)].
Qed.

Lemma assert_Ok (b : bool) (u : unit) : assert b = Ok u ↔ b = true.
Proof. destruct b, u; simpl; split; congruence. Qed.

Lemma deref_Ok {A} (o : option A) (a : A) : deref o = Ok a ↔ o = Some a.
Proof. destruct o; simpl; split; congruence. Qed.

Lemma get_Ok (h : ASTNode.heap) (a : ASTNode.addr) (c : ASTNode.ASTNode) :
  ASTNode.get h a = Ok c ↔ h !! a = Some c.
Proof. apply deref_Ok. Qed.

(** ** buildDrawStatement *)

Section DrawStatementProperties.
Context `{Collaborators}.
Import ASTNode QueryPlan.

Lemma buildDrawStatement_supported (h : heap) (ast : addr) (n : ASTNode) (tok : Token.Token) :
  h !! ast = Some n → token_ n = Some tok →
  (Token.getType tok = Token.T_BAR →
     buildDrawStatement h ast = Ok (DrawStatement DrawStatement.T_BAR_CHART)) ∧
  (Token.getType tok = Token.T_LINE →
     buildDrawStatement h ast = Ok (DrawStatement DrawStatement.T_LINE_CHART)) ∧
  (Token.getType tok = Token.T_AREA →
     buildDrawStatement h ast = Ok (DrawStatement DrawStatement.T_AREA_CHART)).
Proof.
  intros Hn Htok. unfold buildDrawStatement, get. rewrite Hn. simpl.
  rewrite Htok. simpl. by repeat split; intros ->.
Qed.

Lemma buildDrawStatement_unsupported (h : heap) (ast : addr) (n : ASTNode)
    (tok : Token.Token) (name : string) :
  h !! ast = Some n → token_ n = Some tok →
  Token.getType tok = Token.T_OTHER name →
  buildDrawStatement h ast = Err AssertionFailed.
Proof.
  intros Hn Htok Hty. unfold buildDrawStatement, get. rewrite Hn. simpl.
  rewrite Htok. simpl. by rewrite Hty.
Qed.

(** C7. A DRAW statement whose chart token is none of bar, line and
    area (here the token "pie") makes [buildDrawStatement] run into its
    [assert(888 == 0)]: the planner aborts instead of answering with
    an error value. *)
Theorem buildDrawStatement_pie_aborts :
  buildDrawStatement
    [ASTNode.mk T_DRAW (Some (Token.mk (Token.T_OTHER "pie") "pie")) None []] 0
  = Err AssertionFailed.
Proof. reflexivity. Qed.
End DrawStatementProperties.

(** ** buildQueryPlan: the dispatch *)

Section DispatchProperties.
Context `{Collaborators}.
Import ASTNode QueryPlan.

Lemma findType_anyType (h : heap) (ty : kASTNodeType) (l : list addr) (i j : nat) :
  findType h ty l i = Ok (Some j) → anyType h ty l = Ok true.
Proof.
  revert i. induction l as [|a l IH]; intros i; simpl; [done|].
  destruct (get h a) as [c|e]; simpl; [|done].
  destruct (decide (type_ c = ty)); [done | apply IH].
Qed.

Lemma LimitClause_build_without_limit
    (plan : heap → addr → result (heap * Executable)) (h : heap) (ast : addr)
    (r : heap * Executable) :
  LimitClause_build plan h ast = Ok (Some r) → hasLimitClause h ast = Ok true.
Proof.
  unfold LimitClause_build, hasLimitClause. intros Hb.
  apply bind_Ok in Hb as (n & Hn & Hb). rewrite Hn. simpl.
  apply bind_Ok in Hb as (found & Hf & Hb).
  destruct found as [i|]; [|done].
  by eapply findType_anyType.
Qed.

(** C2. A statement that is neither a SERIES nor a DRAW node, has no
    LIMIT clause, no GROUP BY clause and no aggregate call in its
    select list is planned by a leaf builder: whenever [buildQueryPlan]
    returns a plan for it, the plan is a table scan or a tableless
    select (so never a GroupBy node), and the store is as it was. *)
Theorem buildQueryPlan_no_GroupBy (fuel : nat) (repo : TableRepository)
    (h : heap) (ast : addr) (n : ASTNode) (h' : heap) (e : Executable) :
  h !! ast = Some n →
  type_ n ≠ T_SERIES →
  type_ n ≠ T_DRAW →
  hasLimitClause h ast ≠ Ok true →
  hasGroupByClause h ast ≠ Ok true →
  hasAggregationInSelectList h ast ≠ Ok true →
  buildQueryPlan fuel repo h ast = Ok (h', e) →
  isGroupBy e = false ∧ h' = h ∧
  (e = TableScan (getColumns e) ∨ e = TablelessSelect (getColumns e)).
Proof.
  intros Hn Hser Hdraw Hlim Hgrp Hagg Hb.
  destruct fuel as [|k]; [done|]. simpl in Hb.
  apply bind_Ok in Hb as (n' & Hn' & Hb).
  apply get_Ok in Hn'. rewrite Hn in Hn'. injection Hn' as <-.
  destruct (decide (type_ n = T_SERIES)); [done|].
  destruct (decide (type_ n = T_DRAW)); [done|].
  apply bind_Ok in Hb as (limit & Hl & Hb).
  destruct limit as [r|].
  { by apply LimitClause_build_without_limit in Hl. }
  apply bind_Ok in Hb as (g & Hg & Hb).
  destruct g; [done|].
  apply bind_Ok in Hb as (a & Ha & Hb).
  destruct a; [done|].
  destruct (TableScan_build h ast repo) as [cols|].
  { injection Hb as <- <-. simpl. eauto. }
  destruct (TablelessSelect_build h ast) as [cols|]; [|done].
  injection Hb as <- <-. simpl. eauto.
Qed.
End DispatchProperties.

(** ** buildSeriesStatement *)

Section SeriesProperties.
Context `{Collaborators}.
Import ASTNode QueryPlan.

Lemma pushAxes_take (n i : nat) (columns column_names : list string) :
  pushAxes n i columns column_names = column_names ++ take n (drop i columns).
Proof.
  revert i column_names. induction n as [|n IH]; intros i acc; simpl.
  - by rewrite take_0, app_nil_r.
  - destruct (columns !! i) as [c|] eqn:Hi.
    + rewrite IH. rewrite (drop_S _ _ _ Hi). simpl. by rewrite <- app_assoc.
    + apply lookup_ge_None in Hi. rewrite drop_ge by done. by rewrite app_nil_r.
Qed.

Lemma pushAxes_series (num_axes : nat) (columns : list string) :
  pushAxes num_axes 0 columns ["series"%string]
  = "series"%string :: take (num_axes `min` length columns) columns.
Proof.
  rewrite pushAxes_take, drop_0. simpl. f_equal.
  destruct (decide (num_axes ≤ length columns)).
  - by rewrite Nat.min_l.
  - rewrite Nat.min_r by lia. rewrite !take_ge; [done | lia | lia].
Qed.

(** C6. Whenever [buildSeriesStatement] returns, it returns a
    SeriesStatement node over the plan of the nested select (child 1 of
    the statement), and the output columns of that node are "series"
    followed by the first min(num_axes, n) columns of the nested plan,
    in order, where num_axes is the number of entries the select list
    of the nested select has when the builder is entered and n is the
    number of columns of the nested plan.  With two nested columns this
    gives ["series"; c0; c1] for two axes and ["series"; c0] for one. *)
Theorem buildSeriesStatement_columns
    (plan : heap → addr → result (heap * Executable))
    (h : heap) (ast : addr) (h' : heap) (e : Executable) :
  buildSeriesStatement plan h ast = Ok (h', e) →
  ∃ (n sel csl : ASTNode) (select_ast child_sl : addr)
    (h1 : heap) (n1 : ASTNode) (nested : addr)
    (select : Executable) (name_expr : CompiledExpression),
    h !! ast = Some n ∧ children_ n !! 1 = Some select_ast ∧
    h !! select_ast = Some sel ∧ children_ sel !! 0 = Some child_sl ∧
    h !! child_sl = Some csl ∧
    h1 !! ast = Some n1 ∧ children_ n1 !! 1 = Some nested ∧
    plan h1 nested = Ok (h', select) ∧
    let num_axes := length (children_ csl) in
    let columns := getColumns select in
    e = SeriesStatement
          ("series"%string :: take (num_axes `min` length columns) columns)
          name_expr select ∧
    (∀ c0 c1, columns = [c0; c1] → num_axes = 2 →
       getColumns e = ["series"%string; c0; c1]) ∧
    (∀ c0 c1, columns = [c0; c1] → num_axes = 1 →
       getColumns e = ["series"%string; c0]).
Proof.
  unfold buildSeriesStatement. intros Hb.
  apply bind_Ok in Hb as (n & Hn & Hb). apply get_Ok in Hn.
  apply bind_Ok in Hb as (select_ast & Hsa & Hb). apply deref_Ok in Hsa.
  apply bind_Ok in Hb as (sel & Hsel & Hb). apply get_Ok in Hsel.
  apply bind_Ok in Hb as (? & _ & Hb).
  apply bind_Ok in Hb as (child_sl & Hcsl & Hb). apply deref_Ok in Hcsl.
  apply bind_Ok in Hb as (csl & Hc & Hb). apply get_Ok in Hc.
  apply bind_Ok in Hb as (? & _ & Hb).
  apply bind_Ok in Hb as (name0 & _ & Hb).
  apply bind_Ok in Hb as (nm & _ & Hb).
  apply bind_Ok in Hb as ([h1 name] & _ & Hb).
  apply bind_Ok in Hb as (n1 & Hn1 & Hb). apply get_Ok in Hn1.
  apply bind_Ok in Hb as (nested & Hnested & Hb). apply deref_Ok in Hnested.
  apply bind_Ok in Hb as ([h2 select] & Hplan & Hb).
  apply bind_Ok in Hb as ([name_expr len] & _ & Hb).
  apply bind_Ok in Hb as (? & _ & Hb).
  injection Hb as <- <-.
  exists n, sel, csl, select_ast, child_sl, h1, n1, nested, select, name_expr.
  rewrite pushAxes_series.
  repeat split; try done.
  - intros c0 c1 -> ->. reflexivity.
  - intros c0 c1 -> ->. reflexivity.
Qed.
End SeriesProperties.

(** ** The metric HTTP API *)

Section HTTPAPIProperties.
Context `{Library}.
Import http MetricRepository HTTPAPI.

Lemma substr_metricPath (key : string) :
  substr (metricPath key) (String.length kMetricsUrlPrefix) = Ok key.
Proof.
  unfold substr. case_decide as Hn; [done|].
  exfalso. apply Hn. simpl. lia.
Qed.

(** An accepted sample: the metric is looked up or created and the
    value is stored as its newest sample. *)
Lemma insertSample_created (now : Z) (repo : MetricRepository)
    (response : HTTPResponse) (key : string) (params : list (string * string))
    (s : string) (x : double) :
  3 ≤ String.length key → URI.getParam params "value" = Some s → stod s = Some x →
  ∃ repo',
    insertSample now repo response (URI.mk (metricPath key) params)
      = Ok (repo', setStatus response kStatusCreated) ∧
    metrics repo' !! key
      = Some (default [] (metrics repo !! key) ++ [{| time := now; value := x |}]) ∧
    (∀ k, k ≠ key → metrics repo' !! k = metrics repo !! k).
Proof.
  intros Hlen Hs Hx. unfold insertSample. cbn [URI.path URI.queryParams].
  rewrite substr_metricPath. cbn [mbind result_bind].
  case_decide; [lia|]. rewrite Hs, Hx.
  unfold findOrCreateMetric, addSample, log.
  destruct (metrics repo !! key) as [l|] eqn:Hk; cbn.
  - eexists. split; [done|]. split.
    + simpl. by rewrite lookup_alter_eq, Hk.
    + intros k Hne. simpl. by rewrite lookup_alter_ne.
  - eexists. split; [done|]. split.
    + simpl. by rewrite lookup_alter_eq, lookup_insert_eq.
    + intros k Hne. simpl. by rewrite lookup_alter_ne, lookup_insert_ne.
Qed.

(** C8, as amended.  [insertSample] on a request to /metrics/{key},
    with [std::stod] as the standard has it: a key shorter than 3
    characters is answered with 400; otherwise a missing value
    parameter, a value without a number at its start (after white
    space) and a value whose number is out of range are answered with
    400; in these cases the repository is left as it was and is not
    even called.  Otherwise, also when other text follows the number,
    the metric is looked up or created, the number read from the start
    of the value is stored as its newest sample, the other metrics keep
    their samples, and the answer is 201. *)
Theorem insertSample_status (convert : string → option double) (now : Z)
    (repo : MetricRepository) (response : HTTPResponse) (key : string)
    (params : list (string * string)) :
  standard_stod convert →
  let uri := URI.mk (metricPath key) params in
  (String.length key < 3 →
     ∃ response', insertSample now repo response uri = Ok (repo, response') ∧
                  status response' = Some 400%Z) ∧
  (3 ≤ String.length key →
     (URI.getParam params "value" = None ∨
      ∃ v, URI.getParam params "value" = Some v ∧
           (strtod.subject v = None ∨
            ∃ text, strtod.subject v = Some text ∧ convert text = None)) →
     ∃ response', insertSample now repo response uri = Ok (repo, response') ∧
                  status response' = Some 400%Z) ∧
  (3 ≤ String.length key →
     ∀ v text x,
       URI.getParam params "value" = Some v →
       strtod.subject v = Some text → convert text = Some x →
       ∃ repo' response',
         insertSample now repo response uri = Ok (repo', response') ∧
         status response' = Some 201%Z ∧
         metrics repo' !! key
           = Some (default [] (metrics repo !! key) ++ [{| time := now; value := x |}]) ∧
         (∀ k, k ≠ key → metrics repo' !! k = metrics repo !! k)).
Proof.
  intros Hstod uri. subst uri. repeat split.
  - intros Hlen. unfold insertSample. cbn [URI.path URI.queryParams].
    rewrite substr_metricPath. cbn [mbind result_bind].
    case_decide; [|done]. eauto.
  - intros Hlen Hval. unfold insertSample. cbn [URI.path URI.queryParams].
    rewrite substr_metricPath. cbn [mbind result_bind].
    case_decide; [lia|].
    destruct Hval as [-> | (v & -> & Hv)]; [eauto|].
    rewrite Hstod.
    destruct Hv as [-> | (text & -> & Hc)]; cbn [mbind option_bind]; [eauto|].
    rewrite Hc. eauto.
  - intros Hlen v text x Hv Htext Hx.
    destruct (insertSample_created now repo response key params v x Hlen Hv)
      as (repo' & Hrun & Hstored & Hothers).
    { rewrite Hstod, Htext. exact Hx. }
    by exists repo', (setStatus response kStatusCreated).
Qed.

(** C10. [renderMetricSampleScan] on a request to /metrics/{key} with a
    key shorter than 3 characters answers 400, not 404, whatever the
    repository holds, and returns before any call on the repository. *)
Theorem renderMetricSampleScan_short_key (now : Z) (repo : MetricRepository)
    (response : HTTPResponse) (key : string) (params : list (string * string)) :
  String.length key < 3 →
  ∃ response',
    renderMetricSampleScan now repo response (URI.mk (metricPath key) params)
      = Ok (repo, response') ∧
    status response' = Some http.kStatusBadRequest ∧
    status response' ≠ Some http.kStatusNotFound ∧
    http.kStatusBadRequest = 400%Z.
Proof.
  intros Hlen. unfold renderMetricSampleScan. cbn [URI.path].
  rewrite substr_metricPath. cbn [mbind result_bind].
  case_decide; [|done].
  eexists. split; [done|]. by repeat split.
Qed.

(** The two handlers above are where requests to /metrics/{key} go. *)
Lemma handleHTTPRequest_metric (now : Z) (repo : MetricRepository)
    (request : HTTPRequest) (response : HTTPResponse) :
  stripTrailingSlashes (URI.path (uri request)) ≠ kMetricsUrl →
  hasPrefix kMetricsUrlPrefix (stripTrailingSlashes (URI.path (uri request))) = true →
  (method request = M_POST →
     handleHTTPRequest now repo request response
     = '(repo', response') ← insertSample now repo response (uri request);
       Ok (true, repo', response')) ∧
  (method request = M_GET →
     handleHTTPRequest now repo request response
     = '(repo', response') ← renderMetricSampleScan now repo response (uri request);
       Ok (true, repo', response')).
Proof.
  intros Hne Hpre. unfold handleHTTPRequest.
  case_decide; [done|]. rewrite Hpre. by split; intros ->.
Qed.
End HTTPAPIProperties.

(** ** Which objects a run can change *)

Section Frame.
Context `{Collaborators}.
Import ASTNode QueryPlan.

Lemma keeps_refl (n : nat) (h : heap) : keeps n h h.
Proof. by split. Qed.

Lemma keeps_trans (n : nat) (h1 h2 h3 : heap) :
  keeps n h1 h2 → keeps n h2 h3 → keeps n h1 h3.
Proof.
  intros [Hl1 Hk1] [Hl2 Hk2]. split; [lia|].
  intros a Ha. by rewrite Hk2, Hk1.
Qed.

Lemma keeps_le (n m : nat) (h h' : heap) : n ≤ m → keeps m h h' → keeps n h h'.
Proof. intros Hnm [Hl Hk]. split; [done|]. intros a Ha. apply Hk. lia. Qed.

Lemma within_refl (n : nat) (h : heap) : region n h → within n h h.
Proof. intros. split; [apply keeps_refl | done]. Qed.

Lemma within_trans (n : nat) (h1 h2 h3 : heap) :
  within n h1 h2 → within n h2 h3 → within n h1 h3.
Proof. intros [Hk1 _] [Hk2 Hr]. split; [by eapply keeps_trans | done]. Qed.

(** A run that stays in a smaller region stays in a larger one. *)
Lemma within_le (n m : nat) (h h' : heap) :
  n ≤ m → m ≤ length h → region n h → within m h h' → within n h h'.
Proof.
  intros Hnm Hm [Hn Hr] [[Hl Hk] [Hm' Hr']].
  split; [apply (keeps_le n m); [done | by split]|].
  split; [lia|]. intros a c Ha Hc.
  destruct (decide (a < m)) as [Hlt|Hge].
  - rewrite Hk in Hc by done. by eapply Hr.
  - eapply Forall_impl; [eapply (Hr' a); [lia | done]|]. simpl. lia.
Qed.

Lemma within_alloc (n : nat) (h : heap) (c : ASTNode) :
  region n h → Forall (λ k, n ≤ k) (children_ c) → within n h (h ++ [c]).
Proof.
  intros [Hn Hr] Hc. split; [split|split].
  - rewrite length_app. lia.
  - intros a Ha. apply lookup_app_l. lia.
  - rewrite length_app. lia.
  - intros a c' Ha Hc'.
    destruct (decide (a < length h)) as [Hlt|Hge].
    + rewrite lookup_app_l in Hc' by done. by eapply Hr.
    + rewrite lookup_app_r in Hc' by lia.
      apply list_lookup_singleton_Some in Hc' as [_ <-]. done.
Qed.

Lemma within_insert (n : nat) (h : heap) (a : addr) (c : ASTNode) :
  region n h → n ≤ a → Forall (λ k, n ≤ k) (children_ c) →
  within n h (<[a := c]> h).
Proof.
  intros [Hn Hr] Ha Hc. split; [split|split].
  - by rewrite length_insert.
  - intros b Hb. apply list_lookup_insert_ne. lia.
  - by rewrite length_insert.
  - intros b c' Hb Hc'.
    destruct (decide (a = b)) as [->|Hne].
    + destruct (decide (b < length h)).
      * rewrite list_lookup_insert_eq in Hc' by done. by injection Hc' as <-.
      * rewrite list_insert_ge in Hc' by lia. by eapply Hr.
    + rewrite list_lookup_insert_ne in Hc' by done. by eapply Hr.
Qed.

Lemma region_lookup (n : nat) (h : heap) (a : addr) (c : ASTNode) :
  region n h → n ≤ a → h !! a = Some c → Forall (λ k, n ≤ k) (children_ c).
Proof. intros [_ Hr]. apply Hr. Qed.

Lemma within_update (n : nat) (h h' : heap) (a : addr) (f : ASTNode → ASTNode) :
  region n h → n ≤ a →
  (∀ c, Forall (λ k, n ≤ k) (children_ c) → Forall (λ k, n ≤ k) (children_ (f c))) →
  update h a f = Ok h' → within n h h'.
Proof.
  intros Hr Ha Hf Hu. unfold update in Hu.
  apply bind_Ok in Hu as (c & Hc & [= <-]). apply get_Ok in Hc.
  apply within_insert; [done..|]. apply Hf. by eapply region_lookup.
Qed.

Lemma within_setType (n : nat) (h h' : heap) (a : addr) (ty : kASTNodeType) :
  region n h → n ≤ a → setType h a ty = Ok h' → within n h h'.
Proof. intros ??. by apply within_update. Qed.

Lemma within_setID (n : nat) (h h' : heap) (a : addr) (i : Z) :
  region n h → n ≤ a → setID h a i = Ok h' → within n h h'.
Proof. intros ??. by apply within_update. Qed.

Lemma within_setToken (n : nat) (h h' : heap) (a : addr) (t : Token.Token) :
  region n h → n ≤ a → setToken h a t = Ok h' → within n h h'.
Proof. intros ??. by apply within_update. Qed.

Lemma within_appendChild (n : nat) (h h' : heap) (a c : addr) :
  region n h → n ≤ a → n ≤ c → appendChild h a c = Ok h' → within n h h'.
Proof.
  intros ???. apply within_update; [done..|].
  intros c' Hc'. simpl. apply Forall_app. split; [done|]. by apply Forall_singleton.
Qed.

Lemma within_appendChildAt (n : nat) (h h' : heap) (a c : addr) (i : nat) :
  region n h → n ≤ a → n ≤ c → appendChildAt h a c i = Ok h' → within n h h'.
Proof.
  intros Hr Ha Hc Hu. unfold appendChildAt in Hu.
  apply bind_Ok in Hu as (x & Hx & Hu). apply get_Ok in Hx.
  case_decide; [|done]. injection Hu as <-.
  apply within_insert; [done..|]. simpl.
  pose proof (region_lookup _ _ _ _ Hr Ha Hx) as Hall.
  apply Forall_app. split; [by apply Forall_take|].
  apply Forall_cons. split; [done | by apply Forall_drop].
Qed.

Lemma within_removeChild (n : nat) (h h' : heap) (a : addr) (i : nat) :
  region n h → n ≤ a → removeChild h a i = Ok h' → within n h h'.
Proof.
  intros Hr Ha Hu. unfold removeChild in Hu.
  apply bind_Ok in Hu as (x & Hx & Hu). apply get_Ok in Hx.
  case_decide; [|done]. injection Hu as <-.
  apply within_insert; [done..|]. simpl.
  by apply Forall_delete, (region_lookup _ _ _ _ Hr Ha Hx).
Qed.
End Frame.

Section FramePlanner.
Context `{Collaborators}.
Import ASTNode QueryPlan.

(** A clone only allocates: the objects it adds point to objects it
    added, and the root of the clone is one of them. *)
Lemma deepCopy_rec_within (fuel : nat) (h : heap) (a : addr) (h' : heap) (cp : addr) :
  deepCopy_rec fuel h a = Ok (h', cp) →
  within (length h) h h' ∧ length h ≤ cp < length h'.
Proof.
  revert h a h' cp. induction fuel as [|k IH]; intros h a h' cp Hc; [done|].
  simpl in Hc. apply bind_Ok in Hc as (c & _ & Hc).
  apply bind_Ok in Hc as ([h1 kids] & Hkids & [= <- <-]).
  assert (within (length h) h h1 ∧ Forall (λ x, length h ≤ x) kids) as [Hw Hall].
  { revert Hkids. generalize (children_ c). clear c. intros l. revert h h1 kids.
    induction l as [|x l IHl]; intros h h1 kids Hkids; simpl in Hkids.
    - injection Hkids as <- <-. split; [|done].
      apply within_refl. split; [done|]. intros a0 c0 Ha0 Hc0.
      apply lookup_lt_Some in Hc0. lia.
    - apply bind_Ok in Hkids as ([h2 y] & Hy & Hkids).
      apply bind_Ok in Hkids as ([h3 ys] & Hys & [= <- <-]).
      apply IH in Hy as [Hw2 Hy]. apply IHl in Hys as [Hw3 Hys].
      pose proof Hw2 as [[Hl2 _] Hr2].
      assert (within (length h) h2 h3) as Hw3'.
      { apply (within_le _ (length h2)); [lia | done | done | done]. }
      split; [by eapply within_trans|].
      apply Forall_cons. split; [lia|].
      eapply Forall_impl; [done|]. simpl. lia. }
  pose proof Hw as [[Hl _] Hr].
  split.
  - eapply within_trans; [done|]. by apply within_alloc.
  - rewrite length_app. simpl. lia.
Qed.

Lemma deepCopy_within (n : nat) (h : heap) (a : addr) (h' : heap) (cp : addr) :
  region n h → deepCopy h a = Ok (h', cp) → within n h h' ∧ n ≤ cp.
Proof.
  intros Hr Hc. apply deepCopy_rec_within in Hc as [Hw Hcp].
  split; [|destruct Hr; lia].
  apply (within_le _ (length h)); [by destruct Hr | done..].
Qed.

Lemma deepCopy_keeps (h : heap) (a : addr) (h' : heap) (cp : addr) :
  deepCopy h a = Ok (h', cp) → keeps (length h) h h' ∧ length h ≤ cp.
Proof. intros Hc. apply deepCopy_rec_within in Hc as [[Hk _] Hcp]. split; [done|lia]. Qed.

(** The push-down changes the node it is given, the nodes below it and
    the target select list, and allocates; nothing else. *)
Lemma buildInternalSelectList_rec_within (fuel n : nat) (h : heap)
    (node target : addr) (h' : heap) (b : bool) :
  region n h → n ≤ node → n ≤ target →
  buildInternalSelectList_rec fuel h node target = Ok (h', b) →
  within n h h'.
Proof.
  revert h node h' b. induction fuel as [|k IH]; intros h node h' b Hr Hn Ht Hb; [done|].
  simpl in Hb. apply bind_Ok in Hb as (c & Hc & Hb). apply get_Ok in Hc.
  destruct (decide (type_ c = T_COLUMN_NAME)) as [Hty|Hty].
  - apply bind_Ok in Hb as (tl & Htl & Hb).
    apply bind_Ok in Hb as ([h4 ci] & Hstep & Hb).
    apply bind_Ok in Hb as (h5 & H5 & Hb).
    apply bind_Ok in Hb as (h6 & H6 & [= <- <-]).
    assert (within n h h4) as Hw4.
    { destruct (_ <? _)%Z; [|injection Hstep as <- <-; by apply within_refl].
      unfold alloc in Hstep.
      apply bind_Ok in Hstep as ([h2 copy] & Hcopy & Hstep).
      apply bind_Ok in Hstep as (h3 & H3 & Hstep).
      apply bind_Ok in Hstep as (h4' & H4 & Hstep).
      apply bind_Ok in Hstep as (tl' & _ & [= <- <-]).
      assert (within n h (h ++ [newNode T_DERIVED_COLUMN])) as Hw1
        by by apply within_alloc.
      apply (deepCopy_within n) in Hcopy as [Hw2 Hcp]; [|apply Hw1].
      apply (within_appendChild n) in H3; [|apply Hw2|destruct Hr; lia|done].
      apply (within_appendChild n) in H4; [|apply H3|done|destruct Hr; lia].
      eauto using within_trans. }
    apply (within_setType n) in H5; [|apply Hw4|done].
    apply (within_setID n) in H6; [|apply H5|done].
    eauto using within_trans.
  - pose proof (region_lookup _ _ _ _ Hr Hn Hc) as Hkids.
    revert Hkids Hb. generalize (children_ c). clear Hc Hty. intros l.
    revert h h' b Hr.
    induction l as [|x l IHl]; intros h h' b Hr Hkids Hb; simpl in Hb.
    + injection Hb as <- <-. by apply within_refl.
    + apply Forall_cons in Hkids as [Hx Hl].
      apply bind_Ok in Hb as ([h1 ok] & Hv & Hb).
      apply IH in Hv; [|done..].
      destruct ok.
      * apply IHl in Hb; [|apply Hv|done]. by eapply within_trans.
      * by injection Hb as <- <-.
Qed.

Lemma buildInternalSelectList_within (n : nat) (h : heap)
    (node target : addr) (h' : heap) (b : bool) :
  region n h → n ≤ node → n ≤ target →
  buildInternalSelectList h node target = Ok (h', b) → within n h h'.
Proof. apply buildInternalSelectList_rec_within. Qed.
End FramePlanner.

Section FrameGroupBy.
Context `{Collaborators}.
Import ASTNode QueryPlan.

Lemma region_top (h : heap) : region (length h) h.
Proof. split; [done|]. intros a c Ha Hc. apply lookup_lt_Some in Hc. lia. Qed.

Lemma copyGroupExprs_within (n : nat) (h : heap) (group_exprs child_sl : addr)
    (l : list addr) (h' : heap) :
  region n h → n ≤ group_exprs → n ≤ child_sl →
  copyGroupExprs h group_exprs child_sl l = Ok h' → within n h h'.
Proof.
  intros Hr Hg Hc. revert h Hr. induction l as [|x l IH]; intros h Hr Hb; simpl in Hb.
  - injection Hb as <-. by apply within_refl.
  - apply bind_Ok in Hb as ([h1 e] & H1 & Hb).
    apply bind_Ok in Hb as ([h2 ?] & H2 & Hb).
    apply bind_Ok in Hb as (h3 & H3 & Hb).
    apply (deepCopy_within n) in H1 as [H1 He]; [|done].
    apply (buildInternalSelectList_within n) in H2; [|apply H1|done..].
    apply (within_appendChild n) in H3; [|apply H2|done..].
    apply IH in Hb; [|apply H3].
    eauto using within_trans.
Qed.

Lemma removeGroupBy_within (n : nat) (h : heap) (child_ast : addr) (h' : heap) :
  region n h → n ≤ child_ast → removeGroupBy h child_ast = Ok h' → within n h h'.
Proof.
  intros Hr Hc Hb. unfold removeGroupBy in Hb.
  apply bind_Ok in Hb as (c & _ & Hb).
  apply bind_Ok in Hb as (found & _ & Hb).
  destruct found as [i|].
  - by eapply within_removeChild.
  - injection Hb as <-. by apply within_refl.
Qed.

Lemma searchGroupBy_within (n : nat) (h : heap)
    (group_exprs child_sl child_ast : addr) (l : list addr) (h' : heap) :
  region n h → n ≤ group_exprs → n ≤ child_sl → n ≤ child_ast →
  searchGroupBy h group_exprs child_sl child_ast l = Ok h' → within n h h'.
Proof.
  intros Hr Hg Hc Ha. revert h Hr. induction l as [|x l IH]; intros h Hr Hb; simpl in Hb.
  - injection Hb as <-. by apply within_refl.
  - apply bind_Ok in Hb as (cn & _ & Hb).
    destruct (decide (type_ cn = T_GROUP_BY)); [|by apply IH].
    apply bind_Ok in Hb as (h1 & H1 & Hb).
    apply bind_Ok in Hb as (h2 & H2 & Hb).
    apply (copyGroupExprs_within n) in H1; [|done..].
    apply (removeGroupBy_within n) in H2; [|apply H1|done].
    apply IH in Hb; [|apply H2].
    eauto using within_trans.
Qed.

(** All rewriting of the GROUP BY builder happens on objects it
    allocated itself. *)
Lemma rewriteGroupBy_within (h : heap) (ast : addr) (h' : heap) (t : GroupByTrees) :
  rewriteGroupBy h ast = Ok (h', t) →
  within (length h) h h' ∧
  length h ≤ gb_select_list t ∧ length h ≤ gb_group_exprs t ∧
  length h ≤ gb_child_sl t ∧ length h ≤ gb_child_ast t.
Proof.
  unfold rewriteGroupBy, alloc. intros Hb. set (n := length h).
  apply bind_Ok in Hb as (c & _ & Hb).
  apply bind_Ok in Hb as (own_sl & _ & Hb).
  apply bind_Ok in Hb as (sl & _ & Hb).
  apply bind_Ok in Hb as (? & _ & Hb).
  apply bind_Ok in Hb as ([h1 select_list] & H1 & Hb).
  apply bind_Ok in Hb as ([h3 ?] & H3 & Hb).
  apply bind_Ok in Hb as ([h4 child_ast] & H4 & Hb).
  apply bind_Ok in Hb as (h5 & H5 & Hb).
  apply bind_Ok in Hb as (h6 & H6 & Hb).
  apply bind_Ok in Hb as (n6 & _ & Hb).
  apply bind_Ok in Hb as (h7 & H7 & [= <- <-]). simpl.
  assert (within n h (h ++ [newNode T_GROUP_BY])) as H0
    by (apply within_alloc; [apply region_top | done]).
  apply (deepCopy_within n) in H1 as [H1 Hs]; [|apply H0].
  assert (within n h1 (h1 ++ [newNode T_SELECT_LIST])) as H2
    by (apply within_alloc; [apply H1 | done]).
  assert (n ≤ length h1) as Hcsl by (destruct H1 as [_ []]; done).
  apply (buildInternalSelectList_within n) in H3; [|apply H2|done..].
  apply (deepCopy_within n) in H4 as [H4 Hca]; [|apply H3].
  apply (within_removeChild n) in H5; [|apply H4|done].
  apply (within_appendChildAt n) in H6; [|apply H5|done..].
  apply (searchGroupBy_within n) in H7; [|apply H6|done..].
  split; [eauto 10 using within_trans|]. done.
Qed.

Lemma buildGroupBy_within
    (plan : heap → addr → result (heap * Executable))
    (h : heap) (ast : addr) (h' : heap) (e : Executable) :
  (∀ n h a h' e, region n h → n ≤ a → plan h a = Ok (h', e) → within n h h') →
  buildGroupBy plan h ast = Ok (h', e) → within (length h) h h'.
Proof.
  intros Hplan Hb. unfold buildGroupBy in Hb.
  apply bind_Ok in Hb as ([h7 t] & Hrw & Hb).
  apply bind_Ok in Hb as ([? ?] & _ & Hb).
  apply bind_Ok in Hb as ([? ?] & _ & Hb).
  apply bind_Ok in Hb as (? & _ & Hb).
  apply bind_Ok in Hb as (sl & _ & Hb).
  apply bind_Ok in Hb as ([h8 child_plan] & Hchild & [= <- <-]).
  apply rewriteGroupBy_within in Hrw as (Hw & _ & _ & _ & Hca).
  apply Hplan with (n := length h) in Hchild; [|apply Hw|done].
  by eapply within_trans.
Qed.

Lemma buildSeriesStatement_within
    (plan : heap → addr → result (heap * Executable))
    (n : nat) (h : heap) (ast : addr) (h' : heap) (e : Executable) :
  (∀ n h a h' e, region n h → n ≤ a → plan h a = Ok (h', e) → within n h h') →
  region n h → n ≤ ast →
  buildSeriesStatement plan h ast = Ok (h', e) → within n h h'.
Proof.
  intros Hplan Hr Ha Hb. unfold buildSeriesStatement in Hb.
  apply bind_Ok in Hb as (c & Hc & Hb). apply get_Ok in Hc.
  apply bind_Ok in Hb as (select_ast & Hsa & Hb). apply deref_Ok in Hsa.
  apply bind_Ok in Hb as (sel & Hsel & Hb). apply get_Ok in Hsel.
  apply bind_Ok in Hb as (? & _ & Hb).
  apply bind_Ok in Hb as (child_sl & Hcsl & Hb). apply deref_Ok in Hcsl.
  apply bind_Ok in Hb as (csl & _ & Hb).
  apply bind_Ok in Hb as (? & _ & Hb).
  apply bind_Ok in Hb as (name0 & _ & Hb).
  apply bind_Ok in Hb as (nm & _ & Hb).
  apply bind_Ok in Hb as ([h1 name] & Hname & Hb).
  apply bind_Ok in Hb as (n1 & Hn1 & Hb). apply get_Ok in Hn1.
  apply bind_Ok in Hb as (nested & Hnested & Hb). apply deref_Ok in Hnested.
  apply bind_Ok in Hb as ([h2 select] & Hsel2 & Hb).
  apply bind_Ok in Hb as ([? ?] & _ & Hb).
  apply bind_Ok in Hb as (? & _ & [= <- <-]).
  assert (n ≤ select_ast) as Hsa'.
  { pose proof (region_lookup _ _ _ _ Hr Ha Hc) as Hall.
    rewrite Forall_lookup in Hall. by eapply Hall. }
  assert (n ≤ child_sl) as Hcsl'.
  { pose proof (region_lookup _ _ _ _ Hr Hsa' Hsel) as Hall.
    rewrite Forall_lookup in Hall. by eapply Hall. }
  assert (within n h h1) as Hw1.
  { destruct (decide (type_ nm = T_SERIES_NAME)).
    - apply bind_Ok in Hname as (token & _ & Hname). unfold alloc in Hname.
      apply bind_Ok in Hname as (h'' & Htok & [= <- <-]).
      assert (within n h (h ++ [newNode T_LITERAL])) as H0 by by apply within_alloc.
      apply (within_setToken n) in Htok; [|apply H0|destruct Hr; lia].
      by eapply within_trans.
    - apply bind_Ok in Hname as ([h0 cp] & Hcp & Hname).
      apply bind_Ok in Hname as ([h'' ?] & Hpd & [= <- <-]).
      apply (deepCopy_within n) in Hcp as [Hcp Hle]; [|done].
      apply (buildInternalSelectList_within n) in Hpd; [|apply Hcp|done..].
      by eapply within_trans. }
  assert (n ≤ nested) as Hnested'.
  { pose proof Hw1 as [_ Hr1].
    pose proof (region_lookup _ _ _ _ Hr1 Ha Hn1) as Hall.
    rewrite Forall_lookup in Hall. by eapply Hall. }
  apply (Hplan n) in Hsel2; [|apply Hw1|done].
  by eapply within_trans.
Qed.

Lemma LimitClause_build_within
    (plan : heap → addr → result (heap * Executable))
    (n : nat) (h : heap) (ast : addr) (h' : heap) (e : Executable) :
  (∀ n h a h' e, region n h → n ≤ a → plan h a = Ok (h', e) → within n h h') →
  region n h →
  LimitClause_build plan h ast = Ok (Some (h', e)) → within n h h'.
Proof.
  intros Hplan Hr Hb. unfold LimitClause_build in Hb.
  apply bind_Ok in Hb as (c & _ & Hb).
  apply bind_Ok in Hb as (found & _ & Hb).
  destruct found as [i|]; [|done].
  apply bind_Ok in Hb as (clause & _ & Hb).
  apply bind_Ok in Hb as (cl & _ & Hb).
  apply bind_Ok in Hb as (offset & _ & Hb).
  apply bind_Ok in Hb as ([h1 new_ast] & H1 & Hb).
  apply bind_Ok in Hb as (h2 & H2 & Hb).
  apply bind_Ok in Hb as ([h3 inner] & H3 & [= <- <-]).
  apply (deepCopy_within n) in H1 as [H1 Hle]; [|done].
  apply (within_removeChild n) in H2; [|apply H1|done].
  apply (Hplan n) in H3; [|apply H2|done].
  eauto using within_trans.
Qed.

(** Planning a statement changes objects of the statement and objects
    the planner allocated, and no others. *)
Lemma buildQueryPlan_within (fuel : nat) (repo : TableRepository) :
  ∀ n h a h' e, region n h → n ≤ a →
    buildQueryPlan fuel repo h a = Ok (h', e) → within n h h'.
Proof.
  induction fuel as [|k IH]; intros n h a h' e Hr Ha Hb; [done|].
  simpl in Hb. apply bind_Ok in Hb as (c & _ & Hb).
  destruct (decide (type_ c = T_SERIES)).
  { by eapply buildSeriesStatement_within. }
  destruct (decide (type_ c = T_DRAW)).
  { apply bind_Ok in Hb as (? & _ & [= <- <-]). by apply within_refl. }
  apply bind_Ok in Hb as (limit & Hl & Hb).
  destruct limit as [[h1 e1]|].
  { injection Hb as <- <-. by eapply LimitClause_build_within. }
  apply bind_Ok in Hb as (g & _ & Hb).
  apply bind_Ok in Hb as (aggr & _ & Hb).
  destruct aggr.
  { apply buildGroupBy_within in Hb; [|done].
    apply (within_le _ (length h)); [by destruct Hr | done..]. }
  destruct (TableScan_build h a repo).
  { injection Hb as <- <-. by apply within_refl. }
  destruct (TablelessSelect_build h a); [|done].
  injection Hb as <- <-. by apply within_refl.
Qed.
End FrameGroupBy.

Section OriginalUntouched.
Context `{Collaborators}.
Import ASTNode QueryPlan.

Lemma keeps_lookup (h h' : heap) (a : addr) (c : ASTNode) :
  keeps (length h) h h' → h !! a = Some c → h' !! a = Some c.
Proof.
  intros [_ Hk] Hc. rewrite Hk; [done|]. by eapply lookup_lt_Some.
Qed.

(** A subtree that can be read from the store reads the same after a
    run that kept the objects of the store. *)
Lemma readAST_rec_keeps (k : nat) (h : heap) (a : addr) (t : tree) :
  readAST_rec k h a = Ok t →
  ∀ k' h', k ≤ k' → keeps (length h) h h' → readAST_rec k' h' a = Ok t.
Proof.
  revert a t. induction k as [|k IH]; intros a t Hr k' h' Hk Hkeep; [done|].
  destruct k' as [|k']; [lia|]. simpl in Hr |- *.
  apply bind_Ok in Hr as (c & Hc & Hr). apply get_Ok in Hc.
  apply bind_Ok in Hr as (kids & Hkids & [= <-]).
  unfold get. rewrite (keeps_lookup _ _ _ _ Hkeep Hc). simpl.
  assert (readAll (readAST_rec k' h') (children_ c) = Ok kids) as ->; [|done].
  revert kids Hkids. induction (children_ c) as [|x l IHl]; intros kids Hkids;
    simpl in Hkids |- *; [done|].
  apply bind_Ok in Hkids as (tx & Hx & Hkids).
  apply bind_Ok in Hkids as (ts & Hts & [= <-]).
  rewrite (IH _ _ Hx k' h') by (done || lia). simpl.
  by rewrite (IHl _ Hts).
Qed.

Lemma readAST_keeps (h h' : heap) (a : addr) (t : tree) :
  keeps (length h) h h' → readAST h a = Ok t → readAST h' a = Ok t.
Proof.
  intros Hk Hr. unfold readAST in *.
  eapply readAST_rec_keeps; [done | destruct Hk; lia | done].
Qed.

(** C4. [buildGroupBy] leaves the statement it is given as it was:
    every object of the store before the call is unchanged after it
    (the builder rewrites only objects it allocated), so the statement
    node still has the same select list as child 0, and that select
    list reads back as the same tree, node for node and token for
    token. *)
Theorem buildGroupBy_original_untouched (fuel : nat) (repo : TableRepository)
    (h : heap) (ast : addr) (h' : heap) (e : Executable) :
  buildGroupBy (buildQueryPlan fuel repo) h ast = Ok (h', e) →
  (∀ a c, h !! a = Some c → h' !! a = Some c) ∧
  ∃ n select_list,
    h !! ast = Some n ∧ children_ n !! 0 = Some select_list ∧
    h' !! ast = Some n ∧
    ∀ t, readAST h select_list = Ok t → readAST h' select_list = Ok t.
Proof.
  intros Hb.
  assert (keeps (length h) h h') as Hk.
  { eapply buildGroupBy_within; [|done]. apply buildQueryPlan_within. }
  split; [intros a c; by apply keeps_lookup|].
  unfold buildGroupBy in Hb. apply bind_Ok in Hb as ([h7 t7] & Hrw & _).
  unfold rewriteGroupBy, alloc in Hrw.
  apply bind_Ok in Hrw as (n & Hn & Hrw). apply get_Ok in Hn.
  apply bind_Ok in Hrw as (sl & Hsl & _). apply deref_Ok in Hsl.
  assert (h !! ast = Some n) as Hn'.
  { destruct (decide (ast < length h)) as [|Hge]; [by rewrite lookup_app_l in Hn|].
    rewrite lookup_app_r in Hn by lia.
    apply list_lookup_singleton_Some in Hn as [_ <-]. done. }
  exists n, sl. repeat split; [done | done | by eapply keeps_lookup |].
  intros t. by apply readAST_keeps.
Qed.
End OriginalUntouched.

(** ** Trees of objects *)

Section TreeFacts.
Import ASTNode.

Lemma atree_nested_ind (P : atree → Prop) :
  (∀ a ty tok id kids, Forall P kids → P (ANode a ty tok id kids)) →
  ∀ t, P t.
Proof.
  intros step. fix rec 1. intros [a ty tok id kids]. apply step.
  induction kids as [|k kids IH]; constructor; [apply rec | apply IH].
Qed.

Lemma tree_nested_ind (P : tree → Prop) :
  (∀ ty tok id kids, Forall P kids → P (Node ty tok id kids)) →
  ∀ t, P t.
Proof.
  intros step. fix rec 1. intros [ty tok id kids]. apply step.
  induction kids as [|k kids IH]; constructor; [apply rec | apply IH].
Qed.

Lemma addrs_node a ty tok id kids :
  addrs (ANode a ty tok id kids) = a :: (kids ≫= addrs).
Proof.
  unfold addrs. cbn [subtrees]. rewrite fmap_cons. f_equal.
  induction kids as [|k kids IH]; [done|].
  by rewrite !bind_cons, fmap_app, IH.
Qed.

Lemma subtrees_self (t : atree) : t ∈ subtrees t.
Proof. destruct t. simpl. apply list_elem_of_here. Qed.

Lemma root_in_addrs (t : atree) : root t ∈ addrs t.
Proof. destruct t. rewrite addrs_node. apply list_elem_of_here. Qed.

Lemma subtrees_kid (t k s : atree) :
  k ∈ akids t → s ∈ subtrees k → s ∈ subtrees t.
Proof.
  destruct t as [a ty tok id kids]. simpl. intros Hk Hs.
  apply list_elem_of_further. apply list_elem_of_bind. eauto.
Qed.

Lemma models_root (h : heap) (t : atree) : models h t → h !! root t = Some (cell t).
Proof. intros Hm. apply Hm, subtrees_self. Qed.

Lemma models_kids (h : heap) (t : atree) : models h t → Forall (models h) (akids t).
Proof.
  intros Hm. apply Forall_forall. intros k Hk s Hs.
  apply Hm. by eapply subtrees_kid.
Qed.

Lemma models_node (h : heap) (t : atree) :
  h !! root t = Some (cell t) → Forall (models h) (akids t) → models h t.
Proof.
  destruct t as [a ty tok id kids]. intros Hc Hk s Hs. simpl in Hs.
  apply elem_of_cons in Hs as [->|Hs]; [done|].
  apply list_elem_of_bind in Hs as (k & Hs & Hin).
  rewrite Forall_forall in Hk. by apply (Hk k).
Qed.

Lemma addrs_subtree (t s : atree) (a : addr) :
  s ∈ subtrees t → root s ∈ addrs t.
Proof. intros Hs. unfold addrs. by apply list_elem_of_fmap_2. Qed.

(** The store outside the tree does not matter. *)
Lemma models_frame (h h' : heap) (t : atree) :
  models h t → (∀ a, a ∈ addrs t → h' !! a = h !! a) → models h' t.
Proof.
  intros Hm Hsame s Hs. rewrite Hsame; [by apply Hm|].
  by apply (addrs_subtree t s (root s)).
Qed.

Lemma models_lt (h : heap) (t : atree) :
  models h t → Forall (λ a, a < length h) (addrs t).
Proof.
  intros Hm. apply Forall_forall. intros a Ha.
  apply list_elem_of_fmap in Ha as (s & -> & Hs).
  eapply lookup_lt_Some. by apply Hm.
Qed.

Lemma models_keeps (h h' : heap) (t : atree) :
  models h t → keeps (length h) h h' → models h' t.
Proof.
  intros Hm [_ Hk]. apply (models_frame h); [done|].
  intros a Ha. apply Hk.
  pose proof (models_lt h t Hm) as Hlt. rewrite Forall_forall in Hlt. by apply Hlt.
Qed.

Lemma Forall_models_frame (h h' : heap) (ts : list atree) :
  Forall (models h) ts → (∀ a, a ∈ ts ≫= addrs → h' !! a = h !! a) →
  Forall (models h') ts.
Proof.
  intros Hm Hsame. apply Forall_forall. intros t Ht.
  rewrite Forall_forall in Hm. apply (models_frame h); [by apply Hm|].
  intros a Ha. apply Hsame. apply list_elem_of_bind. eauto.
Qed.

Lemma Forall_models_lt (h : heap) (ts : list atree) :
  Forall (models h) ts → Forall (λ a, a < length h) (ts ≫= addrs).
Proof.
  intros Hm. apply Forall_forall. intros a Ha.
  apply list_elem_of_bind in Ha as (t & Ha & Ht).
  rewrite Forall_forall in Hm.
  pose proof (models_lt h t (Hm t Ht)) as Hlt.
  rewrite Forall_forall in Hlt. by apply Hlt.
Qed.
End TreeFacts.

Section ReadBack.
Import ASTNode.

Lemma depth_node ty tok id kids k :
  depth (Node ty tok id kids) ≤ S k ↔ Forall (λ t, depth t ≤ k) kids.
Proof.
  simpl. induction kids as [|x kids IH]; simpl.
  - split; [done | lia].
  - rewrite Forall_cons, <- IH. lia.
Qed.

Lemma depth_le_addrs (t : atree) : depth (erase t) ≤ length (addrs t).
Proof.
  induction t as [a ty tok id kids IH] using atree_nested_ind.
  rewrite addrs_node. cbn [erase length]. apply depth_node.
  induction IH as [|k kids Hk _ IHkids]; [done|].
  rewrite fmap_cons, bind_cons, length_app. constructor; [lia|].
  eapply Forall_impl; [done|]. simpl. lia.
Qed.

Lemma NoDup_lt_length (l : list nat) (n : nat) :
  NoDup l → Forall (λ a, a < n) l → length l ≤ n.
Proof.
  intros Hnd Hlt. rewrite <- (length_seq n 0). apply submseteq_length.
  apply NoDup_submseteq; [done|]. intros a Ha.
  rewrite Forall_forall in Hlt. apply elem_of_seq. specialize (Hlt a Ha). lia.
Qed.

(** A tree of distinct objects of the store is no deeper than the
    store is long. *)
Lemma depth_le_store (h : heap) (t : atree) :
  models h t → NoDup (addrs t) → depth (erase t) ≤ length h.
Proof.
  intros Hm Hnd. etrans; [apply depth_le_addrs|].
  apply NoDup_lt_length; [done | by apply models_lt].
Qed.

Lemma readAll_Forall2 (read : addr → result tree) (l : list addr) (ts : list tree) :
  Forall2 (λ a t, read a = Ok t) l ts → readAll read l = Ok ts.
Proof. induction 1 as [|a t l ts Ha _ IH]; simpl; [done|]. by rewrite Ha, IH. Qed.

Lemma readAll_Ok (read : addr → result tree) (l : list addr) (ts : list tree) :
  readAll read l = Ok ts → Forall2 (λ a t, read a = Ok t) l ts.
Proof.
  revert ts. induction l as [|a l IH]; intros ts Hr; simpl in Hr.
  - injection Hr as <-. constructor.
  - apply bind_Ok in Hr as (t & Ht & Hr).
    apply bind_Ok in Hr as (ts' & Hts & [= <-]). constructor; auto.
Qed.

(** Reading a tree of objects back gives the tree. *)
Lemma readAST_rec_models (h : heap) (t : atree) (k : nat) :
  models h t → depth (erase t) ≤ k → readAST_rec k h (root t) = Ok (erase t).
Proof.
  revert k. induction t as [a ty tok id kids IH] using atree_nested_ind.
  intros k Hm Hd. destruct k as [|k]; [simpl in Hd; lia|].
  cbn [erase] in Hd. apply depth_node in Hd.
  pose proof (models_root _ _ Hm) as Hc. apply models_kids in Hm.
  cbn [root cell akids] in *. cbn [readAST_rec]. unfold get. rewrite Hc. simpl.
  rewrite (readAll_Forall2 _ _ (erase <$> kids)); [done|].
  clear Hc. induction IH as [|x kids Hx _ IHkids]; [constructor|].
  apply Forall_cons in Hm as [Hmx Hm]. rewrite fmap_cons in Hd.
  apply Forall_cons in Hd as [Hdx Hd]. constructor; auto.
Qed.

Lemma readAST_models (h : heap) (t : atree) :
  models h t → NoDup (addrs t) → readAST h (root t) = Ok (erase t).
Proof.
  intros Hm Hnd. apply readAST_rec_models; [done|].
  pose proof (depth_le_store h t Hm Hnd). lia.
Qed.

(** Whatever can be read at the root of a tree of objects is the tree. *)
Lemma readAST_rec_models_inv (h : heap) (t : atree) (k : nat) (x : tree) :
  models h t → readAST_rec k h (root t) = Ok x → x = erase t.
Proof.
  revert k x. induction t as [a ty tok id kids IH] using atree_nested_ind.
  intros k x Hm Hr. destruct k as [|k]; [done|].
  pose proof (models_root _ _ Hm) as Hc. apply models_kids in Hm.
  cbn [root cell akids] in *. cbn [readAST_rec] in Hr. unfold get in Hr.
  rewrite Hc in Hr. simpl in Hr.
  apply bind_Ok in Hr as (ts & Hts & [= <-]). cbn [erase]. f_equal.
  apply readAll_Ok in Hts. clear Hc. revert ts Hts.
  induction IH as [|y kids Hy _ IHkids]; intros ts Hts.
  - by apply Forall2_nil_inv_l in Hts as ->.
  - rewrite fmap_cons in Hts.
    apply Forall2_cons_inv_l in Hts as (ty' & ts' & Hy' & Hts & ->).
    apply Forall_cons in Hm as [Hmy Hm].
    rewrite fmap_cons. f_equal; [by eapply Hy | by apply IHkids].
Qed.
End ReadBack.

(** ** deepCopy *)

Section Clone.
Import ASTNode.

Lemma keeps_app (h ext : heap) : keeps (length h) h (h ++ ext).
Proof.
  split; [rewrite length_app; lia|]. intros a Ha. by apply lookup_app_l.
Qed.

Lemma keeps_chain (h1 h2 h3 : heap) :
  keeps (length h1) h1 h2 → keeps (length h2) h2 h3 → keeps (length h1) h1 h3.
Proof.
  intros H12 H23. eapply keeps_trans; [done|].
  eapply keeps_le; [|done]. by destruct H12.
Qed.

Lemma allocated_nil (lo hi : nat) : allocated lo hi [].
Proof. split; [apply NoDup_nil_2 | done]. Qed.

Lemma allocated_le (lo lo' hi hi' : nat) (ts : list atree) :
  lo' ≤ lo → hi ≤ hi' → allocated lo hi ts → allocated lo' hi' ts.
Proof.
  intros Hlo Hhi [Hnd Hr]. split; [done|].
  eapply Forall_impl; [done|]. simpl. lia.
Qed.

Lemma allocated_app (lo mid hi : nat) (ts1 ts2 : list atree) :
  lo ≤ mid → mid ≤ hi →
  allocated lo mid ts1 → allocated mid hi ts2 → allocated lo hi (ts1 ++ ts2).
Proof.
  intros Hlo Hhi [Hnd1 Hr1] [Hnd2 Hr2]. unfold allocated, separate.
  rewrite bind_app. split.
  - apply NoDup_app. split; [done|]. split; [|done].
    intros a Ha1 Ha2. rewrite Forall_forall in Hr1, Hr2.
    specialize (Hr1 a Ha1). specialize (Hr2 a Ha2). lia.
  - apply Forall_app. split; (eapply Forall_impl; [done|]); simpl; lia.
Qed.

Lemma allocated_node (lo hi : nat) a ty tok id (kids : list atree) :
  lo ≤ hi → allocated lo hi kids → a = hi →
  allocated lo (S hi) [ANode a ty tok id kids].
Proof.
  intros Hlo [Hnd Hr] ->. unfold allocated, separate.
  rewrite bind_singleton, addrs_node. split.
  - apply NoDup_cons. split; [|done]. intros Hin.
    rewrite Forall_forall in Hr. specialize (Hr hi Hin). lia.
  - constructor; [lia|]. eapply Forall_impl; [done|]. simpl. lia.
Qed.

Lemma allocated_singleton (lo hi : nat) (t : atree) :
  allocated lo hi [t] ↔ NoDup (addrs t) ∧ Forall (λ a, lo ≤ a < hi) (addrs t).
Proof. unfold allocated, separate. by rewrite bind_singleton. Qed.

(** Cloning a subtree that can be read from the store allocates a tree
    of new objects which reads as the clone of the subtree; the old
    objects stay as they are. *)
Lemma deepCopy_rec_clone (k : nat) (h : heap) (a : addr) (t : tree) :
  readAST_rec k h a = Ok t →
  ∀ k', k ≤ k' →
  ∃ h' t', deepCopy_rec k' h a = Ok (h', root t') ∧
           keeps (length h) h h' ∧ models h' t' ∧ erase t' = clone t ∧
           allocated (length h) (length h') [t'].
Proof.
  revert h a t. induction k as [|k IH]; intros h a t Hr k' Hk; [done|].
  destruct k' as [|k']; [lia|]. simpl in Hr.
  apply bind_Ok in Hr as (c & Hc & Hr).
  apply bind_Ok in Hr as (ts & Hts & [= <-]). apply readAll_Ok in Hts.
  assert (∃ h1 ts', each (deepCopy_rec k') h (children_ c) = Ok (h1, root <$> ts') ∧
                    keeps (length h) h h1 ∧ Forall (models h1) ts' ∧
                    erase <$> ts' = clone <$> ts ∧
                    allocated (length h) (length h1) ts')
    as (h1 & ts' & Heach & Hk1 & Hm1 & He1 & Ha1).
  { clear Hc. revert h Hts. generalize (children_ c). intros l h Hts.
    revert h Hts. revert ts. induction l as [|x l IHl]; intros ts h Hts.
    - apply Forall2_nil_inv_l in Hts as ->. exists h, []. simpl.
      split; [done|]. split; [apply keeps_refl|]. split; [done|]. split; [done|].
      apply allocated_nil.
    - apply Forall2_cons_inv_l in Hts as (tx & ts0 & Hx & Hts & ->).
      destruct (IH _ _ _ Hx k') as (h2 & tx' & Hcx & Hk2 & Hm2 & He2 & Ha2); [lia|].
      assert (Forall2 (λ a t, readAST_rec k h2 a = Ok t) l ts0) as Hts2.
      { eapply Forall2_impl; [done|]. intros a0 t0 H0. simpl in *.
        by eapply readAST_rec_keeps. }
      destruct (IHl _ _ Hts2) as (h3 & ts' & Hcs & Hk3 & Hm3 & He3 & Ha3).
      exists h3, (tx' :: ts'). rewrite !fmap_cons. cbn [each].
      rewrite Hcx. cbn [mbind result_bind]. rewrite Hcs. cbn [mbind result_bind].
      split; [done|]. split; [by eapply keeps_chain|].
      split; [constructor; [by eapply models_keeps | done]|].
      split; [by rewrite He2, He3|].
      destruct Hk2, Hk3.
      by apply (allocated_app _ (length h2) _ [tx'] ts'). }
  exists (h1 ++ [{| type_ := type_ c; token_ := token_ c; id_ := None;
                    children_ := root <$> ts' |}]),
         (ANode (length h1) (type_ c) (token_ c) None ts').
  simpl. rewrite Hc. simpl. rewrite Heach. simpl.
  split; [done|]. split; [eapply keeps_chain; [done | apply keeps_app]|].
  split; [|split].
  - apply models_node; simpl.
    + rewrite lookup_app_r by done. by rewrite Nat.sub_diag.
    + eapply Forall_impl; [done|]. intros t0 Ht0. simpl in *.
      eapply models_keeps; [done | apply keeps_app].
  - by rewrite He1.
  - rewrite length_app. simpl. rewrite Nat.add_1_r.
    destruct Hk1. by apply allocated_node.
Qed.

Lemma deepCopy_clone (h : heap) (a : addr) (t : tree) :
  readAST h a = Ok t →
  ∃ h' t', deepCopy h a = Ok (h', root t') ∧
           keeps (length h) h h' ∧ models h' t' ∧ erase t' = clone t ∧
           allocated (length h) (length h') [t'].
Proof. intros Hr. by eapply deepCopy_rec_clone. Qed.

(** The same for a subtree read in an earlier state of the store. *)
Lemma deepCopy_clone_later (h0 h : heap) (a : addr) (t : tree) :
  readAST h0 a = Ok t → keeps (length h0) h0 h →
  ∃ h' t', deepCopy h a = Ok (h', root t') ∧
           keeps (length h) h h' ∧ models h' t' ∧ erase t' = clone t ∧
           allocated (length h) (length h') [t'].
Proof. intros Hr Hk. apply deepCopy_clone. by eapply readAST_keeps. Qed.
End Clone.

(** ** buildInternalSelectList on a column reference *)

Section ColumnStep.
Context `{Collaborators}.
Import ASTNode QueryPlan.

Lemma searchCandidates_noop (candidates : list addr) (col_index : Z) :
  searchCandidates candidates col_index = col_index.
Proof.
  unfold searchCandidates. revert col_index.
  induction candidates as [|c l IH]; intros ci; simpl; [done | apply IH].
Qed.

Lemma update_Ok (h : heap) (a : addr) (f : ASTNode → ASTNode) (c : ASTNode) :
  h !! a = Some c → update h a f = Ok (<[a := f c]> h).
Proof. intros Hc. unfold update, get. by rewrite Hc. Qed.

(** The step [buildInternalSelectList] takes on a COLUMN_NAME node. The
    new DERIVED_COLUMN object is the one allocated first, at the end of
    the store as it was; [copy] is the clone of the node below it. *)
Lemma column_step (k : nat) (h : heap) (node target : addr) (n tl : ASTNode) (t : tree) :
  h !! node = Some n → type_ n = T_COLUMN_NAME →
  h !! target = Some tl → readAST h node = Ok t →
  ∃ (h' : heap) (copy : atree) (n' tl' : ASTNode),
    buildInternalSelectList_rec (S k) h node target = Ok (h', true) ∧
    length h < length h' ∧
    models h' copy ∧ erase copy = clone t ∧
    allocated (S (length h)) (length h') [copy] ∧
    h' !! length h = Some (setChildren (newNode T_DERIVED_COLUMN) [root copy]) ∧
    h' !! target = Some tl' ∧ children_ tl' = children_ tl ++ [length h] ∧
    h' !! node = Some n' ∧ type_ n' = T_RESOLVED_COLUMN ∧
    id_ n' = Some (Z.of_nat (length (children_ tl))) ∧ token_ n' = token_ n ∧
    (node ≠ target →
       children_ n' = children_ n ∧
       tl' = setChildren tl (children_ tl ++ [length h])) ∧
    (∀ a, a < length h → a ≠ node → a ≠ target → h' !! a = h !! a).
Proof.
  intros Hn Hty Htl Hread.
  pose proof (lookup_lt_Some _ _ _ Hn) as Hnlt.
  pose proof (lookup_lt_Some _ _ _ Htl) as Htlt.
  set (h1 := h ++ [newNode T_DERIVED_COLUMN]).
  destruct (deepCopy_clone_later h h1 node t Hread (keeps_app _ _))
    as (h2 & copy & Hcopy & [Hl2 Hk2] & Hm2 & He2 & Ha2).
  assert (length h1 = S (length h)) as Hl1
    by (unfold h1; rewrite length_app; simpl; lia).
  assert (∀ a, a < length h → h2 !! a = h !! a) as Hold.
  { intros a Ha. rewrite Hk2 by lia. unfold h1. by rewrite lookup_app_l. }
  assert (h2 !! length h = Some (newNode T_DERIVED_COLUMN)) as Hd2.
  { rewrite Hk2 by lia. unfold h1. rewrite lookup_app_r by done.
    by rewrite Nat.sub_diag. }
  set (h3 := <[length h := setChildren (newNode T_DERIVED_COLUMN) [root copy]]> h2).
  set (tl0 := setChildren tl (children_ tl ++ [length h])).
  set (h4 := <[target := tl0]> h3).
  assert (h3 !! target = Some tl) as Ht3.
  { unfold h3. rewrite list_lookup_insert_ne by lia. by rewrite Hold. }
  assert (h4 !! target = Some tl0) as Ht4.
  { unfold h4. apply list_lookup_insert_eq. unfold h3. rewrite length_insert. lia. }
  assert (∃ c4, h4 !! node = Some c4 ∧ token_ c4 = token_ n ∧
                (node ≠ target → c4 = n) ∧ (node = target → c4 = tl0))
    as (c4 & Hc4 & Htok4 & Hne4 & Heq4).
  { destruct (decide (node = target)) as [->|Hne].
    - exists tl0. split; [done|]. split; [|done].
      rewrite Hn in Htl. by injection Htl as <-.
    - exists n. split; [|done]. unfold h4, h3.
      rewrite !list_lookup_insert_ne by lia. by rewrite Hold. }
  set (c5 := {| type_ := T_RESOLVED_COLUMN; token_ := token_ c4; id_ := id_ c4;
                children_ := children_ c4 |}).
  set (ci := (Z.of_nat (length (children_ tl0)) - 1)%Z).
  set (c6 := {| type_ := type_ c5; token_ := token_ c5; id_ := Some ci;
                children_ := children_ c5 |}).
  set (h5 := <[node := c5]> h4).
  set (h6 := <[node := c6]> h5).
  assert (length h6 = length h2) as Hl6.
  { unfold h6, h5, h4, h3. by rewrite !length_insert. }
  assert (ci = Z.of_nat (length (children_ tl))) as Hci.
  { unfold ci, tl0. simpl. rewrite length_app. simpl. lia. }
  assert (h6 !! node = Some c6) as Hn6.
  { unfold h6. apply list_lookup_insert_eq. unfold h5, h4, h3.
    rewrite !length_insert. lia. }
  assert (∀ a, a ≠ node → h6 !! a = h4 !! a) as H64.
  { intros a Ha. unfold h6, h5. by rewrite !list_lookup_insert_ne. }
  exists h6, copy, c6, (if decide (node = target) then c6 else tl0).
  split.
  { cbn [buildInternalSelectList_rec]. unfold get. rewrite Hn. cbn [deref mbind result_bind].
    destruct (decide (type_ n = T_COLUMN_NAME)); [|done].
    rewrite Htl. cbn [deref mbind result_bind].
    rewrite searchCandidates_noop. cbn [Z.ltb Z.compare alloc].
    fold h1. rewrite Hcopy. cbn [mbind result_bind]. unfold appendChild.
    rewrite (update_Ok _ _ _ _ Hd2). cbn [mbind result_bind]. fold h3.
    rewrite (update_Ok _ _ _ _ Ht3). cbn [mbind result_bind]. fold tl0 h4.
    unfold get. rewrite Ht4. cbn [deref mbind result_bind].
    unfold setType. rewrite (update_Ok _ _ _ _ Hc4). cbn [mbind result_bind].
    fold c5 h5. unfold setID.
    assert (h5 !! node = Some c5) as Hc5.
    { unfold h5. apply list_lookup_insert_eq. unfold h4, h3.
      rewrite !length_insert. lia. }
    rewrite (update_Ok _ _ _ _ Hc5). cbn [mbind result_bind]. done. }
  split; [lia|].
  assert (∀ a, length h < a → h6 !! a = h2 !! a) as Hnew.
  { intros a Ha. rewrite H64 by lia. unfold h4, h3.
    by rewrite !list_lookup_insert_ne by lia. }
  apply allocated_singleton in Ha2 as [Hnd2 Hr2]. rewrite Hl1 in Hr2.
  split.
  { apply (models_frame h2); [done|]. intros a Ha. apply Hnew.
    rewrite Forall_forall in Hr2. specialize (Hr2 a Ha). lia. }
  split; [done|]. split; [rewrite Hl6; by apply allocated_singleton|].
  split.
  { rewrite H64 by lia. unfold h4. rewrite list_lookup_insert_ne by lia.
    unfold h3. apply list_lookup_insert_eq. lia. }
  split.
  { destruct (decide (node = target)) as [<-|Hne]; [done|].
    rewrite H64 by done. done. }
  split.
  { destruct (decide (node = target)) as [Heq|Hne]; [|done].
    simpl. by rewrite (Heq4 Heq). }
  split; [done|]. split; [done|]. split; [by rewrite <- Hci|].
  split; [done|]. split.
  { intros Hne. destruct (decide (node = target)); [done|].
    split; [|done]. simpl. by rewrite (Hne4 Hne). }
  intros a Ha Han Hat. rewrite H64 by done. unfold h4, h3.
  rewrite !list_lookup_insert_ne by lia. by apply Hold.
Qed.
End ColumnStep.

Section PushDownLocal.
Context `{Collaborators}.
Import ASTNode QueryPlan.

Lemma visitChildren_true (visit : heap → addr → result (heap * bool))
    (h : heap) (l : list addr) (h' : heap) (b : bool) :
  (∀ h a h' b, visit h a = Ok (h', b) → b = true) →
  visitChildren visit h l = Ok (h', b) → b = true.
Proof.
  intros Hv. revert h. induction l as [|c l IH]; intros h Hb; simpl in Hb.
  - by injection Hb as _ <-.
  - apply bind_Ok in Hb as ([h1 ok] & H1 & Hb).
    apply Hv in H1 as ->. by eapply IH.
Qed.

(** No run of the push-down answers [false]. *)
Lemma buildInternalSelectList_rec_true (k : nat) (h : heap) (node target : addr)
    (h' : heap) (b : bool) :
  buildInternalSelectList_rec k h node target = Ok (h', b) → b = true.
Proof.
  revert h node h' b. induction k as [|k IH]; intros h node h' b Hb; [done|].
  simpl in Hb. apply bind_Ok in Hb as (c & _ & Hb).
  destruct (decide _).
  - apply bind_Ok in Hb as (? & _ & Hb).
    apply bind_Ok in Hb as ([? ?] & _ & Hb).
    apply bind_Ok in Hb as (? & _ & Hb).
    apply bind_Ok in Hb as (? & _ & Hb). by injection Hb as _ <-.
  - eapply visitChildren_true; [|done]. intros ????. apply IH.
Qed.
End PushDownLocal.

(** ** The push-down on a tree of objects *)

Section PushDownPure.
Import ASTNode.

Lemma root_resolve (t : atree) (next : nat) : root (resolve t next) = root t.
Proof. destruct t as [a ty tok id kids]. simpl. by destruct (decide _). Qed.

Lemma roots_rewriteEach (count : atree → nat) (kids : list atree) (next : nat) :
  root <$> rewriteEach resolve count kids next = root <$> kids.
Proof.
  revert next. induction kids as [|k kids IH]; intros next; [done|].
  cbn [rewriteEach]. by rewrite !fmap_cons, root_resolve, IH.
Qed.

Lemma addrs_resolve (t : atree) (next : nat) : addrs (resolve t next) = addrs t.
Proof.
  revert next. induction t as [a ty tok id kids IH] using atree_nested_ind.
  intros next. cbn [resolve]. destruct (decide _); [by rewrite !addrs_node|].
  rewrite !addrs_node. f_equal.
  revert next. induction IH as [|k kids Hk _ IHkids]; intros next; [done|].
  cbn [rewriteEach]. by rewrite !bind_cons, Hk, IHkids.
Qed.

Lemma addrs_rewriteEach (count : atree → nat) (ts : list atree) (next : nat) :
  rewriteEach resolve count ts next ≫= addrs = ts ≫= addrs.
Proof.
  revert next. induction ts as [|k ts IH]; intros next; [done|].
  cbn [rewriteEach]. by rewrite !bind_cons, addrs_resolve, IH.
Qed.

Lemma erase_resolve (t : atree) (next : nat) :
  erase (resolve t next) = pushDown (erase t) next.
Proof.
  revert next. induction t as [a ty tok id kids IH] using atree_nested_ind.
  intros next. cbn [resolve erase pushDown]. destruct (decide _); [done|].
  cbn [erase]. f_equal.
  revert next. induction IH as [|k kids Hk _ IHkids]; intros next; [done|].
  cbn [rewriteEach]. by rewrite !fmap_cons, Hk, IHkids.
Qed.

Lemma erase_rewriteEach (ts : list atree) (next : nat) :
  erase <$> rewriteEach resolve (λ k, length (columns (erase k))) ts next
  = rewriteEach pushDown (λ k, length (columns k)) (erase <$> ts) next.
Proof.
  revert next. induction ts as [|k ts IH]; intros next; [done|].
  cbn [rewriteEach]. by rewrite !fmap_cons, erase_resolve, IH.
Qed.

Lemma setChildren_id (c : ASTNode) : setChildren c (children_ c) = c.
Proof. by destruct c. Qed.

Lemma pushed_refl (h : heap) (touched : list addr) (target : addr) (tl : ASTNode) :
  h !! target = Some tl → pushed h touched target tl h [].
Proof.
  intros Ht. split; try done.
  - by rewrite fmap_nil, app_nil_r, setChildren_id.
  - apply allocated_nil.
Qed.

Lemma pushed_touched (h : heap) (A B : list addr) (target : addr) (tl : ASTNode)
    (h' : heap) (cols : list atree) :
  (∀ a, a ∈ A → a ∈ B) → pushed h A target tl h' cols → pushed h B target tl h' cols.
Proof. intros Hsub [? ? ? ? Hf]. split; try done. intros a ? Ha ?. apply Hf; auto. Qed.

(** Two push-downs into the same target, one after the other. *)
Lemma pushed_trans (h h1 h2 : heap) (A B : list addr) (target : addr)
    (tl tl1 : ASTNode) (c1 c2 : list atree) :
  h !! target = Some tl →
  Forall (λ a, a < length h) B →
  pushed h A target tl h1 c1 →
  tl1 = setChildren tl (children_ tl ++ (root <$> c1)) →
  pushed h1 B target tl1 h2 c2 →
  pushed h (A ++ B) target tl h2 (c1 ++ c2).
Proof.
  intros Ht HB [Ht1 Hm1 Ha1 Hl1 Hf1] -> [Ht2 Hm2 Ha2 Hl2 Hf2].
  pose proof (lookup_lt_Some _ _ _ Ht) as Htlt.
  rewrite Forall_forall in HB.
  split.
  - rewrite Ht2. simpl. by rewrite fmap_app, app_assoc.
  - apply Forall_app. split; [|done].
    apply (Forall_models_frame h1); [done|]. intros a Ha.
    destruct Ha1 as [_ Hr1]. rewrite Forall_forall in Hr1. specialize (Hr1 a Ha).
    apply Hf2; [lia | | lia]. intros Hin. specialize (HB a Hin). lia.
  - by apply (allocated_app _ (length h1)).
  - lia.
  - intros a Ha Hnin Hne. apply not_elem_of_app in Hnin as [HnA HnB].
    rewrite Hf2 by (done || lia). by apply Hf1.
Qed.
End PushDownPure.

Section PushDownTree.
Context `{Collaborators}.
Import ASTNode QueryPlan.

Lemma allocated_under (lo hi : nat) ty tok id (copy : atree) :
  lo < hi → allocated (S lo) hi [copy] →
  allocated lo hi [ANode lo ty tok id [copy]].
Proof.
  intros Hlt [Hnd Hr]%allocated_singleton. apply allocated_singleton.
  rewrite addrs_node, bind_singleton. rewrite Forall_forall in Hr. split.
  - apply NoDup_cons. split; [|done]. intros Hin. specialize (Hr lo Hin). lia.
  - constructor; [lia|]. apply Forall_forall. intros a Ha. specialize (Hr a Ha). lia.
Qed.

Lemma cell_eq (c : ASTNode) ty tok id l :
  type_ c = ty → token_ c = tok → id_ c = id → children_ c = l →
  c = {| type_ := ty; token_ := tok; id_ := id; children_ := l |}.
Proof. destruct c. simpl. by intros -> -> -> ->. Qed.

(** The loop over the children, given the effect of the push-down on
    each child. *)
Lemma push_children (target : addr) (ts : list atree) :
  Forall (λ t, ∀ k h tl,
    models h t → NoDup (addrs t) → target ∉ addrs t → h !! target = Some tl →
    depth (erase t) ≤ k →
    ∃ h' cols,
      buildInternalSelectList_rec k h (root t) target = Ok (h', true) ∧
      models h' (resolve t (length (children_ tl))) ∧
      erase <$> cols = derived <$> columns (erase t) ∧
      pushed h (addrs t) target tl h' cols) ts →
  ∀ k h tl,
    Forall (models h) ts → NoDup (ts ≫= addrs) → target ∉ ts ≫= addrs →
    h !! target = Some tl → Forall (λ t, depth (erase t) ≤ k) ts →
    ∃ h' cols,
      visitChildren (λ h' c, buildInternalSelectList_rec k h' c target)
                    h (root <$> ts) = Ok (h', true) ∧
      Forall (models h')
             (rewriteEach resolve (λ t, length (columns (erase t))) ts
                          (length (children_ tl))) ∧
      erase <$> cols = derived <$> ((erase <$> ts) ≫= columns) ∧
      pushed h (ts ≫= addrs) target tl h' cols.
Proof.
  induction 1 as [|x ts Hx _ IH]; intros k h tl Hm Hnd Hnin Ht Hd.
  - exists h, []. split; [done|]. split; [done|]. split; [done|].
    by apply pushed_refl.
  - apply Forall_cons in Hm as [Hmx Hm]. apply Forall_cons in Hd as [Hdx Hd].
    rewrite bind_cons in Hnd, Hnin. apply NoDup_app in Hnd as (Hndx & Hdisj & Hnd).
    apply not_elem_of_app in Hnin as [Hninx Hnin].
    destruct (Hx k h tl Hmx Hndx Hninx Ht Hdx) as (h1 & c1 & Hrun1 & Hm1 & He1 & Hp1).
    pose proof (Forall_models_lt _ _ Hm) as Hlt. pose proof Hlt as Hlt'.
    rewrite Forall_forall in Hlt'.
    assert (Forall (models h1) ts) as Hm'.
    { apply (Forall_models_frame h); [done|]. intros a Ha.
      apply (pushed_frame _ _ _ _ _ _ Hp1); [by apply Hlt' | | by intros ->].
      intros Hin. by apply (Hdisj a). }
    set (tl1 := setChildren tl (children_ tl ++ (root <$> c1))).
    pose proof (pushed_target _ _ _ _ _ _ Hp1) as Ht1. fold tl1 in Ht1.
    destruct (IH k h1 tl1 Hm' Hnd Hnin Ht1 Hd) as (h2 & c2 & Hrun2 & Hm2 & He2 & Hp2).
    assert (length (children_ tl1)
            = length (children_ tl) + length (columns (erase x))) as Hlen.
    { unfold tl1. simpl. rewrite length_app, length_fmap.
      by rewrite <- (length_fmap erase), He1, length_fmap. }
    exists h2, (c1 ++ c2). rewrite fmap_cons. cbn [visitChildren rewriteEach].
    rewrite Hrun1. cbn [mbind result_bind]. rewrite Hrun2.
    split; [done|]. split; [|split].
    + constructor; [|by rewrite <- Hlen].
      apply (models_frame h1); [done|]. intros a Ha. rewrite addrs_resolve in Ha.
      pose proof (models_lt _ _ Hmx) as Hltx. rewrite Forall_forall in Hltx.
      pose proof (pushed_length _ _ _ _ _ _ Hp1).
      apply (pushed_frame _ _ _ _ _ _ Hp2); [specialize (Hltx a Ha); lia | | by intros ->].
      by apply Hdisj.
    + by rewrite !fmap_app, He1, He2, fmap_cons, bind_cons, fmap_app.
    + rewrite bind_cons. by eapply pushed_trans.
Qed.
End PushDownTree.

Section PushDownRefinement.
Context `{Collaborators}.
Import ASTNode QueryPlan.

(** The push-down on a tree of distinct objects, into a target outside
    the tree: it returns [true]; the tree is rewritten in place as
    [resolve] says, and the target gets one derived column per column
    reference, in the order [columns] lists them. *)
Lemma push_tree (target : addr) (t : atree) :
  ∀ k h tl,
    models h t → NoDup (addrs t) → target ∉ addrs t → h !! target = Some tl →
    depth (erase t) ≤ k →
    ∃ h' cols,
      buildInternalSelectList_rec k h (root t) target = Ok (h', true) ∧
      models h' (resolve t (length (children_ tl))) ∧
      erase <$> cols = derived <$> columns (erase t) ∧
      pushed h (addrs t) target tl h' cols.
Proof.
  induction t as [a ty tok id kids IH] using atree_nested_ind.
  intros k h tl Hm Hnd Hnin Ht Hd.
  destruct k as [|k]; [simpl in Hd; lia|].
  pose proof (models_root _ _ Hm) as Hc. cbn [root cell] in Hc.
  pose proof (models_kids _ _ Hm) as Hmk. cbn [akids] in Hmk.
  rewrite addrs_node in Hnd, Hnin.
  apply NoDup_cons in Hnd as [Hak Hndk].
  apply not_elem_of_cons in Hnin as [Hta Hnink].
  pose proof (lookup_lt_Some _ _ _ Hc) as Halt.
  pose proof (Forall_models_lt _ _ Hmk) as Hklt. rewrite Forall_forall in Hklt.
  destruct (decide (ty = T_COLUMN_NAME)) as [->|Hty].
  - assert (readAST h a = Ok (erase (ANode a T_COLUMN_NAME tok id kids))) as Hread.
    { apply (readAST_models h (ANode a T_COLUMN_NAME tok id kids)); [done|].
      rewrite addrs_node. by apply NoDup_cons. }
    destruct (column_step k h a target _ tl _ Hc eq_refl Ht Hread)
      as (h' & copy & n' & tl' & Hrun & Hlen & Hmc & Hec & Hac & Hd' & Ht' & _
          & Hn' & Hty' & Hid' & Htok' & Hne & Hframe).
    destruct (Hne ltac:(done)) as [Hch' ->]. simpl in Htok', Hch'.
    exists h', [ANode (length h) T_DERIVED_COLUMN None None [copy]].
    cbn [root]. split; [done|]. split; [|split].
    + cbn [resolve]. destruct (decide _); [|done].
      apply models_node; cbn [root cell akids].
      * rewrite Hn'. f_equal. by apply cell_eq.
      * apply (Forall_models_frame h); [done|]. intros x Hx.
        apply Hframe; [by apply Hklt | by intros -> | by intros ->].
    + cbn [erase columns]. destruct (decide _); [|done].
      rewrite !fmap_cons, !fmap_nil. cbn [erase]. unfold derived.
      by rewrite fmap_cons, fmap_nil, Hec.
    + split.
      * done.
      * constructor; [|done]. by apply models_node; cbn [root cell akids]; [|constructor].
      * apply allocated_under; [lia | done].
      * lia.
      * intros x Hx Hnx Hxt. apply Hframe; [done | | done].
        intros ->. apply Hnx. rewrite addrs_node. apply list_elem_of_here.
  - assert (Forall (λ t, depth (erase t) ≤ k) kids) as Hdk.
    { cbn [erase] in Hd. apply depth_node in Hd. by apply Forall_fmap in Hd. }
    destruct (push_children target kids IH k h tl Hmk Hndk Hnink Ht Hdk)
      as (h' & cols & Hrun & Hm' & He & Hp).
    exists h', cols. split; [|split; [|split]].
    + cbn [root buildInternalSelectList_rec]. unfold get. rewrite Hc.
      cbn [deref mbind result_bind children_ type_].
      by destruct (decide (ty = T_COLUMN_NAME)).
    + cbn [resolve]. destruct (decide (ty = T_COLUMN_NAME)); [done|].
      apply models_node; cbn [root cell akids]; [|done].
      rewrite roots_rewriteEach.
      rewrite (pushed_frame _ _ _ _ _ _ Hp); [done | done | done | by intros ->].
    + cbn [erase columns]. by destruct (decide (ty = T_COLUMN_NAME)).
    + eapply pushed_touched; [|done]. intros x Hx. rewrite addrs_node.
      by apply list_elem_of_further.
Qed.

Lemma push_tree_run (h : heap) (target : addr) (t : atree) (tl : ASTNode) :
  models h t → NoDup (addrs t) → target ∉ addrs t → h !! target = Some tl →
  ∃ h' cols,
    buildInternalSelectList h (root t) target = Ok (h', true) ∧
    models h' (resolve t (length (children_ tl))) ∧
    erase <$> cols = derived <$> columns (erase t) ∧
    pushed h (addrs t) target tl h' cols.
Proof.
  intros Hm Hnd Hnin Ht. apply push_tree; [done..|].
  pose proof (depth_le_store h t Hm Hnd). lia.
Qed.

(** C9. [buildInternalSelectList] never reports a failure: a run that
    returns, returns [true], whatever the node and the target are; and
    on every statement tree in the store (a tree of distinct objects)
    with a target select list outside of it, it does return. *)
Theorem buildInternalSelectList_always_true :
  (∀ k h node target h' b,
     buildInternalSelectList_rec k h node target = Ok (h', b) → b = true) ∧
  (∀ h node target h' b,
     buildInternalSelectList h node target = Ok (h', b) → b = true) ∧
  (∀ h t target tl,
     models h t → NoDup (addrs t) → target ∉ addrs t → h !! target = Some tl →
     ∃ h', buildInternalSelectList h (root t) target = Ok (h', true)).
Proof.
  split; [|split].
  - apply buildInternalSelectList_rec_true.
  - intros h node target h' b. apply buildInternalSelectList_rec_true.
  - intros h t target tl Hm Hnd Hnin Ht.
    destruct (push_tree_run h target t tl Hm Hnd Hnin Ht) as (h' & cols & Hrun & _).
    by exists h'.
Qed.
End PushDownRefinement.

Section PushDownDeterministic.
Context `{Collaborators}.
Import ASTNode QueryPlan.

Lemma separate_cons (t : atree) (ts : list atree) :
  separate (t :: ts) → NoDup (addrs t) ∧ separate ts.
Proof.
  unfold separate. rewrite bind_cons. intros (? & _ & ?)%NoDup_app. done.
Qed.

Lemma readAll_models (h : heap) (ts : list atree) :
  Forall (models h) ts → separate ts →
  readAll (readAST h) (root <$> ts) = Ok (erase <$> ts).
Proof.
  induction 1 as [|t ts Ht _ IH]; intros Hs; [done|].
  apply separate_cons in Hs as [Hnd Hs].
  rewrite !fmap_cons. cbn [readAll].
  rewrite (readAST_models _ _ Ht Hnd). cbn [mbind result_bind].
  by rewrite (IH Hs).
Qed.

(** C1. On a COLUMN_NAME node, whatever the target select list holds,
    [buildInternalSelectList] allocates one DERIVED_COLUMN object whose
    only child is a clone of the node, appends it to the end of the
    target select list, and then turns the node itself into a
    RESOLVED_COLUMN whose index is the position of the new entry, the
    last of the target list; no other object of the store changes.  On
    a node with any other tag, whose children are trees of distinct
    objects with the target outside of them, it goes into every child
    in order: the node itself stays as it is, each child is rewritten
    as the push-down rewrites it, the indices given in a child
    continuing after those given in the children before it, and the
    target gets the entries of the first child, then those of the
    second, and so on. *)
Theorem buildInternalSelectList_step (h : heap) (node target : addr) (n : ASTNode) :
  h !! node = Some n →
  (type_ n = T_COLUMN_NAME →
   ∀ tl t, h !! target = Some tl → readAST h node = Ok t →
   ∃ (h' : heap) (derived : addr) (copy : atree) (n' tl' : ASTNode),
     buildInternalSelectList h node target = Ok (h', true) ∧
     h !! derived = None ∧
     h' !! derived = Some (setChildren (newNode T_DERIVED_COLUMN) [root copy]) ∧
     models h' copy ∧ readAST h' (root copy) = Ok (clone t) ∧
     h' !! target = Some tl' ∧
     children_ tl' = children_ tl ++ [derived] ∧
     h' !! node = Some n' ∧ type_ n' = T_RESOLVED_COLUMN ∧
     token_ n' = token_ n ∧
     id_ n' = Some (Z.of_nat (length (children_ tl))) ∧
     children_ tl' !! length (children_ tl) = Some derived ∧
     length (children_ tl') = S (length (children_ tl)) ∧
     (∀ a, a < length h → a ≠ node → a ≠ target → h' !! a = h !! a)) ∧
  (type_ n ≠ T_COLUMN_NAME →
   ∀ (kids : list atree) tl,
     children_ n = root <$> kids → Forall (models h) kids →
     NoDup (node :: (kids ≫= addrs)) → target ∉ node :: (kids ≫= addrs) →
     h !! target = Some tl →
     ∃ (h' : heap) (new : list addr),
       buildInternalSelectList h node target = Ok (h', true) ∧
       h' !! node = Some n ∧
       readAll (readAST h') (children_ n)
       = Ok (rewriteEach pushDown (λ k, length (columns k)) (erase <$> kids)
                         (length (children_ tl))) ∧
       h' !! target = Some (setChildren tl (children_ tl ++ new)) ∧
       readAll (readAST h') new = Ok (derived <$> ((erase <$> kids) ≫= columns)) ∧
       (∀ a, a < length h → a ∉ kids ≫= addrs → a ≠ target → h' !! a = h !! a)).
Proof.
  intros Hn. split.
  - intros Hty tl t Htl Hread.
    destruct (column_step (length h) h node target n tl t Hn Hty Htl Hread)
      as (h' & copy & n' & tl' & Hrun & Hlen & Hm & He & Ha & Hd & Ht' & Hch
          & Hn' & Hty' & Hid & Htok & _ & Hframe).
    exists h', (length h), copy, n', tl'.
    split; [done|]. split; [by apply lookup_ge_None|]. split; [done|].
    split; [done|]. split.
    { rewrite <- He. apply readAST_models; [done|].
      by apply allocated_singleton in Ha as [? _]. }
    split; [done|]. split; [done|]. split; [done|]. split; [done|].
    split; [done|]. split; [done|]. split.
    { rewrite Hch. rewrite lookup_app_r by done. by rewrite Nat.sub_diag. }
    split; [|done]. rewrite Hch, length_app. simpl. lia.
  - intros Hty kids tl Hch Hmk Hnd Hnin Htl.
    set (t := ANode node (type_ n) (token_ n) (id_ n) kids).
    assert (models h t) as Hm.
    { apply models_node; [|done]. cbn [root cell t]. rewrite Hn. f_equal.
      by apply cell_eq. }
    assert (addrs t = node :: (kids ≫= addrs)) as Haddrs by apply addrs_node.
    destruct (push_tree_run h target t tl Hm) as (h' & cols & Hrun & Hm' & He & Hp);
      [by rewrite Haddrs..|done|].
    destruct Hp as [Ht' Hmc [Hsep _] _ Hframe].
    cbn [resolve t] in Hm'. rewrite decide_False in Hm' by done.
    pose proof (models_root _ _ Hm') as Hn'. cbn [root cell] in Hn'.
    rewrite roots_rewriteEach, <- Hch in Hn'.
    pose proof (models_kids _ _ Hm') as Hmk'. cbn [akids] in Hmk'.
    assert (h' !! node = Some n) as Hnode.
    { rewrite Hn'. f_equal. symmetry. by apply cell_eq. }
    exists h', (root <$> cols). split; [exact Hrun|]. split; [exact Hnode|].
    split; [|split; [done|split]].
    + rewrite Hch, <- (roots_rewriteEach (λ k, length (columns (erase k))) kids
                         (length (children_ tl))).
      rewrite (readAll_models _ _ Hmk'); [by rewrite erase_rewriteEach|].
      unfold separate. rewrite addrs_rewriteEach. by apply NoDup_cons in Hnd as [_ ?].
    + rewrite (readAll_models _ _ Hmc Hsep), He. cbn [erase t columns].
      by rewrite decide_False.
    + intros a Ha Hak Hat. destruct (decide (a = node)) as [->|Hne].
      * by rewrite Hnode, Hn.
      * apply Hframe; [done | | done]. rewrite Haddrs.
        by apply not_elem_of_cons.
Qed.

(** What one run into an empty target leaves behind, read back from
    the store. *)
Lemma push_tree_read (h : heap) (target : addr) (t : atree) (tl : ASTNode) :
  models h t → NoDup (addrs t) → target ∉ addrs t →
  h !! target = Some tl → children_ tl = [] →
  ∃ h' tl',
    buildInternalSelectList h (root t) target = Ok (h', true) ∧
    h' !! target = Some tl' ∧
    readAll (readAST h') (children_ tl') = Ok (derived <$> columns (erase t)) ∧
    readAST h' (root t) = Ok (pushDown (erase t) 0).
Proof.
  intros Hm Hnd Hnin Ht Hempty.
  destruct (push_tree_run h target t tl Hm Hnd Hnin Ht)
    as (h' & cols & Hrun & Hm' & He & [Ht' Hmc [Hsep _] _ _]).
  rewrite Hempty in *. simpl in *.
  eexists h', _. split; [done|]. split; [done|]. split.
  - simpl. rewrite <- He. by apply readAll_models.
  - rewrite <- erase_resolve, <- (root_resolve t 0).
    apply readAST_models; [done|]. by rewrite addrs_resolve.
Qed.

(** C5. The push-down depends on the expression only, and keeps the
    order of occurrence: for two statement trees with the same content,
    anywhere in two stores, each pushed down into an empty target of
    its own, both runs return, and read back from the stores the two
    targets hold the same entries in the same order (so equally many),
    namely one derived column per column reference in the order of
    occurrence, and the two rewritten trees are the same, with the same
    resolved indices. *)
Theorem buildInternalSelectList_deterministic
    (ha hb : heap) (ta tb : atree) (tga tgb : addr) (tla tlb : ASTNode) :
  models ha ta → NoDup (addrs ta) → tga ∉ addrs ta →
  ha !! tga = Some tla → children_ tla = [] →
  models hb tb → NoDup (addrs tb) → tgb ∉ addrs tb →
  hb !! tgb = Some tlb → children_ tlb = [] →
  erase ta = erase tb →
  ∃ (ha' hb' : heap) (tla' tlb' : ASTNode) (entries : list tree) (resolved : tree),
    buildInternalSelectList ha (root ta) tga = Ok (ha', true) ∧
    buildInternalSelectList hb (root tb) tgb = Ok (hb', true) ∧
    ha' !! tga = Some tla' ∧ hb' !! tgb = Some tlb' ∧
    length (children_ tla') = length (children_ tlb') ∧
    readAll (readAST ha') (children_ tla') = Ok entries ∧
    readAll (readAST hb') (children_ tlb') = Ok entries ∧
    entries = derived <$> columns (erase ta) ∧
    readAST ha' (root ta) = Ok resolved ∧
    readAST hb' (root tb) = Ok resolved ∧
    resolved = pushDown (erase ta) 0.
Proof.
  intros Hma Hnda Hnia Hta Hea Hmb Hndb Hnib Htb Heb Heq.
  destruct (push_tree_read ha tga ta tla Hma Hnda Hnia Hta Hea)
    as (ha' & tla' & Hra & Hta' & Hca & Hna).
  destruct (push_tree_read hb tgb tb tlb Hmb Hndb Hnib Htb Heb)
    as (hb' & tlb' & Hrb & Htb' & Hcb & Hnb).
  rewrite <- Heq in Hcb, Hnb.
  exists ha', hb', tla', tlb', (derived <$> columns (erase ta)), (pushDown (erase ta) 0).
  repeat split; try done.
  apply readAll_Ok in Hca, Hcb.
  apply Forall2_length in Hca, Hcb. congruence.
Qed.
End PushDownDeterministic.

(** ** buildGroupBy: the grouping expressions *)

Section GroupingKeys.
Context `{Collaborators}.
Import ASTNode QueryPlan.

Lemma callsAggregate_clone (t : tree) : callsAggregate (clone t) = callsAggregate t.
Proof.
  induction t as [ty tok id kids IH] using tree_nested_ind.
  cbn [clone callsAggregate]. f_equal.
  induction IH as [|k kids Hk _ IHkids]; [done|].
  rewrite fmap_cons. cbn [existsb]. by rewrite Hk, IHkids.
Qed.

Lemma callsAggregate_pushDown (t : tree) (next : nat) :
  callsAggregate (pushDown t next) = callsAggregate t.
Proof.
  revert next. induction t as [ty tok id kids IH] using tree_nested_ind.
  intros next. cbn [pushDown]. destruct (decide (ty = T_COLUMN_NAME)) as [->|Hty].
  - done.
  - cbn [callsAggregate]. f_equal.
    revert next. induction IH as [|k kids Hk _ IHkids]; intros next; [done|].
    cbn [rewriteEach existsb]. by rewrite Hk, IHkids.
Qed.

Lemma callsAggregate_container (gs : list atree) (a : addr) :
  Forall (λ g, callsAggregate (erase g) = false) gs →
  callsAggregate (erase (ANode a T_GROUP_BY None None gs)) = false.
Proof.
  intros Hgs. cbn [erase callsAggregate]. simpl.
  induction Hgs as [|g gs Hg _ IH]; [done|].
  rewrite fmap_cons. cbn [existsb]. by rewrite Hg, IH.
Qed.

Lemma update_lookup_ne (h h' : heap) (a b : addr) (f : ASTNode → ASTNode) :
  update h a f = Ok h' → a ≠ b → h' !! b = h !! b.
Proof.
  unfold update. intros Hu Hne. apply bind_Ok in Hu as (c & _ & [= <-]).
  by apply list_lookup_insert_ne.
Qed.

Lemma removeChild_lookup_ne (h h' : heap) (a b : addr) (i : nat) :
  removeChild h a i = Ok h' → a ≠ b → h' !! b = h !! b.
Proof.
  unfold removeChild. intros Hu Hne. apply bind_Ok in Hu as (c & _ & Hu).
  case_decide; [|done]. injection Hu as <-. by apply list_lookup_insert_ne.
Qed.

Lemma appendChildAt_lookup_ne (h h' : heap) (a b c : addr) (i : nat) :
  appendChildAt h a c i = Ok h' → a ≠ b → h' !! b = h !! b.
Proof.
  unfold appendChildAt. intros Hu Hne. apply bind_Ok in Hu as (x & _ & Hu).
  case_decide; [|done]. injection Hu as <-. by apply list_lookup_insert_ne.
Qed.

Lemma removeGroupBy_lookup_ne (h h' : heap) (a b : addr) :
  removeGroupBy h a = Ok h' → a ≠ b → h' !! b = h !! b.
Proof.
  unfold removeGroupBy. intros Hu Hne. apply bind_Ok in Hu as (c & _ & Hu).
  apply bind_Ok in Hu as (found & _ & Hu). destruct found.
  - by eapply removeChild_lookup_ne.
  - by injection Hu as <-.
Qed.
End GroupingKeys.

Section AggregateDetection.
Context `{Collaborators}.
Import ASTNode QueryPlan.

Lemma isAggregateCall_names (tok : option Token.Token) (b : bool) :
  isAggregateCall tok = Ok b → b = namesAggregate tok.
Proof.
  unfold isAggregateCall, namesAggregate. destruct tok as [tok|]; [|done].
  destruct (lookupSymbol _); [|done]. by intros [= <-].
Qed.

(** [callsAggregate] is what [hasAggregationExpression] computes: when
    the search of the planner returns on a statement tree in the store,
    it returns whether the tree contains an aggregate call. *)
Lemma hasAggregationExpression_rec_models (t : atree) :
  ∀ k h b, models h t → hasAggregationExpression_rec k h (root t) = Ok b →
           b = callsAggregate (erase t).
Proof.
  induction t as [a ty tok id kids IH] using atree_nested_ind.
  intros k h b Hm Hrun. destruct k as [|k]; [done|].
  pose proof (models_root _ _ Hm) as Hc. apply models_kids in Hm.
  cbn [root cell akids] in *. cbn [hasAggregationExpression_rec] in Hrun.
  unfold get in Hrun. rewrite Hc in Hrun. cbn [deref mbind result_bind] in Hrun.
  cbn [type_ token_ children_] in Hrun.
  apply bind_Ok in Hrun as (agg & Hagg & Hrun).
  cbn [erase callsAggregate].
  assert (agg = bool_decide (ty = T_METHOD_CALL) && namesAggregate tok) as ->.
  { destruct (decide (ty = T_METHOD_CALL)) as [->|Hty].
    - by apply isAggregateCall_names in Hagg as ->.
    - injection Hagg as <-. by rewrite bool_decide_eq_false_2. }
  destruct (bool_decide _ && _); [by injection Hrun as <-|]. simpl.
  clear Hc. revert b Hrun.
  induction IH as [|x kids Hx _ IHkids]; intros b Hrun.
  { by injection Hrun as <-. }
  apply Forall_cons in Hm as [Hmx Hm]. rewrite fmap_cons in Hrun.
  cbn [anyChild] in Hrun. apply bind_Ok in Hrun as (bx & Hbx & Hrun).
  apply Hx in Hbx as ->; [|done]. rewrite fmap_cons. cbn [existsb].
  destruct (callsAggregate (erase x)); [by injection Hrun as <-|].
  by apply IHkids.
Qed.
End AggregateDetection.

Section Collecting.
Context `{Collaborators}.
Import ASTNode QueryPlan.

(** A change to one object allocated before [lo], other than the
    container, does not disturb the collection. *)
Lemma collecting_other (h0 : heap) (lo : nat) (ge a : addr) (h h' : heap) :
  collecting h0 lo ge h → within (length h0) h h' →
  (∀ b, a ≠ b → h' !! b = h !! b) → a < lo → a ≠ ge →
  collecting h0 lo ge h'.
Proof.
  intros [Hw Hlo (gs & Hge & Hm & Hp & Ha)] Hw' Hsame Halo Hne.
  split; [by eapply within_trans | destruct Hw' as [[] _]; lia|].
  exists gs. split; [by rewrite Hsame|]. split; [|done].
  apply (Forall_models_frame h); [done|]. intros b Hb. apply Hsame.
  rewrite Forall_forall in Ha. specialize (Ha b Hb). lia.
Qed.

Lemma pureKey_later (h0 h : heap) (g : addr) :
  keeps (length h0) h0 h → pureKey h0 g →
  ∃ t, readAST h g = Ok t ∧ callsAggregate t = false.
Proof. intros Hk (t & Hr & Hp). exists t. split; [by eapply readAST_keeps | done]. Qed.

Lemma copyGroupExprs_collecting (h0 : heap) (lo : nat) (ge child_sl : addr)
    (l : list addr) (h h' : heap) :
  length h0 ≤ ge → ge < lo → length h0 ≤ child_sl → child_sl < lo → ge ≠ child_sl →
  Forall (pureKey h0) l →
  collecting h0 lo ge h →
  copyGroupExprs h ge child_sl l = Ok h' →
  collecting h0 lo ge h'.
Proof.
  intros Hge Hgelo Hsl Hsllo Hne Hl. revert h.
  induction Hl as [|g l Hg _ IH]; intros h Hc Hrun; simpl in Hrun.
  { by injection Hrun as <-. }
  apply bind_Ok in Hrun as ([h1 e] & Hcopy & Hrun).
  apply bind_Ok in Hrun as ([h2 b] & Hpush & Hrun).
  apply bind_Ok in Hrun as (h3 & Happ & Hrun).
  apply IH in Hrun; [done|]. clear IH Hrun.
  destruct Hc as [Hw Hlo (gs & Hgs & Hm & Hp & Ha)].
  pose proof Hw as [Hk0 Hr0].
  destruct (pureKey_later _ _ _ Hk0 Hg) as (t & Hread & Hpure).
  destruct (deepCopy_clone h g t Hread) as (h1' & E & Hcopy' & Hk1 & HmE & HeE & HaE).
  rewrite Hcopy in Hcopy'. injection Hcopy' as <- ->.
  apply allocated_singleton in HaE as [HndE HrE]. rewrite Forall_forall in HrE.
  destruct (lookup_lt_is_Some_2 h1 child_sl) as [tl Htl]; [destruct Hk1; lia|].
  assert (child_sl ∉ addrs E) as HninE.
  { intros Hin. specialize (HrE _ Hin). lia. }
  destruct (push_tree_run h1 child_sl E tl HmE HndE HninE Htl)
    as (h2' & cols & Hpush' & Hm2 & _ & Hp2).
  rewrite Hpush in Hpush'. injection Hpush' as <- ->.
  assert (h2 !! ge = Some (cell (ANode ge T_GROUP_BY None None gs))) as Hge2.
  { rewrite (pushed_frame _ _ _ _ _ _ Hp2); [|destruct Hk1; lia| |done].
    - destruct Hk1 as [_ Hk1]. rewrite Hk1 by lia. done.
    - intros Hin. specialize (HrE _ Hin). lia. }
  unfold appendChild in Happ. rewrite (update_Ok _ _ _ _ Hge2) in Happ.
  injection Happ as <-.
  assert (within (length h0) h h2) as Hw2.
  { apply (deepCopy_within (length h0)) in Hcopy as [Hw1 He]; [|done].
    apply (buildInternalSelectList_within (length h0)) in Hpush; [|apply Hw1|done..].
    by eapply within_trans. }
  pose proof (pushed_length _ _ _ _ _ _ Hp2) as Hl2.
  destruct Hk1 as [Hl1 Hk1].
  assert (within (length h0) h2
            (<[ge := setChildren (cell (ANode ge T_GROUP_BY None None gs))
                       (children_ (cell (ANode ge T_GROUP_BY None None gs)) ++ [root E])]> h2))
    as Hw3.
  { apply within_insert; [apply Hw2 | done |]. simpl.
    apply Forall_app. split.
    - destruct Hw2 as [_ Hr2]. apply (region_lookup _ _ _ _ Hr2 Hge Hge2).
    - apply Forall_singleton. specialize (HrE _ (root_in_addrs E)). lia. }
  split.
  - eauto using within_trans.
  - rewrite length_insert. lia.
  - exists (gs ++ [resolve E (length (children_ tl))]). split; [|split; [|split]].
    + rewrite list_lookup_insert_eq by (apply lookup_lt_Some in Hge2; done).
      simpl. by rewrite fmap_app, fmap_cons, root_resolve.
    + apply Forall_app. split.
      * apply (Forall_models_frame h); [done|]. intros a Hin.
        pose proof (Forall_models_lt _ _ Hm) as Hlt. rewrite Forall_forall in Hlt, Ha.
        specialize (Hlt _ Hin). specialize (Ha _ Hin).
        rewrite list_lookup_insert_ne by lia.
        rewrite (pushed_frame _ _ _ _ _ _ Hp2); [by apply Hk1 | lia | | lia].
        intros HinE. specialize (HrE _ HinE). lia.
      * apply Forall_singleton. apply (models_frame h2); [done|]. intros a Hin.
        rewrite addrs_resolve in Hin. specialize (HrE _ Hin).
        apply list_lookup_insert_ne. lia.
    + apply Forall_app. split; [done|]. apply Forall_singleton.
      by rewrite erase_resolve, HeE, callsAggregate_pushDown, callsAggregate_clone.
    + rewrite bind_app, bind_singleton, addrs_resolve. apply Forall_app. split; [done|].
      apply Forall_forall. intros a Hin. specialize (HrE _ Hin). lia.
Qed.
End Collecting.

Section CollectingGroupBy.
Context `{Collaborators}.
Import ASTNode QueryPlan.

Lemma searchGroupBy_collecting (h0 : heap) (lo : nat) (ge child_sl child_ast : addr)
    (l : list addr) (h h' : heap) :
  length h0 ≤ ge → ge < lo → length h0 ≤ child_sl → child_sl < lo → ge ≠ child_sl →
  length h0 ≤ child_ast → child_ast < lo → child_ast ≠ ge →
  Forall (pureClause h0) l →
  collecting h0 lo ge h →
  searchGroupBy h ge child_sl child_ast l = Ok h' →
  collecting h0 lo ge h'.
Proof.
  intros Hge Hgelo Hsl Hsllo Hne Hca Hcalo Hcane Hl. revert h.
  induction Hl as [|c l (cn & Hcn & Hkeys) _ IH]; intros h Hc Hrun; simpl in Hrun.
  { by injection Hrun as <-. }
  apply bind_Ok in Hrun as (cn' & Hcn' & Hrun). apply get_Ok in Hcn'.
  assert (cn' = cn) as ->.
  { destruct Hc as [[[_ Hk] _] _ _].
    rewrite Hk in Hcn' by (by apply lookup_lt_Some in Hcn). congruence. }
  destruct (decide (type_ cn = T_GROUP_BY)) as [Hty|Hty]; [|by apply (IH h)].
  apply bind_Ok in Hrun as (h1 & Hcopy & Hrun).
  apply bind_Ok in Hrun as (h2 & Hrem & Hrun).
  apply IH in Hrun; [done|].
  apply copyGroupExprs_collecting with (h0 := h0) (lo := lo) in Hcopy; [|by auto..].
  apply (collecting_other h0 lo ge child_ast h1); [done | | | done | done].
  - apply (removeGroupBy_within (length h0)) in Hrem; [done | | done].
    by destruct Hcopy as [[_ ?] _ _].
  - intros b Hb. by eapply removeGroupBy_lookup_ne.
Qed.

(** After the rewriting of [buildGroupBy], the container of grouping
    expressions holds rewritten clones of the grouping keys; if the
    keys were pure, so is everything in the container. *)
Lemma rewriteGroupBy_collecting (h : heap) (ast : addr) (h7 : heap) (t : GroupByTrees) :
  pureGroupKeys h ast →
  rewriteGroupBy h ast = Ok (h7, t) →
  ∃ lo, collecting h lo (gb_group_exprs t) h7.
Proof.
  intros (n & Hn & Hclauses) Hb. unfold rewriteGroupBy, alloc in Hb.
  set (ge := length h) in *. set (h0 := h ++ [newNode T_GROUP_BY]) in *.
  apply bind_Ok in Hb as (c & _ & Hb).
  apply bind_Ok in Hb as (own_sl & _ & Hb).
  apply bind_Ok in Hb as (sl & _ & Hb).
  apply bind_Ok in Hb as (? & _ & Hb).
  apply bind_Ok in Hb as ([h1 select_list] & H1 & Hb).
  set (child_sl := length h1) in *. set (h2 := h1 ++ [newNode T_SELECT_LIST]) in *.
  apply bind_Ok in Hb as ([h3 ?] & H3 & Hb).
  apply bind_Ok in Hb as ([h4 child_ast] & H4 & Hb).
  apply bind_Ok in Hb as (h5 & H5 & Hb).
  apply bind_Ok in Hb as (h6 & H6 & Hb).
  apply bind_Ok in Hb as (n6 & Hn6 & Hb). apply get_Ok in Hn6.
  apply bind_Ok in Hb as (h7' & H7 & [= <- <-]). simpl.
  assert (length h0 = S ge) as Hl0 by (unfold h0; rewrite length_app; simpl; lia).
  assert (h0 !! ge = Some (newNode T_GROUP_BY)) as Hge0.
  { unfold h0. rewrite lookup_app_r by done. by rewrite Nat.sub_diag. }
  assert (within ge h h0) as Hw0 by (apply within_alloc; [apply region_top | done]).
  (* the clone of the select list *)
  pose proof (deepCopy_rec_within _ _ _ _ _ H1) as [Hw1' Hsl1]. rewrite Hl0 in *.
  pose proof (deepCopy_within ge _ _ _ _ ltac:(apply Hw0) H1) as [Hw1 _].
  assert (length h2 = S child_sl) as Hl2 by (unfold h2; rewrite length_app; simpl; lia).
  assert (within (S ge) h1 h2) as Hw2' by (apply within_alloc; [apply Hw1' | done]).
  assert (within ge h1 h2) as Hw2 by (apply within_alloc; [apply Hw1 | done]).
  (* the push-down of the select list stays above the container *)
  assert (within (S ge) h2 h3) as Hw3'.
  { eapply (buildInternalSelectList_within (S ge)); [apply Hw2' | | | exact H3];
      unfold child_sl; lia. }
  assert (within ge h2 h3) as Hw3.
  { eapply (buildInternalSelectList_within ge); [apply Hw2 | | | exact H3];
      unfold child_sl; lia. }
  (* the clone of the statement *)
  pose proof (deepCopy_keeps _ _ _ _ H4) as [Hk4 Hca].
  pose proof (deepCopy_within ge _ _ _ _ ltac:(apply Hw3) H4) as [Hw4 _].
  assert (ge < length h3 ∧ child_sl < length h3) as [Hge3 Hsl3].
  { destruct Hw3' as [[? _] _]. lia. }
  assert (within ge h4 h5) as Hw5.
  { eapply (within_removeChild ge); [apply Hw4 | | exact H5]. lia. }
  assert (within ge h5 h6) as Hw6.
  { eapply (within_appendChildAt ge); [apply Hw5 | | | exact H6];
      unfold child_sl; lia. }
  assert (within ge h h6) as Hw by eauto 10 using within_trans.
  assert (h6 !! ge = Some (newNode T_GROUP_BY)) as Hge6.
  { rewrite (appendChildAt_lookup_ne _ _ _ _ _ _ H6) by lia.
    rewrite (removeChild_lookup_ne _ _ _ _ _ H5) by lia.
    destruct Hk4 as [_ Hk4]. rewrite Hk4 by lia.
    destruct Hw3' as [[_ Hk3] _]. rewrite Hk3 by lia.
    unfold h2. rewrite lookup_app_l by lia.
    destruct Hw1' as [[_ Hk1] _]. rewrite Hk1 by lia. done. }
  assert (length h4 ≤ length h6 ∧ child_ast < length h4) as [Hl46 Hcalt].
  { destruct Hw5 as [[? _] _], Hw6 as [[? _] _].
    apply deepCopy_rec_within in H4 as [_ ?]. lia. }
  assert (h6 !! ast = Some n) as Hn6'.
  { destruct Hw as [[_ Hk] _]. rewrite Hk; [done|]. by eapply lookup_lt_Some. }
  rewrite Hn6' in Hn6. injection Hn6 as <-.
  exists (length h6).
  eapply (searchGroupBy_collecting h (length h6) ge child_sl child_ast); [..|exact H7];
    try done; try lia.
  split; [done | done |].
  exists []. split; [done|]. by repeat split.
Qed.
End CollectingGroupBy.

Section GroupByScratch.
Context `{Collaborators}.
Import ASTNode QueryPlan.

(** C3. The compiled group expression of a GroupBy node needs no
    scratch slots.  [buildGroupBy] enforces it: whenever it returns, it
    returns a GroupBy node whose group expression was compiled from the
    container of rewritten grouping expressions with a scratchpad
    length of 0, while the scratchpad length of the select list is
    passed on to the node as the compiler gave it, whatever it is.  And
    the check cannot fail on pure grouping keys: with a compiler that
    asks for no scratch slots for an expression without aggregate
    calls, and grouping keys without aggregate calls, the scratchpad
    length compared with 0 is 0 whenever the comparison is reached. *)
Theorem buildGroupBy_group_scratch
    (plan : heap → addr → result (heap * Executable)) (h : heap) (ast : addr) :
  (∀ h' e, buildGroupBy plan h ast = Ok (h', e) →
     ∃ h7 t select_expr select_scratchpad_len group_expr columns child,
       rewriteGroupBy h ast = Ok (h7, t) ∧
       compile h7 (gb_select_list t) = Ok (select_expr, select_scratchpad_len) ∧
       compile h7 (gb_group_exprs t) = Ok (group_expr, 0) ∧
       plan h7 (gb_child_ast t) = Ok (h', child) ∧
       e = GroupBy columns select_expr group_expr select_scratchpad_len child) ∧
  (compilesPure → pureGroupKeys h ast →
   ∀ h7 t group_expr group_scratchpad_len,
     rewriteGroupBy h ast = Ok (h7, t) →
     compile h7 (gb_group_exprs t) = Ok (group_expr, group_scratchpad_len) →
     group_scratchpad_len = 0).
Proof.
  split.
  - intros h' e Hb. unfold buildGroupBy in Hb.
    apply bind_Ok in Hb as ([h7 t] & Hrw & Hb).
    apply bind_Ok in Hb as ([select_expr slen] & Hsel & Hb).
    apply bind_Ok in Hb as ([group_expr glen] & Hgrp & Hb).
    apply bind_Ok in Hb as (? & Hassert & Hb).
    apply bind_Ok in Hb as (sl & _ & Hb).
    apply bind_Ok in Hb as ([h8 child] & Hchild & [= <- <-]).
    apply assert_Ok, Nat.eqb_eq in Hassert as ->.
    by eexists h7, t, select_expr, slen, group_expr, _, child.
  - intros Hpure Hkeys h7 t group_expr len Hrw Hcompile.
    destruct (rewriteGroupBy_collecting h ast h7 t Hkeys Hrw)
      as (lo & [_ _ (gs & Hge & Hm & Hp & _)]).
    unfold compile in Hcompile.
    apply bind_Ok in Hcompile as (x & Hread & Hcompile).
    assert (models h7 (ANode (gb_group_exprs t) T_GROUP_BY None None gs)) as Hmg
      by by apply models_node.
    apply (readAST_rec_models_inv _ _ _ _ Hmg) in Hread as ->.
    eapply Hpure; [|done]. by apply callsAggregate_container.
Qed.
End GroupByScratch.

(** ** The sample statements *)

Section Samples.
Import ASTNode QueryPlan.

Lemma models_cells (h : heap) (t : atree) :
  Forall (λ s, h !! root s = Some (cell s)) (subtrees t) → models h t.
Proof. intros Hall s Hs. rewrite Forall_forall in Hall. by apply Hall. Qed.

Lemma Demo_slots_pure (t : tree) :
  callsAggregate (H := Demo.collaborators) t = false → Demo.slots t = 0.
Proof.
  induction t as [ty tok id kids IH] using tree_nested_ind.
  cbn [callsAggregate Demo.slots]. intros [Hcall Hkids]%orb_false_iff.
  assert (foldr (λ k n, Demo.slots k + n) 0 kids = 0) as ->.
  { induction IH as [|k kids Hk _ IHkids]; [done|].
    cbn [existsb] in Hkids. apply orb_false_iff in Hkids as [Hk' Hkids].
    simpl. rewrite Hk, IHkids; done. }
  rewrite Nat.add_0_r.
  destruct (bool_decide (ty = T_METHOD_CALL)); [|done]. simpl in Hcall |- *.
  destruct tok as [tok|]; [|done]. simpl in *. unfold Demo.symbols in Hcall.
  case_bool_decide as Havg; [|done]. injection Havg as Havg.
  rewrite Havg in Hcall. done.
Qed.

Lemma Demo_compilesPure : compilesPure (H := Demo.collaborators).
Proof.
  intros t n expr n' Hpure [= _ <-]. rewrite (Demo_slots_pure t Hpure). lia.
Qed.

Lemma Demo_pureGroupKeys :
  pureGroupKeys (H := Demo.collaborators) Demo.groupByStatement 7.
Proof.
  eexists. split; [reflexivity|]. cbn [children_].
  apply Forall_cons. split; [eexists; split; [reflexivity | discriminate]|].
  apply Forall_cons. split; [eexists; split; [reflexivity | discriminate]|].
  apply Forall_singleton. eexists. split; [reflexivity|]. intros _.
  apply Forall_singleton. eexists. split; vm_compute; reflexivity.
Qed.

Lemma Demo_firstCopy : models Demo.twoCopies Demo.firstCopy ∧
  NoDup (addrs Demo.firstCopy) ∧ 4 ∉ addrs Demo.firstCopy.
Proof.
  split; [apply models_cells; by repeat constructor|].
  split; compute_done.
Qed.

Lemma Demo_secondCopy : models Demo.twoCopies Demo.secondCopy ∧
  NoDup (addrs Demo.secondCopy) ∧ 5 ∉ addrs Demo.secondCopy.
Proof.
  split; [apply models_cells; by repeat constructor|].
  split; compute_done.
Qed.

Lemma Demo_sumArguments :
  Forall (models Demo.sum) Demo.sumArguments ∧
  NoDup (2 :: (Demo.sumArguments ≫= addrs)) ∧
  3 ∉ 2 :: (Demo.sumArguments ≫= addrs).
Proof.
  split; [repeat constructor; apply models_cells; by repeat constructor|].
  split; compute_done.
Qed.

Lemma buildInternalSelectList_step_witness :
  (∃ h' derived tl' n',
     buildInternalSelectList Demo.groupByStatement 5 3 = Ok (h', true) ∧
     h' !! 3 = Some tl' ∧ children_ tl' = [2; derived] ∧
     h' !! 5 = Some n' ∧ type_ n' = T_RESOLVED_COLUMN ∧ id_ n' = Some 1%Z) ∧
  (∃ h' new,
     buildInternalSelectList Demo.sum 2 3 = Ok (h', true) ∧
     h' !! 2 = Some (mk T_METHOD_CALL (Demo.identifier "add") None [0; 1]) ∧
     readAll (readAST h') [0; 1]
     = Ok [Node T_RESOLVED_COLUMN (Demo.identifier "a") (Some 0%Z) [];
           Node T_RESOLVED_COLUMN (Demo.identifier "b") (Some 1%Z) []] ∧
     h' !! 3 = Some (mk T_SELECT_LIST None None new) ∧
     readAll (readAST h') new
     = Ok [derived (Node T_COLUMN_NAME (Demo.identifier "a") None []);
           derived (Node T_COLUMN_NAME (Demo.identifier "b") None [])]).
Proof.
  split.
  - destruct (buildInternalSelectList_step Demo.groupByStatement 5 3
                (mk T_COLUMN_NAME (Demo.identifier "k") None []) eq_refl) as [Hcol _].
    destruct (Hcol eq_refl (mk T_SELECT_LIST None None [2])
                (Node T_COLUMN_NAME (Demo.identifier "k") None []) eq_refl eq_refl)
      as (h' & d & c & n' & tl' & Hrun & _ & _ & _ & _ & Htl & Hch & Hn & Hty & _
          & Hid & _).
    by exists h', d, tl', n'.
  - destruct Demo_sumArguments as (Hm & Hnd & Hni).
    destruct (buildInternalSelectList_step Demo.sum 2 3
                (mk T_METHOD_CALL (Demo.identifier "add") None [0; 1]) eq_refl)
      as [_ Hother].
    destruct (Hother ltac:(discriminate) Demo.sumArguments
                (mk T_SELECT_LIST None None []) eq_refl Hm Hnd Hni eq_refl)
      as (h' & new & Hrun & Hnode & Hkids & Htarget & Hnew & _).
    exists h', new. split; [exact Hrun|]. split; [exact Hnode|].
    split; [exact Hkids|]. split; [exact Htarget | exact Hnew].
Defined.

Lemma buildQueryPlan_no_GroupBy_witness :
  ∃ e, buildQueryPlan (H := Demo.collaborators) 3 () Demo.seriesStatement 6
       = Ok (Demo.seriesStatement, e) ∧
       isGroupBy e = false.
Proof.
  assert (buildQueryPlan (H := Demo.collaborators) 3 () Demo.seriesStatement 6
          = Ok (Demo.seriesStatement, TableScan ["0"; "1"]%string)) as Hrun
    by (vm_compute; reflexivity).
  eexists. split; [exact Hrun|].
  eapply (buildQueryPlan_no_GroupBy (H := Demo.collaborators) 3 () Demo.seriesStatement 6
            (mk T_SELECT None None [4; 5]) _ _ eq_refl);
    [discriminate | discriminate | vm_compute; discriminate | vm_compute; discriminate
    | vm_compute; discriminate | exact Hrun].
Defined.

Lemma buildGroupBy_group_scratch_witness :
  ∃ h7 t group_expr group_scratchpad_len select_expr,
    rewriteGroupBy Demo.groupByStatement 7 = Ok (h7, t) ∧
    compile (H := Demo.collaborators) h7 (gb_group_exprs t)
      = Ok (group_expr, group_scratchpad_len) ∧
    group_scratchpad_len = 0 ∧
    compile (H := Demo.collaborators) h7 (gb_select_list t) = Ok (select_expr, 1).
Proof.
  assert (∃ h7 t g len s,
            rewriteGroupBy Demo.groupByStatement 7 = Ok (h7, t) ∧
            compile (H := Demo.collaborators) h7 (gb_group_exprs t) = Ok (g, len) ∧
            compile (H := Demo.collaborators) h7 (gb_select_list t) = Ok (s, 1))
    as (h7 & t & g & len & s & Hrw & Hg & Hs).
  { eexists _, _, _, _, _. split; [vm_compute; reflexivity|].
    split; vm_compute; reflexivity. }
  exists h7, t, g, len, s. split; [exact Hrw|]. split; [exact Hg|]. split; [|exact Hs].
  exact (proj2 (buildGroupBy_group_scratch (H := Demo.collaborators)
                  Demo.planner Demo.groupByStatement 7)
               Demo_compilesPure Demo_pureGroupKeys h7 t g len Hrw Hg).
Defined.

Lemma buildGroupBy_original_untouched_witness :
  ∃ h' e,
    buildGroupBy (H := Demo.collaborators) Demo.planner Demo.groupByStatement 7
      = Ok (h', e) ∧
    (∀ a c, Demo.groupByStatement !! a = Some c → h' !! a = Some c) ∧
    readAST h' 3 = readAST Demo.groupByStatement 3.
Proof.
  destruct (buildGroupBy (H := Demo.collaborators) Demo.planner Demo.groupByStatement 7)
    as [[h' e]|] eqn:Hrun; [|vm_compute in Hrun; discriminate].
  exists h', e. split; [reflexivity|].
  destruct (buildGroupBy_original_untouched (H := Demo.collaborators) 2 ()
              Demo.groupByStatement 7 h' e Hrun)
    as [Hcells (n & sl & Hn & Hsl & _ & Hread)].
  split; [exact Hcells|].
  assert (readAST Demo.groupByStatement 3
          = Ok (Node T_SELECT_LIST None None
                  [Node T_DERIVED_COLUMN None None
                     [Node T_METHOD_CALL (Demo.identifier "avg") None
                        [Node T_COLUMN_NAME (Demo.identifier "value") None []]]]))
    as Hsl3 by (vm_compute; reflexivity).
  cbn in Hn. injection Hn as <-. cbn in Hsl. injection Hsl as <-.
  rewrite Hsl3. by apply Hread.
Defined.

Lemma buildInternalSelectList_deterministic_witness :
  ∃ ha' hb' tla' tlb' entries resolved,
    buildInternalSelectList Demo.twoCopies 1 4 = Ok (ha', true) ∧
    buildInternalSelectList Demo.twoCopies 3 5 = Ok (hb', true) ∧
    ha' !! 4 = Some tla' ∧ hb' !! 5 = Some tlb' ∧
    readAll (readAST ha') (children_ tla') = Ok entries ∧
    readAll (readAST hb') (children_ tlb') = Ok entries ∧
    length entries = 1 ∧
    readAST ha' 1 = Ok resolved ∧ readAST hb' 3 = Ok resolved.
Proof.
  destruct Demo_firstCopy as (Hma & Hnda & Hnia).
  destruct Demo_secondCopy as (Hmb & Hndb & Hnib).
  destruct (buildInternalSelectList_deterministic
              Demo.twoCopies Demo.twoCopies Demo.firstCopy Demo.secondCopy 4 5
              (mk T_SELECT_LIST None None []) (mk T_SELECT_LIST None None [])
              Hma Hnda Hnia eq_refl eq_refl Hmb Hndb Hnib eq_refl eq_refl eq_refl)
    as (ha' & hb' & tla' & tlb' & entries & resolved & Ha & Hb & Hta & Htb & _
        & Hea & Heb & Hentries & Hra & Hrb & _).
  exists ha', hb', tla', tlb', entries, resolved.
  repeat split; try done. by rewrite Hentries.
Defined.

Lemma buildSeriesStatement_columns_witness :
  ∃ h' e,
    buildSeriesStatement (H := Demo.collaborators) Demo.planner
      Demo.seriesStatement 7 = Ok (h', e) ∧
    getColumns e = ["series"; "0"; "1"]%string.
Proof.
  assert (∃ h' name,
            buildSeriesStatement (H := Demo.collaborators) Demo.planner
              Demo.seriesStatement 7
            = Ok (h', SeriesStatement ["series"; "0"; "1"]%string name
                        (TableScan ["0"; "1"]%string)))
    as (h' & name & Hrun) by (eexists _, _; vm_compute; reflexivity).
  eexists _, _. split; [exact Hrun|].
  destruct (buildSeriesStatement_columns (H := Demo.collaborators) Demo.planner
              Demo.seriesStatement 7 _ _ Hrun)
    as (n & sel & csl & select_ast & child_sl & h1 & n1 & nested & select & name_expr
        & Hn & Hsa & Hsel & Hcsl & Hc & _ & _ & _ & He & Htwo & _).
  cbn in Hn. injection Hn as <-. cbn in Hsa. injection Hsa as <-.
  cbn in Hsel. injection Hsel as <-. cbn in Hcsl. injection Hcsl as <-.
  cbn in Hc. injection Hc as <-.
  injection He as _ _ <-.
  by apply (Htwo "0" "1")%string.
Defined.

(** A series named by an expression: the push-down of the name appends
    a column to the select list of the nested select itself, so the
    nested plan has three columns, while the axes were counted before. *)
Lemma buildSeriesStatement_expression_name :
  ∃ h' name,
    buildSeriesStatement (H := Demo.collaborators) Demo.planner Demo.seriesStatement 9
    = Ok (h', SeriesStatement ["series"; "0"; "1"]%string name
                (TableScan ["0"; "1"; "2"]%string)).
Proof. eexists _, _. vm_compute. reflexivity. Qed.

(** The child select list of "select avg(value) from m group by k": the
    columns of the select list come first, then those of the grouping
    expressions. *)
Lemma rewriteGroupBy_child_select_list :
  ∃ h7 t,
    rewriteGroupBy Demo.groupByStatement 7 = Ok (h7, t) ∧
    readAST h7 (gb_child_sl t)
    = Ok (Node T_SELECT_LIST None None
            [derived (Node T_COLUMN_NAME (Demo.identifier "value") None []);
             derived (Node T_COLUMN_NAME (Demo.identifier "k") None [])]).
Proof. eexists _, _. split; vm_compute; reflexivity. Qed.

Lemma buildInternalSelectList_always_true_witness :
  ∃ h', buildInternalSelectList Demo.twoCopies 1 4 = Ok (h', true).
Proof.
  destruct Demo_firstCopy as (Hm & Hnd & Hni).
  destruct buildInternalSelectList_always_true as (_ & _ & Hruns).
  exact (Hruns Demo.twoCopies Demo.firstCopy 4 (mk T_SELECT_LIST None None [])
           Hm Hnd Hni eq_refl).
Defined.
End Samples.

Section HTTPSamples.
Import http MetricRepository HTTPAPI.

Lemma Demo_standard_stod : standard_stod (H := Demo.standardLibrary) Some.
Proof. intros s. cbn. by destruct (strtod.subject s). Qed.

Lemma insertSample_status_witness :
  (∃ response',
     insertSample (H := Demo.standardLibrary) 10 Demo.noMetrics Demo.blankResponse
       (URI.mk (metricPath "ab") [("value", "3.5")]%string)
       = Ok (Demo.noMetrics, response') ∧
     status response' = Some 400%Z) ∧
  (∃ response',
     insertSample (H := Demo.standardLibrary) 10 Demo.noMetrics Demo.blankResponse
       (URI.mk (metricPath "abc") [("value", "bogus")]%string)
       = Ok (Demo.noMetrics, response') ∧
     status response' = Some 400%Z) ∧
  (∃ repo' response',
     insertSample (H := Demo.standardLibrary) 10 Demo.noMetrics Demo.blankResponse
       (URI.mk (metricPath "abc") [("value", "3.5")]%string)
       = Ok (repo', response') ∧
     status response' = Some 201%Z ∧
     metrics repo' !! "abc"%string
     = Some [Build_Sample (H := Demo.standardLibrary) 10 "3.5"]).
Proof.
  split; [|split].
  - destruct (insertSample_status (H := Demo.standardLibrary) Some 10 Demo.noMetrics
                Demo.blankResponse "ab" [("value", "3.5")]%string Demo_standard_stod)
      as (Hshort & _ & _).
    apply Hshort. cbn. lia.
  - destruct (insertSample_status (H := Demo.standardLibrary) Some 10 Demo.noMetrics
                Demo.blankResponse "abc" [("value", "bogus")]%string
                Demo_standard_stod) as (_ & Hbad & _).
    apply Hbad; [cbn; lia|]. right. exists "bogus"%string. split; [reflexivity|].
    left. reflexivity.
  - destruct (insertSample_status (H := Demo.standardLibrary) Some 10 Demo.noMetrics
                Demo.blankResponse "abc" [("value", "3.5")]%string Demo_standard_stod)
      as (_ & _ & Hgood).
    destruct (Hgood ltac:(cbn; lia) "3.5"%string "3.5"%string "3.5"%string
                eq_refl eq_refl eq_refl)
      as (repo' & response' & Hrun & Hstatus & Hstored & _).
    exists repo', response'. split; [exact Hrun|]. split; [exact Hstatus|].
    rewrite Hstored. unfold Demo.noMetrics. cbn [metrics].
    rewrite lookup_empty. reflexivity.
Defined.

(** The value 3.5abc is not a number, only its start 3.5 is; the
    request is answered with 201 all the same, not with 400, and the
    sample 3.5 is stored. *)
Lemma insertSample_trailing_text :
  ¬ strtod.numeral "3.5abc" ∧
  strtod.subject "3.5abc" = Some "3.5"%string ∧
  ∃ repo' response',
    insertSample (H := Demo.standardLibrary) 10 Demo.noMetrics Demo.blankResponse
      (URI.mk (metricPath "abc") [("value", "3.5abc")]%string)
      = Ok (repo', response') ∧
    status response' = Some 201%Z ∧
    status response' ≠ Some 400%Z ∧
    metrics repo' !! "abc"%string
    = Some [Build_Sample (H := Demo.standardLibrary) 10 "3.5"] ∧
    metrics repo' ≠ metrics Demo.noMetrics.
Proof.
  split; [discriminate|]. split; [reflexivity|].
  destruct (insertSample_created (H := Demo.standardLibrary) 10 Demo.noMetrics
              Demo.blankResponse "abc" [("value", "3.5abc")]%string "3.5abc" "3.5"%string
              ltac:(cbn; lia) eq_refl eq_refl)
    as (repo' & Hrun & Hstored & _).
  unfold Demo.noMetrics in Hstored. cbn [metrics] in Hstored.
  rewrite lookup_empty in Hstored.
  exists repo', (setStatus Demo.blankResponse kStatusCreated).
  split; [exact Hrun|]. split; [reflexivity|]. split; [discriminate|].
  split; [exact Hstored|].
  intros Heq. rewrite Heq in Hstored. unfold Demo.noMetrics in Hstored.
  cbn [metrics] in Hstored. by rewrite lookup_empty in Hstored.
Qed.

Lemma renderMetricSampleScan_short_key_witness :
  ∃ response',
    renderMetricSampleScan (H := Demo.library) 10 Demo.emptyRepository
      Demo.blankResponse (URI.mk (metricPath "ab") [])
      = Ok (Demo.emptyRepository, response') ∧
    status response' = Some 400%Z.
Proof.
  destruct (renderMetricSampleScan_short_key (H := Demo.library) 10
              Demo.emptyRepository Demo.blankResponse "ab" [])
    as (response' & Hrun & Hstatus & _); [cbn; lia|].
  exists response'. split; [exact Hrun | exact Hstatus].
Defined.
End HTTPSamples.

(** ** The aggregate detection *)

Section AggregateSearch.
Context `{Collaborators}.
Import ASTNode QueryPlan.

Lemma isAggregateCall_Ok (tok : option Token.Token) (b : bool) :
  isAggregateCall tok = Ok b → namesKnown tok = true ∧ b = namesAggregate tok.
Proof.
  unfold isAggregateCall, namesKnown, namesAggregate. destruct tok as [tok|]; [|done].
  destruct (lookupSymbol _) as [s|]; [|done]. intros [= <-].
  split; [|done]. apply bool_decide_eq_true. by eexists.
Qed.

Lemma isAggregateCall_Err (tok : option Token.Token) (e : failure) :
  isAggregateCall tok = Err e → e = AssertionFailed ∧ namesKnown tok = false.
Proof.
  unfold isAggregateCall, namesKnown. destruct tok as [tok|]; [|by intros [= <-]].
  destruct (lookupSymbol _) as [s|]; [done|]. intros [= <-]. split; [done|].
  apply bool_decide_eq_false. by intros [? [=]].
Qed.

(** The search, against the tree it walks over. *)
Lemma hasAggregationExpression_rec_read (k : nat) (h : heap) :
  ∀ a t, readAST_rec k h a = Ok t →
    (∀ e, hasAggregationExpression_rec k h a = Err e →
          e = AssertionFailed ∧ knownCalls t = false) ∧
    (∀ b, hasAggregationExpression_rec k h a = Ok b →
          b = callsAggregate t ∧ (b = false → knownCalls t = true)).
Proof.
  induction k as [|k IH]; intros a t Hread; [done|].
  simpl in Hread. apply bind_Ok in Hread as (c & Hc & Hread).
  apply bind_Ok in Hread as (ts & Hts & [= <-]). apply readAll_Ok in Hts.
  cbn [hasAggregationExpression_rec]. rewrite Hc. cbn [mbind result_bind].
  cbn [callsAggregate knownCalls].
  assert ((∀ e, anyChild (hasAggregationExpression_rec k h) (children_ c) = Err e →
                e = AssertionFailed ∧ forallb knownCalls ts = false) ∧
          (∀ b, anyChild (hasAggregationExpression_rec k h) (children_ c) = Ok b →
                b = existsb callsAggregate ts ∧ (b = false → forallb knownCalls ts = true)))
    as [Herr Hok].
  { clear Hc. induction Hts as [|x tx l ts Hx _ IHl]; [by split; intros ? [= <-]|].
    destruct (IH _ _ Hx) as [Hxe Hxo]. destruct IHl as [Hle Hlo].
    cbn [anyChild existsb forallb].
    destruct (hasAggregationExpression_rec k h x) as [bx|ex]; cbn [mbind result_bind].
    - destruct (Hxo bx eq_refl) as [-> Hkx]. destruct (callsAggregate tx).
      + split; [done|]. by intros b [= <-].
      + rewrite (Hkx eq_refl). simpl. split; [apply Hle | apply Hlo].
    - destruct (Hxe ex eq_refl) as [-> ->]. split; [by intros e [= <-]|done]. }
  destruct (decide (type_ c = T_METHOD_CALL)) as [Hty|Hty].
  - rewrite bool_decide_eq_true_2 by done. cbn [andb].
    destruct (isAggregateCall (token_ c)) as [agg|e0] eqn:Hagg; cbn [mbind result_bind].
    + apply isAggregateCall_Ok in Hagg as [-> ->].
      destruct (namesAggregate (token_ c)); cbn [orb andb].
      * split; [done|]. by intros b [= <-].
      * split; [apply Herr | apply Hok].
    + apply isAggregateCall_Err in Hagg as [-> ->]. split; [by intros e [= <-]|done].
  - rewrite bool_decide_eq_false_2 by done. cbn [andb orb]. split; [apply Herr | apply Hok].
Qed.

(** X5. On a statement tree that can be read from the store, in which
    every call names a function of the symbol table,
    [hasAggregationExpression] returns, and it returns whether the tree
    contains a call of an aggregate function. *)
Theorem hasAggregationExpression_decides (h : heap) (a : addr) (t : tree) :
  readAST h a = Ok t → knownCalls t = true →
  hasAggregationExpression h a = Ok (callsAggregate t).
Proof.
  intros Hread Hknown.
  destruct (hasAggregationExpression_rec_read _ _ _ _ Hread) as [Herr Hok].
  unfold hasAggregationExpression.
  destruct (hasAggregationExpression_rec _ _ _) as [b|e].
  - by destruct (Hok b eq_refl) as [-> _].
  - destruct (Herr e eq_refl) as [_ Hf]. congruence.
Qed.

(** X6. [hasAggregationExpression] on a readable statement tree fails in
    one way only, the assertion on a call without a token or of an
    unknown function; an answer is always the truth about the tree, and
    the answer [false] is only given when all calls of the tree are
    known. *)
Theorem hasAggregationExpression_failure (h : heap) (a : addr) (t : tree) :
  readAST h a = Ok t →
  (∀ e, hasAggregationExpression h a = Err e →
        e = AssertionFailed ∧ knownCalls t = false) ∧
  (∀ b, hasAggregationExpression h a = Ok b → b = callsAggregate t) ∧
  (hasAggregationExpression h a = Ok false → knownCalls t = true).
Proof.
  intros Hread.
  destruct (hasAggregationExpression_rec_read _ _ _ _ Hread) as [Herr Hok].
  split; [exact Herr|]. split.
  - intros b Hb. by destruct (Hok b Hb).
  - intros Hb. by destruct (Hok false Hb) as [_ ->].
Qed.
End AggregateSearch.

(** ** The shape tests of the dispatch *)

Section ShapeTests.
Context `{Collaborators}.
Import ASTNode QueryPlan.

Lemma readAST_rec_more (k k' : nat) (h : heap) (a : addr) (t : tree) :
  readAST_rec k h a = Ok t → k ≤ k' → readAST_rec k' h a = Ok t.
Proof. intros Hr Hk. eapply readAST_rec_keeps; [done | done | apply keeps_refl]. Qed.

(** What a successful read says about the object at the root. *)
Lemma readAST_root (h : heap) (a : addr) (t : tree) :
  readAST h a = Ok t →
  ∃ c, h !! a = Some c ∧ type_ c = treeType t ∧
       Forall2 (λ x tx, readAST h x = Ok tx) (children_ c) (treeKids t).
Proof.
  intros Hr. unfold readAST in Hr. cbn [readAST_rec] in Hr.
  apply bind_Ok in Hr as (c & Hc & Hr). apply get_Ok in Hc.
  apply bind_Ok in Hr as (ts & Hts & [= <-]). apply readAll_Ok in Hts.
  exists c. split; [done|]. split; [done|]. cbn [treeKids].
  eapply Forall2_impl; [done|]. intros x tx Hx. simpl in Hx.
  unfold readAST. eapply readAST_rec_more; [done | lia].
Qed.

Lemma anyType_read (h : heap) (ty : kASTNodeType) (l : list addr) (ts : list tree) :
  Forall2 (λ x tx, readAST h x = Ok tx) l ts →
  anyType h ty l = Ok (existsb (λ t, bool_decide (treeType t = ty)) ts).
Proof.
  induction 1 as [|x tx l ts Hx _ IH]; [done|]. cbn [anyType existsb].
  apply readAST_root in Hx as (c & Hc & Hty & _).
  unfold get. rewrite Hc. cbn [deref mbind result_bind]. rewrite Hty.
  destruct (decide (treeType tx = ty)) as [Heq|Hne].
  - by rewrite bool_decide_eq_true_2.
  - by rewrite bool_decide_eq_false_2.
Qed.

(** X7. [hasGroupByClause] on a readable statement answers [true]
    exactly for a SELECT node with at least two children one of which is
    tagged GROUP_BY; a GROUP BY clause that is the only child of its
    SELECT is not seen. *)
Theorem hasGroupByClause_decides (h : heap) (ast : addr) (t : tree) :
  readAST h ast = Ok t →
  hasGroupByClause h ast
  = Ok (bool_decide (treeType t = T_SELECT) && (2 <=? length (treeKids t))
        && existsb (λ k, bool_decide (treeType k = T_GROUP_BY)) (treeKids t)).
Proof.
  intros Hread. apply readAST_root in Hread as (c & Hc & Hty & Hkids).
  unfold hasGroupByClause, get. rewrite Hc. cbn [deref mbind result_bind].
  rewrite Hty, (Forall2_length _ _ _ Hkids).
  destruct (bool_decide (treeType t = T_SELECT)); [|done]. cbn [negb orb andb].
  destruct (length (treeKids t)) as [|[|n]] eqn:Hlen; [done..|].
  cbn [Nat.ltb Nat.leb orb andb]. by apply anyType_read.
Qed.

End ShapeTests.

(** ** buildQueryPlan: which plan for which statement *)

Section PlanKind.
Context `{Collaborators}.
Import ASTNode QueryPlan.

Lemma findType_None (h : heap) (ty : kASTNodeType) (l : list addr) (i : nat) :
  findType h ty l i = Ok None → anyType h ty l = Ok false.
Proof.
  revert i. induction l as [|a l IH]; intros i; simpl; [done|].
  destruct (get h a) as [c|e]; simpl; [|done].
  destruct (decide (type_ c = ty)); [done | apply IH].
Qed.

Lemma LimitClause_build_None
    (plan : heap → addr → result (heap * Executable)) (h : heap) (ast : addr) :
  LimitClause_build plan h ast = Ok None → hasLimitClause h ast = Ok false.
Proof.
  unfold LimitClause_build, hasLimitClause. intros Hb.
  apply bind_Ok in Hb as (n & Hn & Hb). rewrite Hn. simpl.
  apply bind_Ok in Hb as (found & Hf & Hb). destruct found as [i|].
  - apply bind_Ok in Hb as (? & _ & Hb). apply bind_Ok in Hb as (? & _ & Hb).
    apply bind_Ok in Hb as (? & _ & Hb). apply bind_Ok in Hb as ([? ?] & _ & Hb).
    apply bind_Ok in Hb as (? & _ & Hb). by apply bind_Ok in Hb as ([? ?] & _ & Hb).
  - by eapply findType_None.
Qed.

Lemma LimitClause_build_Some
    (plan : heap → addr → result (heap * Executable)) (h : heap) (ast : addr)
    (h' : heap) (e : Executable) :
  LimitClause_build plan h ast = Ok (Some (h', e)) →
  hasLimitClause h ast = Ok true ∧ ∃ limit offset child, e = LimitClause limit offset child.
Proof.
  intros Hb. split; [by eapply LimitClause_build_without_limit|].
  unfold LimitClause_build in Hb.
  apply bind_Ok in Hb as (n & Hn & Hb). apply bind_Ok in Hb as (found & Hf & Hb).
  destruct found as [i|]; [|done].
  apply bind_Ok in Hb as (? & _ & Hb). apply bind_Ok in Hb as (cl & _ & Hb).
  apply bind_Ok in Hb as (offset & _ & Hb). apply bind_Ok in Hb as ([? ?] & _ & Hb).
  apply bind_Ok in Hb as (? & _ & Hb). apply bind_Ok in Hb as ([? inner] & _ & [= <- <-]).
  by eexists _, _, _.
Qed.


Lemma buildSeriesStatement_is_Series
    (plan : heap → addr → result (heap * Executable)) (h : heap) (ast : addr)
    (h' : heap) (e : Executable) :
  buildSeriesStatement plan h ast = Ok (h', e) →
  ∃ columns name child, e = SeriesStatement columns name child.
Proof.
  unfold buildSeriesStatement. intros Hb.
  do 9 (apply bind_Ok in Hb as (? & _ & Hb)).
  apply bind_Ok in Hb as ([? ?] & _ & Hb).
  apply bind_Ok in Hb as (? & _ & Hb). apply bind_Ok in Hb as (? & _ & Hb).
  apply bind_Ok in Hb as ([? ?] & _ & Hb). apply bind_Ok in Hb as ([? ?] & _ & Hb).
  apply bind_Ok in Hb as (? & _ & [= <- <-]). by eexists _, _, _.
Qed.

End PlanKind.

(** ** More on the metric HTTP API *)

Section HTTPAPIMore.
Context `{Library}.
Import http MetricRepository HTTPAPI.

(** X1. A GET on /metrics/{key} never changes the stored metrics, and
    its status is decided by the key alone: 400 exactly for a key shorter
    than 3 characters, 404 exactly for a longer key without a metric, 200
    exactly for a longer key with a metric. *)
Theorem renderMetricSampleScan_read_only (now : Z) (repo : MetricRepository)
    (response : HTTPResponse) (key : string) (params : list (string * string)) :
  ∃ repo' response',
    renderMetricSampleScan now repo response (URI.mk (metricPath key) params)
      = Ok (repo', response') ∧
    metrics repo' = metrics repo ∧
    (status response' = Some kStatusBadRequest ↔ String.length key < 3) ∧
    (status response' = Some kStatusNotFound
       ↔ 3 ≤ String.length key ∧ metrics repo !! key = None) ∧
    (status response' = Some kStatusOK
       ↔ 3 ≤ String.length key ∧ is_Some (metrics repo !! key)).
Proof.
  unfold renderMetricSampleScan. cbn [URI.path].
  rewrite substr_metricPath. cbn [mbind result_bind].
  unfold kStatusBadRequest, kStatusNotFound, kStatusOK.
  case_decide as Hlen.
  { eexists _, _. split; [done|]. split; [done|]. cbn [status setStatus].
    split; [|split].
    - split; [done | done].
    - split; [intros [=] | intros [? _]; lia].
    - split; [intros [=] | intros [? _]; lia]. }
  unfold findMetric, scanSamples, log.
  destruct (metrics repo !! key) as [samples|] eqn:Hk.
  - eexists _, _. split; [done|]. split; [done|].
    cbn [status setStatus addHeader addBody].
    split; [|split].
    + split; [intros [=] | done].
    + split; [intros [=] | intros [_ [=]]].
    + split; [intros _; split; [lia | by eexists] | done].
  - eexists _, _. split; [done|]. split; [done|].
    cbn [status setStatus addBody].
    split; [|split].
    + split; [intros [=] | done].
    + split; [intros _; split; [lia | done] | done].
    + split; [intros [=] | intros [_ [? [=]]]].
Qed.

(** X2. [renderMetricList] answers 200 and appends one JSON array to the
    body whose entries are one object per metric of the repository,
    naming exactly the keys that have a metric; the stored metrics are
    not changed. *)
Theorem renderMetricList_keys (repo : MetricRepository) (response : HTTPResponse) :
  ∃ repo' response' entries,
    renderMetricList repo response = (repo', response') ∧
    metrics repo' = metrics repo ∧
    status response' = Some kStatusOK ∧
    body response'
      = body response ++ [BeginObject; ObjectEntry "metrics"; BeginArray]
        ++ entries ++ [EndArray; EndObject] ∧
    length entries = 4 * size (metrics repo) ∧
    ∀ k, JString k ∈ entries ↔ is_Some (metrics repo !! k).
Proof.
  unfold renderMetricList, listMetrics, log. eexists _, _, _.
  split; [done|]. split; [done|]. split; [done|]. split; [done|].
  generalize (length_map_to_list (metrics repo)).
  assert (∀ k, k ∈ (map_to_list (metrics repo)).*1 ↔ is_Some (metrics repo !! k)) as Hkeys.
  { intros k. rewrite list_elem_of_fmap. split.
    - intros ([k' v] & -> & Hin). apply elem_of_map_to_list in Hin. by eexists.
    - intros [v Hv]. exists (k, v). split; [done|]. by apply elem_of_map_to_list. }
  rewrite <- (length_fmap fst).
  revert Hkeys. generalize ((map_to_list (metrics repo)).*1). intros keys Hkeys <-.
  split.
  - clear Hkeys. induction keys as [|k keys IH]; [done|].
    csimpl. rewrite IH. lia.
  - intros k. rewrite <- Hkeys. clear Hkeys.
    induction keys as [|k' keys IH]; [by rewrite !elem_of_nil|].
    csimpl. rewrite !elem_of_cons, IH.
    split; [intros [[=]|[[=]|[[= ->]|[[=]|?]]]]; auto | intros [->|?]; auto 6].
Qed.

(** X3. A sample that was accepted can be asked for: after a POST on
    /metrics/{key} that ended with 201, a GET on the same path answers
    200, whatever the repository held before. *)
Theorem insertSample_then_scan (now now' : Z) (repo : MetricRepository)
    (response response2 : HTTPResponse) (key : string)
    (params params' : list (string * string)) (repo1 : MetricRepository)
    (response1 : HTTPResponse) :
  insertSample now repo response (URI.mk (metricPath key) params) = Ok (repo1, response1) →
  status response1 = Some kStatusCreated →
  ∃ repo2 response3,
    renderMetricSampleScan now' repo1 response2 (URI.mk (metricPath key) params')
      = Ok (repo2, response3) ∧
    status response3 = Some kStatusOK.
Proof.
  unfold insertSample, renderMetricSampleScan. cbn [URI.path URI.queryParams].
  rewrite substr_metricPath. cbn [mbind result_bind].
  case_decide as Hlen; [intros [= <- <-] [=]|].
  destruct (URI.getParam params "value") as [s|]; [|intros [= <- <-] [=]].
  destruct (stod s) as [v|]; [|intros [= <- <-] [=]].
  unfold findOrCreateMetric, addSample, findMetric, scanSamples, log.
  destruct (metrics repo !! key) as [l|] eqn:Hk; intros [= <- <-] _; cbn [metrics].
  - rewrite lookup_alter_eq, Hk. cbn. by eexists _, _.
  - rewrite lookup_alter_eq, lookup_insert_eq. cbn. by eexists _, _.
Qed.

Lemma prefix_length (p s : string) :
  String.prefix p s = true → String.length p ≤ String.length s.
Proof.
  revert s. induction p as [|c p IH]; intros s; [simpl; lia|].
  destruct s as [|d s]; [done|]. simpl.
  destruct (Ascii.ascii_dec c d); [|done]. intros Hp. apply IH in Hp. lia.
Qed.

Lemma prefix_trans_length (p q s : string) :
  String.prefix p q = true → String.prefix q s = true →
  String.length p ≤ String.length s.
Proof. intros Hp Hq. apply prefix_length in Hp, Hq. lia. Qed.

(** X4. Reached through [handleHTTPRequest], the handlers never throw:
    when stripping trailing slashes yields a prefix of the path, the
    dispatcher returns for every request, and a request it does not
    handle leaves the repository and the response as they were. *)
Theorem handleHTTPRequest_returns (now : Z) (repo : MetricRepository)
    (request : HTTPRequest) (response : HTTPResponse) :
  (∀ s, String.prefix (stripTrailingSlashes s) s = true) →
  ∃ handled repo' response',
    handleHTTPRequest now repo request response = Ok (handled, repo', response') ∧
    (handled = false → repo' = repo ∧ response' = response).
Proof.
  intros Hstrip. unfold handleHTTPRequest.
  case_decide as Hlist.
  { destruct (method request); [|by eexists _, _, _..].
    destruct (renderMetricList repo response) as [repo' response'] eqn:Hl.
    by eexists _, _, _. }
  destruct (hasPrefix _ _) eqn:Hpre.
  - assert (substr (URI.path (uri request)) (String.length kMetricsUrlPrefix)
            = Ok (string_drop (String.length kMetricsUrlPrefix) (URI.path (uri request))))
      as Hsub.
    { unfold substr. case_decide as Hn; [done|]. exfalso. apply Hn.
      by eapply prefix_trans_length. }
    destruct (method request); [| |by eexists _, _, _].
    + unfold renderMetricSampleScan. rewrite Hsub. cbn [mbind result_bind].
      case_decide; [by eexists _, _, _|].
      destruct (findMetric _ _) as [repo1 [m|]]; [|by eexists _, _, _].
      destruct (scanSamples _ _ _ _). by eexists _, _, _.
    + unfold insertSample. rewrite Hsub. cbn [mbind result_bind].
      case_decide; [by eexists _, _, _|].
      destruct (URI.getParam _ _); [|by eexists _, _, _].
      destruct (stod _); [|by eexists _, _, _].
      destruct (findOrCreateMetric _ _). by eexists _, _, _.
  - case_decide; [|by eexists _, _, _].
    destruct (method request); by eexists _, _, _.
Qed.

Lemma renderMetricSampleScan_metrics (now : Z) (repo : MetricRepository)
    (response : HTTPResponse) (uri : URI.URI) (repo' : MetricRepository)
    (response' : HTTPResponse) :
  renderMetricSampleScan now repo response uri = Ok (repo', response') →
  metrics repo' = metrics repo.
Proof.
  unfold renderMetricSampleScan. intros Hb.
  apply bind_Ok in Hb as (key & _ & Hb).
  case_decide; [by injection Hb as <- _|].
  unfold findMetric, scanSamples, log in Hb.
  by destruct (metrics repo !! key); injection Hb as <- _.
Qed.

Lemma insertSample_metrics (now : Z) (repo : MetricRepository)
    (response : HTTPResponse) (uri : URI.URI) (repo' : MetricRepository)
    (response' : HTTPResponse) :
  insertSample now repo response uri = Ok (repo', response') →
  metrics repo' ≠ metrics repo → status response' = Some kStatusCreated.
Proof.
  unfold insertSample. intros Hb.
  apply bind_Ok in Hb as (key & _ & Hb).
  case_decide; [by injection Hb as <- _|].
  destruct (URI.getParam _ _); [|by injection Hb as <- _].
  destruct (stod _); [|by injection Hb as <- _].
  destruct (findOrCreateMetric repo key). by injection Hb as _ <-.
Qed.

(** X16. Only an accepted sample changes what is stored.  When
    [handleHTTPRequest] returns with other metrics in the repository
    than before, the request was a POST below /metrics/ that was
    handled and answered with 201; a GET, a request to /metrics or
    /query, and a request that is not handled never change the stored
    metrics. *)
Theorem handleHTTPRequest_writes (now : Z) (repo : MetricRepository)
    (request : HTTPRequest) (response : HTTPResponse)
    (handled : bool) (repo' : MetricRepository) (response' : HTTPResponse) :
  handleHTTPRequest now repo request response = Ok (handled, repo', response') →
  metrics repo' ≠ metrics repo →
  method request = M_POST ∧
  hasPrefix kMetricsUrlPrefix (stripTrailingSlashes (URI.path (uri request))) = true ∧
  handled = true ∧ status response' = Some kStatusCreated.
Proof.
  unfold handleHTTPRequest. intros Hb Hne.
  case_decide as Hlist.
  { by destruct (method request); injection Hb as _ <- _. }
  destruct (hasPrefix _ _) eqn:Hpre.
  - destruct (method request); [| |by injection Hb as _ <- _].
    + apply bind_Ok in Hb as ([repo1 response1] & Hscan & [= _ <- _]).
      by apply renderMetricSampleScan_metrics in Hscan.
    + apply bind_Ok in Hb as ([repo1 response1] & Hins & [= <- <- <-]).
      by apply insertSample_metrics in Hins.
  - case_decide; [|by injection Hb as _ <- _].
    by destruct (method request); injection Hb as _ <- _.
Qed.
End HTTPAPIMore.

(** ** The push-down appends, and can be read backwards *)

Section PushDownAppend.
Context `{Collaborators}.
Import ASTNode QueryPlan.

Lemma clone_clone (t : tree) : clone (clone t) = clone t.
Proof.
  induction t as [ty tok id kids IH] using tree_nested_ind. cbn [clone]. f_equal.
  rewrite <- list_fmap_compose. apply Forall_fmap_ext_1.
  eapply Forall_impl; [exact IH|]. by intros k Hk.
Qed.

Lemma columns_clone (t : tree) : columns (clone t) = clone <$> columns t.
Proof.
  induction t as [ty tok id kids IH] using tree_nested_ind. cbn [clone columns].
  destruct (decide (ty = T_COLUMN_NAME)); [done|].
  induction IH as [|k kids Hk _ IHkids]; [done|].
  rewrite fmap_cons, !bind_cons, fmap_app. by rewrite Hk, IHkids.
Qed.

Lemma derived_clone (t : tree) : derived (clone t) = derived t.
Proof. unfold derived. by rewrite clone_clone. Qed.

(** Inlining undoes the push-down of one expression, wherever its
    entries lie in the select list. *)
Lemma inline_pushDown (t : tree) :
  clone t = t →
  ∀ first before after,
    inline first (before ++ (derived <$> columns t) ++ after)
           (pushDown t (first + length before)) = t.
Proof.
  induction t as [ty tok id kids IH] using tree_nested_ind.
  intros Hfix first before after. cbn [clone] in Hfix.
  injection Hfix as Hid Hkids. subst id.
  cbn [pushDown columns]. destruct (decide (ty = T_COLUMN_NAME)) as [->|Hty].
  - cbn [inline fmap list_fmap]. unfold pointee.
    destruct (decide (T_RESOLVED_COLUMN = T_RESOLVED_COLUMN)); [|done].
    cbn [mbind option_bind]. case_decide; [|lia].
    replace (Z.to_nat (Z.of_nat (first + length before)) - first) with (length before + 0)
      by lia.
    rewrite lookup_app_r, Nat.add_comm, Nat.add_sub by lia. cbn.
    by rewrite Hkids.
  - cbn [inline]. unfold pointee. cbn [mbind option_bind].
    replace (if decide (ty = T_RESOLVED_COLUMN) then None else None)
      with (@None tree) by by destruct (decide _).
    f_equal. clear Hty tok.
    revert before after Hkids.
    induction IH as [|k kids Hk _ IHkids]; intros before after Hkids; [done|].
    rewrite fmap_cons in Hkids. injection Hkids as Hk' Hkids.
    cbn [rewriteEach]. rewrite fmap_cons, bind_cons, fmap_app. f_equal.
    + rewrite <- (assoc (++)). by apply Hk.
    + specialize (IHkids (before ++ (derived <$> columns k)) after Hkids).
      rewrite length_app, length_fmap, Nat.add_assoc, <- (assoc (++)) in IHkids.
      rewrite <- (assoc (++)). exact IHkids.
Qed.

(** X11. The push-down only appends to its target.  On a statement tree
    of distinct objects and a target select list outside of it, the
    entries the target had stay where they are, one new entry per
    column reference is added behind them, read back as the derived
    columns of the references in order of occurrence; the tree reads
    back with its references resolved to indices that continue where
    the old entries end; the new entries are new objects, and no other
    object of the store is touched. *)
Theorem buildInternalSelectList_appends
    (h : heap) (target : addr) (t : atree) (tl : ASTNode) :
  models h t → NoDup (addrs t) → target ∉ addrs t → h !! target = Some tl →
  ∃ h' new,
    buildInternalSelectList h (root t) target = Ok (h', true) ∧
    h' !! target = Some (setChildren tl (children_ tl ++ new)) ∧
    readAll (readAST h') new = Ok (derived <$> columns (erase t)) ∧
    readAST h' (root t) = Ok (pushDown (erase t) (length (children_ tl))) ∧
    Forall (λ a, length h ≤ a < length h') new ∧
    (∀ a, a < length h → a ∉ addrs t → a ≠ target → h' !! a = h !! a).
Proof.
  intros Hm Hnd Hnin Ht.
  destruct (push_tree_run h target t tl Hm Hnd Hnin Ht)
    as (h' & cols & Hrun & Hm' & He & [Ht' Hmc [Hsep Hfresh] _ Hframe]).
  exists h', (root <$> cols). split; [done|]. split; [done|]. split; [|split; [|split]].
  - rewrite <- He. by apply readAll_models.
  - rewrite <- erase_resolve, <- (root_resolve t (length (children_ tl))).
    apply readAST_models; [done|]. by rewrite addrs_resolve.
  - apply Forall_fmap. rewrite Forall_forall in Hfresh.
    apply Forall_forall. intros c Hc. apply Hfresh.
    apply list_elem_of_bind. exists c. split; [apply root_in_addrs | done].
  - done.
Qed.

(** X12. The push-down loses nothing.  For an expression without
    resolved indices (a fresh copy), reading back the rewritten
    expression and the entries added to the target, and putting each
    entry back in the place of the resolved column that points at it,
    gives the expression as it was before the run. *)
Theorem buildInternalSelectList_round_trip
    (h : heap) (target : addr) (t : atree) (tl : ASTNode) :
  models h t → NoDup (addrs t) → target ∉ addrs t → h !! target = Some tl →
  clone (erase t) = erase t →
  ∃ h' tl' entries resolved,
    buildInternalSelectList h (root t) target = Ok (h', true) ∧
    h' !! target = Some tl' ∧
    readAll (readAST h') (drop (length (children_ tl)) (children_ tl')) = Ok entries ∧
    readAST h' (root t) = Ok resolved ∧
    inline (length (children_ tl)) entries resolved = erase t.
Proof.
  intros Hm Hnd Hnin Ht Hfix.
  destruct (push_tree_run h target t tl Hm Hnd Hnin Ht)
    as (h' & cols & Hrun & Hm' & He & [Ht' Hmc [Hsep _] _ _]).
  eexists h', _, (derived <$> columns (erase t)),
    (pushDown (erase t) (length (children_ tl))).
  split; [done|]. split; [done|]. split; [|split].
  - cbn [setChildren children_]. rewrite drop_app_length, <- He.
    by apply readAll_models.
  - rewrite <- erase_resolve, <- (root_resolve t (length (children_ tl))).
    apply readAST_models; [done|]. by rewrite addrs_resolve.
  - pose proof (inline_pushDown (erase t) Hfix (length (children_ tl)) [] []) as Hin.
    by rewrite app_nil_r, Nat.add_0_r in Hin.
Qed.
End PushDownAppend.

(** ** buildGroupBy: the trees it builds *)

Section DropFirst.
Context {A : Type} (P : A → Prop) `{∀ x, Decision (P x)}.

Lemma dropFirst_Forall (Q : A → Prop) (l : list A) :
  Forall Q l → Forall Q (dropFirst P l).
Proof.
  induction 1 as [|x l Hx Hl IH]; simpl; [done|].
  destruct (decide (P x)); [done | by constructor].
Qed.

Lemma dropFirst_sublist (l : list A) : dropFirst P l `sublist_of` l.
Proof.
  induction l as [|x l IH]; simpl; [done|].
  destruct (decide (P x)); [by apply sublist_cons | by apply sublist_skip].
Qed.

Lemma iter_dropFirst_sublist (n : nat) (l : list A) :
  Nat.iter n (dropFirst P) l `sublist_of` l.
Proof.
  induction n as [|n IH]; simpl; [done|].
  etrans; [apply dropFirst_sublist | done].
Qed.

Lemma iter_dropFirst_keep (n : nat) (x : A) (l : list A) :
  ¬ P x → Nat.iter n (dropFirst P) (x :: l) = x :: Nat.iter n (dropFirst P) l.
Proof.
  intros Hx. induction n as [|n IH]; simpl; [done|].
  rewrite IH. simpl. by destruct (decide (P x)).
Qed.

Lemma iter_dropFirst_nil (n : nat) : Nat.iter n (dropFirst P) [] = [].
Proof. induction n as [|n IH]; simpl; [done|]. by rewrite IH. Qed.

(** Dropping the first match once per match drops them all. *)
Lemma iter_dropFirst_filter (l : list A) (n : nat) :
  length (filter P l) ≤ n →
  Nat.iter n (dropFirst P) l = filter (λ x, ¬ P x) l.
Proof.
  revert n. induction l as [|x l IH]; intros n Hn.
  { apply iter_dropFirst_nil. }
  rewrite filter_cons in Hn. rewrite (filter_cons (λ x, ¬ P x)).
  destruct (decide (P x)) as [Hx|Hx].
  - destruct (decide (¬ P x)); [done|]. simpl in Hn.
    destruct n as [|n]; [lia|]. rewrite Nat.iter_succ_r. simpl.
    destruct (decide (P x)); [|done]. apply IH. lia.
  - destruct (decide (¬ P x)); [|done].
    rewrite iter_dropFirst_keep by done. f_equal. by apply IH.
Qed.
End DropFirst.

Section GroupByPure.
Import ASTNode.

Lemma dropFirst_erase (ks : list atree) :
  erase <$> dropFirst (λ k, isGroupByClause (erase k)) ks
  = dropFirst isGroupByClause (erase <$> ks).
Proof.
  induction ks as [|k ks IH]; [done|]. rewrite fmap_cons. simpl.
  destruct (decide (isGroupByClause (erase k))); [done|].
  by rewrite fmap_cons, IH.
Qed.

Lemma iter_dropFirst_erase (n : nat) (ks : list atree) :
  erase <$> Nat.iter n (dropFirst (λ k, isGroupByClause (erase k))) ks
  = Nat.iter n (dropFirst isGroupByClause) (erase <$> ks).
Proof.
  induction n as [|n IH]; simpl; [done|]. by rewrite dropFirst_erase, IH.
Qed.

Lemma treeType_clone (t : tree) : treeType (clone t) = treeType t.
Proof. by destruct t. Qed.

Lemma filter_clone (P : tree → Prop) `{∀ t, Decision (P t)} (l : list tree) :
  (∀ t, P (clone t) ↔ P t) →
  filter P (clone <$> l) = clone <$> filter P l.
Proof.
  intros HP. induction l as [|t l IH]; [done|].
  rewrite fmap_cons, !filter_cons.
  destruct (decide (P (clone t))) as [Hc|Hc], (decide (P t)) as [Ht|Ht].
  - by rewrite fmap_cons, IH.
  - destruct Ht. by apply HP.
  - destruct Hc. by apply HP.
  - done.
Qed.

Lemma rewriteEach_app {T} (f : T → nat → T) (count : T → nat) (l1 l2 : list T)
    (next : nat) :
  rewriteEach f count (l1 ++ l2) next
  = rewriteEach f count l1 next
    ++ rewriteEach f count l2 (next + foldr (λ k n, count k + n) 0 l1).
Proof.
  revert next. induction l1 as [|k l1 IH]; intros next; simpl.
  { by rewrite Nat.add_0_r. }
  f_equal. rewrite IH. by rewrite Nat.add_assoc.
Qed.

Lemma length_columns_sum (l : list tree) :
  foldr (λ k n, length (columns k) + n) 0 l = length (l ≫= columns).
Proof.
  induction l as [|k l IH]; [done|]. cbn [foldr]. by rewrite bind_cons, length_app, IH.
Qed.

Lemma columns_clones (l : list tree) :
  (clone <$> l) ≫= columns = clone <$> (l ≫= columns).
Proof.
  induction l as [|k l IH]; [done|].
  by rewrite fmap_cons, !bind_cons, fmap_app, columns_clone, IH.
Qed.

Lemma derived_clones (l : list tree) : derived <$> (clone <$> l) = derived <$> l.
Proof.
  rewrite <- list_fmap_compose. apply list_fmap_ext. intros _ t _. apply derived_clone.
Qed.

Lemma groupKeys_cons (t : tree) (l : list tree) :
  groupKeys (t :: l)
  = (if decide (isGroupByClause t) then treeKids t else []) ++ groupKeys l.
Proof.
  unfold groupKeys. rewrite filter_cons.
  destruct (decide (isGroupByClause t)); [by rewrite bind_cons | done].
Qed.
End GroupByPure.

Section FindClause.
Context `{Collaborators}.
Import ASTNode QueryPlan.

Lemma findType_dropFirst (h : heap) (ks : list atree) (i : nat) :
  Forall (models h) ks →
  (findType h T_GROUP_BY (root <$> ks) i = Ok None ∧
   dropFirst (λ k : atree, isGroupByClause (erase k)) ks = ks) ∨
  (∃ j, findType h T_GROUP_BY (root <$> ks) i = Ok (Some (i + j)) ∧
        j < length ks ∧
        delete j ks = dropFirst (λ k : atree, isGroupByClause (erase k)) ks).
Proof.
  intros Hm. revert i. induction Hm as [|k ks Hk _ IH]; intros i; [by left|].
  rewrite fmap_cons. cbn [findType dropFirst]. unfold get.
  rewrite (models_root _ _ Hk). cbn [deref mbind result_bind].
  assert (type_ (cell k) = treeType (erase k)) as -> by by destruct k.
  destruct (decide (isGroupByClause (erase k))) as [Hty|Hty].
  - rewrite decide_True by exact Hty.
    right. exists 0. rewrite Nat.add_0_r. split; [done|]. split; [simpl; lia | done].
  - rewrite decide_False by exact Hty.
    destruct (IH (S i)) as [[Hnone Hsame]|(j & Hsome & Hj & Hdel)].
    + left. split; [done|]. by rewrite Hsame.
    + right. exists (S j). rewrite Nat.add_succ_r. split; [done|].
      split; [simpl; lia|]. cbn [delete list_delete]. by rewrite <- Hdel.
Qed.
End FindClause.

Section GroupingLoop.
Context `{Collaborators}.
Import ASTNode QueryPlan.

Variables (h0 : heap) (top : nat) (ge child_sl child_ast : addr) (stmt : ASTNode).
Variables (old cs1 : list atree).
Hypothesis Hge : length h0 ≤ ge < top.
Hypothesis Hsl : length h0 ≤ child_sl < top.
Hypothesis Hca : length h0 ≤ child_ast < top.
Hypothesis Hne : ge ≠ child_sl ∧ ge ≠ child_ast ∧ child_sl ≠ child_ast.
Hypothesis Hold :
  Forall (λ a, a < top ∧ a ≠ ge ∧ a ≠ child_sl ∧ a ≠ child_ast) (old ≫= addrs).

(** A step that only touches the container, the child select list and
    new objects keeps what the search has collected. *)
Lemma grouping_step (h h' : heap) (gs cs2 ks : list atree) :
  grouping h0 top ge child_sl child_ast stmt old cs1 h gs cs2 ks →
  length h ≤ length h' →
  (∀ a, a < length h → a ≠ ge → a ≠ child_sl → a ≠ child_ast → h' !! a = h !! a) →
  keeps (length h0) h0 h' ∧ Forall (models h') old ∧ top ≤ length h' ∧
  Forall (models h') gs ∧ allocated top (length h') gs ∧
  Forall (models h') cs2 ∧ allocated top (length h') cs2.
Proof using Type*.
  intros [Hk Ho Ht Hg Hs Hc Hks Hgs Hgn Hcs Hcn] Hlen Hsame.
  assert (∀ ts, Forall (models h) ts → allocated top (length h) ts →
                Forall (models h') ts) as Hnew.
  { intros ts Hm [_ Hr]. apply (Forall_models_frame h); [done|].
    intros a Ha. rewrite Forall_forall in Hr. specialize (Hr a Ha).
    apply Hsame; lia. }
  split; [|split; [|split; [|split; [|split; [|split]]]]].
  - destruct Hk as [Hl Hk]. split; [lia|]. intros a Ha.
    rewrite Hsame by lia. by apply Hk.
  - apply (Forall_models_frame h); [done|]. intros a Ha.
    rewrite Forall_forall in Hold. specialize (Hold a Ha). apply Hsame; lia.
  - lia.
  - by apply Hnew.
  - eapply allocated_le; [| |exact Hgn]; lia.
  - by apply Hnew.
  - eapply allocated_le; [| |exact Hcn]; lia.
Qed.

(** Copying the keys of one GROUP BY clause. *)
Lemma copyGroupExprs_grouping (l : list addr) (keys : list tree) :
  Forall2 (λ a t, readAST h0 a = Ok t) l keys →
  ∀ h gs cs2 ks,
    grouping h0 top ge child_sl child_ast stmt old cs1 h gs cs2 ks →
    ∃ h' gs' cs2',
      copyGroupExprs h ge child_sl l = Ok h' ∧
      grouping h0 top ge child_sl child_ast stmt old cs1 h' (gs ++ gs') (cs2 ++ cs2') ks ∧
      erase <$> gs'
      = rewriteEach pushDown (λ k, length (columns k)) (clone <$> keys)
                    (length cs1 + length cs2) ∧
      erase <$> cs2' = derived <$> (keys ≫= columns).
Proof using Type*.
  induction 1 as [|g key l keys Hkey _ IH]; intros h gs cs2 ks Hinv.
  { exists h, [], []. by rewrite !app_nil_r. }
  pose proof Hinv as [Hk Ho Ht Hg Hs Hc Hks Hgs Hgn Hcs Hcn].
  cbn [copyGroupExprs].
  (* the copy *)
  destruct (deepCopy_clone_later h0 h g key Hkey Hk)
    as (h1 & E & Hcopy & Hk1 & HmE & HeE & HaE).
  rewrite Hcopy. cbn [mbind result_bind].
  pose proof HaE as [HndE HrE]%allocated_singleton. rewrite Forall_forall in HrE.
  destruct Hk1 as [Hl1 Hk1].
  (* the push-down into the child select list *)
  set (tl := cell (ANode child_sl T_SELECT_LIST None None (cs1 ++ cs2))).
  assert (h1 !! child_sl = Some tl) as Htl by (rewrite Hk1 by lia; done).
  assert (child_sl ∉ addrs E) as HninE.
  { intros Hin. specialize (HrE _ Hin). lia. }
  destruct (push_tree_run h1 child_sl E tl HmE HndE HninE Htl)
    as (h2 & cols & Hpush & Hm2 & Hec & [Ht2 Hmc Hac Hl2 Hf2]).
  rewrite Hpush. cbn [mbind result_bind].
  (* the container gets the copy *)
  assert (h2 !! ge = Some (cell (ANode ge T_GROUP_BY None None gs))) as Hg2.
  { rewrite Hf2; [by rewrite Hk1 by lia | lia | | lia].
    intros Hin. specialize (HrE _ Hin). lia. }
  unfold appendChild. rewrite (update_Ok _ _ _ _ Hg2). cbn [mbind result_bind].
  set (n := length (children_ tl)) in *.
  set (h3 := <[ge := _]> h2).
  assert (n = length cs1 + length cs2) as Hn.
  { unfold n, tl. cbn [cell children_]. by rewrite length_fmap, length_app. }
  assert (length h3 = length h2) as Hl3 by apply length_insert.
  assert (∀ a, a < length h → a ≠ ge → a ≠ child_sl → h3 !! a = h !! a) as Hsame.
  { intros a Ha Hage Hasl. unfold h3. rewrite list_lookup_insert_ne by done.
    rewrite Hf2; [by apply Hk1 | lia | | done].
    intros Hin. specialize (HrE _ Hin). lia. }
  destruct (grouping_step h h3 gs cs2 ks Hinv ltac:(lia)
              (λ a Ha Hage Hasl _, Hsame a Ha Hage Hasl))
    as (Hk3 & Ho3 & Ht3 & Hgs3 & Hgn3 & Hcs3 & Hcn3).
  assert (h3 !! child_ast = Some (setChildren stmt (child_sl :: (root <$> ks))))
    as Hc3 by (rewrite Hsame; [done | lia | lia | lia]).
  assert (grouping h0 top ge child_sl child_ast stmt old cs1 h3
            (gs ++ [resolve E n]) (cs2 ++ cols) ks) as Hinv3.
  { split; try done.
    - unfold h3. rewrite list_lookup_insert_eq by (by eapply lookup_lt_Some).
      cbn [cell setChildren type_ token_ id_ children_]. do 2 f_equal.
      by rewrite fmap_app, fmap_cons, root_resolve.
    - unfold h3. rewrite list_lookup_insert_ne by lia. rewrite Ht2.
      unfold tl. cbn [cell setChildren type_ token_ id_ children_]. do 2 f_equal.
      by rewrite !fmap_app, (assoc (++)).
    - apply Forall_app. split; [done|]. apply Forall_singleton.
      apply (models_frame h2); [done|]. intros a Ha. rewrite addrs_resolve in Ha.
      specialize (HrE _ Ha). unfold h3. apply list_lookup_insert_ne. lia.
    - apply (allocated_app top (length h)); [lia | lia | done|].
      apply allocated_singleton. rewrite addrs_resolve. split; [done|].
      apply Forall_forall. intros a Ha. specialize (HrE _ Ha). lia.
    - apply Forall_app. split; [done|].
      apply (Forall_models_frame h2); [done|]. intros a Ha.
      destruct Hac as [_ Hrc]. rewrite Forall_forall in Hrc. specialize (Hrc _ Ha).
      unfold h3. apply list_lookup_insert_ne. lia.
    - apply (allocated_app top (length h1)); [lia | lia | |].
      + eapply allocated_le; [| |exact Hcn]; lia.
      + eapply allocated_le; [| |exact Hac]; lia. }
  destruct (IH h3 (gs ++ [resolve E n]) (cs2 ++ cols) ks Hinv3)
    as (h' & gs' & cs2' & Hrun & Hinv' & Hegs & Hecs).
  exists h', (resolve E n :: gs'), (cols ++ cs2').
  split; [done|]. split; [|split].
  - by rewrite <- !(assoc (++)) in Hinv'.
  - rewrite !fmap_cons. cbn [rewriteEach]. rewrite erase_resolve, HeE, Hn. f_equal.
    rewrite Hegs. f_equal. rewrite length_app.
    rewrite <- (length_fmap erase cols), Hec, length_fmap, HeE. cbn beta. lia.
  - rewrite bind_cons, !fmap_app, Hec, Hecs. f_equal.
    by rewrite HeE, columns_clone, derived_clones.
Qed.

(** Taking the first GROUP BY clause out of the child statement. *)
Lemma removeGroupBy_grouping (h : heap) (gs cs2 ks : list atree) :
  grouping h0 top ge child_sl child_ast stmt old cs1 h gs cs2 ks →
  ∃ h', removeGroupBy h child_ast = Ok h' ∧
        grouping h0 top ge child_sl child_ast stmt old cs1 h' gs cs2
          (dropFirst (λ k : atree, isGroupByClause (erase k)) ks).
Proof using Type*.
  intros Hinv. pose proof Hinv as [Hk Ho Ht Hg Hs Hc Hks Hgs Hgn Hcs Hcn].
  assert (Forall (models h) ks) as Hmk.
  { rewrite Forall_forall in Ho. eapply Forall_impl; [exact Hks|]. apply Ho. }
  unfold removeGroupBy, get. rewrite Hc.
  cbn [deref mbind result_bind setChildren children_ findType]. unfold get.
  rewrite Hs. cbn [deref mbind result_bind cell type_].
  destruct (decide (T_SELECT_LIST = T_GROUP_BY)); [done|].
  destruct (findType_dropFirst h ks 1 Hmk) as [[-> Hsame]|(j & -> & Hj & Hdel)].
  { exists h. by rewrite Hsame. }
  unfold removeChild, get. rewrite Hc. cbn [deref mbind result_bind setChildren children_].
  rewrite decide_True by (simpl; rewrite length_fmap; lia).
  eexists. split; [done|]. set (h' := <[child_ast := _]> h).
  assert (length h' = length h) as Hl by apply length_insert.
  assert (∀ a, a < length h → a ≠ ge → a ≠ child_sl → a ≠ child_ast →
               h' !! a = h !! a) as Hsame.
  { intros a _ _ _ Ha. unfold h'. by rewrite list_lookup_insert_ne. }
  destruct (grouping_step h h' gs cs2 ks Hinv ltac:(lia) Hsame)
    as (Hk' & Ho' & Ht' & Hgs' & Hgn' & Hcs' & Hcn').
  split; try done.
  - unfold h'. rewrite list_lookup_insert_ne by lia. done.
  - unfold h'. rewrite list_lookup_insert_ne by lia. done.
  - unfold h'. rewrite list_lookup_insert_eq by (by eapply lookup_lt_Some).
    assert (delete (1 + j) (child_sl :: (root <$> ks))
            = child_sl
              :: (root <$> dropFirst (λ k : atree, isGroupByClause (erase k)) ks))
      as ->; [|done].
    by rewrite <- Hdel, list_fmap_delete.
  - by apply dropFirst_Forall.
Qed.

(** The search over the children of the statement. *)
Lemma searchGroupBy_grouping (l : list addr) (lt : list tree) :
  Forall2 (λ a t, readAST h0 a = Ok t) l lt →
  ∀ h gs cs2 ks,
    grouping h0 top ge child_sl child_ast stmt old cs1 h gs cs2 ks →
    ∃ h' gs' cs2',
      searchGroupBy h ge child_sl child_ast l = Ok h' ∧
      grouping h0 top ge child_sl child_ast stmt old cs1 h' (gs ++ gs') (cs2 ++ cs2')
        (Nat.iter (length (filter isGroupByClause lt))
                  (dropFirst (λ k : atree, isGroupByClause (erase k))) ks) ∧
      erase <$> gs'
      = rewriteEach pushDown (λ k, length (columns k)) (clone <$> groupKeys lt)
                    (length cs1 + length cs2) ∧
      erase <$> cs2' = derived <$> (groupKeys lt ≫= columns).
Proof using Type*.
  induction 1 as [|a ct l lt Hct _ IH]; intros h gs cs2 ks Hinv.
  { exists h, [], []. by rewrite !app_nil_r. }
  pose proof Hinv as [[_ Hk] _ _ _ _ _ _ _ _ _ _].
  destruct (readAST_root _ _ _ Hct) as (cn & Hcn & Hty & Hkids).
  cbn [searchGroupBy]. unfold get. rewrite Hk by (by eapply lookup_lt_Some).
  rewrite Hcn. cbn [deref mbind result_bind].
  rewrite groupKeys_cons, filter_cons.
  destruct (decide (isGroupByClause ct)) as [Hg|Hg].
  - rewrite decide_True by (by rewrite Hty).
    destruct (copyGroupExprs_grouping _ _ Hkids h gs cs2 ks Hinv)
      as (h1 & gs1 & cs21 & -> & Hinv1 & Hegs1 & Hecs1).
    cbn [mbind result_bind].
    destruct (removeGroupBy_grouping h1 _ _ _ Hinv1) as (h2 & -> & Hinv2).
    cbn [mbind result_bind].
    destruct (IH h2 _ _ _ Hinv2) as (h' & gs2 & cs22 & Hrun & Hinv' & Hegs2 & Hecs2).
    exists h', (gs1 ++ gs2), (cs21 ++ cs22). split; [done|]. split; [|split].
    + rewrite !(assoc (++)). cbn [length]. by rewrite Nat.iter_succ_r.
    + rewrite !fmap_app, rewriteEach_app, Hegs1, Hegs2. f_equal. f_equal.
      rewrite length_columns_sum, columns_clones, length_fmap, length_app.
      rewrite <- (length_fmap erase cs21), Hecs1, length_fmap. lia.
    + by rewrite bind_app, !fmap_app, Hecs1, Hecs2.
  - rewrite decide_False by (by rewrite Hty). by apply IH.
Qed.
End GroupingLoop.

Section GroupByRefinement.
Context `{Collaborators}.
Import ASTNode QueryPlan.

Lemma readAST_above (h : heap) (t : atree) (lo : nat) :
  models h t → allocated lo (length h) [t] → readAST h (root t) = Ok (erase t).
Proof. intros Hm [Hnd _]%allocated_singleton. by apply readAST_models. Qed.

Lemma allocated_elem (lo hi : nat) (ts : list atree) (a : addr) :
  allocated lo hi ts → a ∈ ts ≫= addrs → lo ≤ a < hi.
Proof. intros [_ Hr] Ha. rewrite Forall_forall in Hr. by apply Hr. Qed.

Lemma groupKeys_select_list (sl : tree) (rest : list tree) :
  treeType sl = T_SELECT_LIST → groupKeys (sl :: rest) = groupKeys rest.
Proof.
  intros Hsl. rewrite groupKeys_cons. rewrite decide_False; [done|].
  unfold isGroupByClause. by rewrite Hsl.
Qed.

(** The trees [buildGroupBy] makes of a statement that can be read
    from the store and has a select list as first child. *)
Lemma rewriteGroupBy_reads (h : heap) (ast : addr) ty tok id
    (sl : tree) (rest : list tree) :
  readAST h ast = Ok (Node ty tok id (sl :: rest)) →
  treeType sl = T_SELECT_LIST →
  ∃ h7 t,
    rewriteGroupBy h ast = Ok (h7, t) ∧
    readAST h7 (gb_select_list t) = Ok (pushDown (clone sl) 0) ∧
    readAST h7 (gb_child_sl t) = Ok (childSelectList sl rest) ∧
    readAST h7 (gb_group_exprs t) = Ok (groupExpressions sl rest) ∧
    readAST h7 (gb_child_ast t) = Ok (childStatement ty tok sl rest).
Proof.
  intros Hread Hslty.
  destruct (readAST_root _ _ _ Hread) as (n & Hn & Hty & Hkids).
  cbn [treeType treeKids] in Hty, Hkids.
  apply Forall2_cons_inv_r in Hkids as (own_sl & l & Hsl0 & Hrest & Hch).
  destruct (readAST_root _ _ _ Hsl0) as (sln & Hsln & Hslnty & _).
  pose proof (lookup_lt_Some _ _ _ Hn) as Hast.
  pose proof (lookup_lt_Some _ _ _ Hsln) as Hown.
  unfold rewriteGroupBy, alloc.
  set (ge := length h). set (h0 := h ++ [newNode T_GROUP_BY]).
  assert (length h0 = S ge) as Hl0 by (unfold h0; rewrite length_app; simpl; lia).
  assert (h0 !! ast = Some n) as Hn0 by (unfold h0; by rewrite lookup_app_l).
  assert (h0 !! own_sl = Some sln) as Hsln0 by (unfold h0; by rewrite lookup_app_l).
  unfold get. rewrite Hn0.
  cbn [deref mbind result_bind]. unfold child. rewrite Hch.
  cbn [lookup list_lookup deref mbind result_bind].
  rewrite Hsln0. cbn [deref mbind result_bind].
  rewrite Hslnty, Hslty, bool_decide_eq_true_2 by done.
  cbn [assert mbind result_bind].
  (* the copy of the select list *)
  destruct (deepCopy_clone_later h h0 own_sl sl Hsl0 (keeps_app _ _))
    as (h1 & E & -> & [Hl1 Hk1] & HmE & HeE & HaE).
  cbn [mbind result_bind]. rewrite Hl0 in *.
  set (child_sl := length h1). set (h2 := h1 ++ [newNode T_SELECT_LIST]).
  assert (length h2 = S child_sl) as Hl2 by (unfold h2; rewrite length_app; simpl; lia).
  pose proof HaE as [HndE HrE]%allocated_singleton. rewrite Forall_forall in HrE.
  assert (models h2 E) as HmE2 by (apply (models_keeps h1); [done | apply keeps_app]).
  assert (child_sl ∉ addrs E) as HninE.
  { intros Hin. specialize (HrE _ Hin). unfold child_sl in HrE. lia. }
  assert (h2 !! child_sl = Some (newNode T_SELECT_LIST)) as Hsl2.
  { unfold h2. rewrite lookup_app_r by done. by rewrite Nat.sub_diag. }
  (* the push-down of the copy *)
  destruct (push_tree_run h2 child_sl E _ HmE2 HndE HninE Hsl2)
    as (h3 & cs1 & -> & Hm3 & Hec1 & [Ht3 Hmc1 Hac1 Hl3 Hf3]).
  cbn [mbind result_bind children_ newNode length app] in Ht3, Hm3 |- *.
  rewrite Hl2 in *.
  assert (∀ a, a ≤ ge → h3 !! a = h0 !! a) as Hk3.
  { intros a Ha. rewrite Hf3; [| lia | | unfold child_sl; lia].
    - unfold h2. rewrite lookup_app_l by (unfold child_sl; lia). apply Hk1. lia.
    - intros Hin. specialize (HrE _ Hin). lia. }
  assert (keeps (length h) h h3) as Hkeep3.
  { split; [fold ge; lia|]. intros a Ha. rewrite Hk3 by (fold ge in Ha; lia).
    unfold h0. by rewrite lookup_app_l. }
  (* the copy of the statement *)
  destruct (deepCopy_clone_later h h3 ast _ Hread Hkeep3)
    as (h4 & CA & -> & [Hl4 Hk4] & HmCA & HeCA & HaCA).
  cbn [mbind result_bind].
  destruct CA as [child_ast ty' tok' id' kidsCA]. cbn [erase clone] in HeCA.
  injection HeCA as -> -> -> HeK.
  destruct kidsCA as [|K0 ks0]; [done|]. rewrite fmap_cons in HeK.
  injection HeK as HeK0 Heks0. change (erase <$> ks0 = clone <$> rest) in Heks0.
  cbn [root].
  pose proof HaCA as [HndCA HrCA]%allocated_singleton.
  rewrite addrs_node in HndCA, HrCA. rewrite bind_cons in HndCA, HrCA.
  apply NoDup_cons in HndCA as [HcaK HndK].
  apply not_elem_of_app in HcaK as [_ Hcaks].
  apply NoDup_app in HndK as (_ & _ & Hndks).
  apply Forall_cons in HrCA as [Hca HrK]. apply Forall_app in HrK as [_ Hrks].
  rewrite Forall_forall in Hrks.
  pose proof (models_root _ _ HmCA) as Hcell. cbn [root cell] in Hcell.
  pose proof (models_kids _ _ HmCA) as HmK. cbn [akids] in HmK.
  apply Forall_cons in HmK as [_ Hmks].
  set (stmt := {| type_ := ty; token_ := tok; id_ := None;
                  children_ := root <$> K0 :: ks0 |}) in Hcell.
  (* the select lists are swapped *)
  unfold removeChild, get. rewrite Hcell.
  cbn [deref mbind result_bind stmt children_]. rewrite fmap_cons.
  rewrite decide_True by (simpl; lia). cbn [delete list_delete mbind result_bind].
  unfold appendChildAt, get.
  rewrite list_lookup_insert_eq by (by eapply lookup_lt_Some).
  cbn [deref mbind result_bind setChildren children_ type_ token_ id_].
  rewrite decide_True by lia. cbn [take drop app mbind result_bind].
  rewrite list_insert_insert_eq.
  set (h6 := <[child_ast := _]> h4).
  assert (length h6 = length h4) as Hl6 by apply length_insert.
  assert (∀ a, a ≠ child_ast → h6 !! a = h4 !! a) as Hk6.
  { intros a Ha. unfold h6. by rewrite list_lookup_insert_ne. }
  assert (h6 !! child_ast = Some (setChildren stmt (child_sl :: (root <$> ks0))))
    as Hca6.
  { unfold h6. by rewrite list_lookup_insert_eq by (by eapply lookup_lt_Some). }
  assert (keeps (length h) h h6) as Hkeep6.
  { destruct Hkeep3 as [? Hkeep3]. split; [lia|]. intros a Ha.
    rewrite Hk6 by lia. rewrite Hk4 by lia. by apply Hkeep3. }
  rewrite (keeps_lookup _ _ _ _ Hkeep6 Hn). cbn [deref mbind result_bind].
  (* the search *)
  assert (Forall (λ a, a < length h4 ∧ a ≠ ge ∧ a ≠ child_sl ∧ a ≠ child_ast)
                 (([resolve E 0] ++ cs1 ++ ks0) ≫= addrs)) as Hold.
  { rewrite !bind_app, bind_singleton, addrs_resolve. rewrite !Forall_app.
    split; [|split]; apply Forall_forall; intros a Ha.
    - specialize (HrE _ Ha). unfold child_sl. lia.
    - pose proof (allocated_elem _ _ _ _ Hac1 Ha). unfold child_sl. lia.
    - specialize (Hrks _ Ha). unfold child_sl.
      repeat split; [lia..|]. intros ->. by apply Hcaks. }
  assert (grouping h (length h4) ge child_sl child_ast stmt
            ([resolve E 0] ++ cs1 ++ ks0) cs1 h6 [] [] ks0) as Hinv.
  { split.
    - done.
    - apply (Forall_models_frame h4).
      + rewrite !Forall_app. split; [|split]; [| |done].
        * apply Forall_singleton. apply (models_keeps h3); [done | by split].
        * eapply Forall_impl; [exact Hmc1|]. intros k Hk.
          apply (models_keeps h3); [done | by split].
      + intros a Ha. rewrite Forall_forall in Hold. specialize (Hold _ Ha).
        apply Hk6. lia.
    - lia.
    - rewrite Hk6 by lia. rewrite Hk4 by (unfold child_sl; lia).
      rewrite Hk3 by done. unfold h0. rewrite lookup_app_r by done.
      by rewrite Nat.sub_diag.
    - rewrite Hk6 by (unfold child_sl; lia). rewrite Hk4 by (unfold child_sl; lia).
      rewrite Ht3. by rewrite app_nil_r.
    - done.
    - apply Forall_forall. intros k Hk. rewrite !elem_of_app. auto.
    - done.
    - apply allocated_nil.
    - done.
    - apply allocated_nil. }
  assert (Forall2 (λ a t, readAST h a = Ok t) (own_sl :: l) (sl :: rest)) as Hall
    by by constructor.
  destruct (searchGroupBy_grouping h (length h4) ge child_sl child_ast stmt
              ([resolve E 0] ++ cs1 ++ ks0) cs1
              ltac:(fold ge; lia) ltac:(unfold child_sl; fold ge; lia)
              ltac:(fold ge; lia)
              ltac:(unfold child_sl; fold ge; repeat split; lia) Hold
              _ _ Hall h6 [] [] ks0 Hinv)
    as (h7 & gs & cs2 & Hrun & Hinv7 & Hegs & Hecs).
  rewrite Hch, Hrun. cbn [mbind result_bind]. eexists _, _. split; [done|].
  cbn [gb_select_list gb_child_sl gb_group_exprs gb_child_ast].
  rewrite !app_nil_l in Hinv7. cbn [length] in Hegs. rewrite Nat.add_0_r in Hegs.
  rewrite groupKeys_select_list in Hegs, Hecs by done.
  destruct Hinv7 as [Hk7 Ho7 Ht7 Hg7 Hs7 Hc7 Hks7 Hgs7 Hgn7 Hcs7 Hcn7].
  pose proof Ho7 as Ho7'. rewrite !Forall_app, Forall_singleton in Ho7'.
  destruct Ho7' as (HoE & Hocs1 & _).
  set (m := length (filter isGroupByClause (sl :: rest))) in *.
  set (ksf := Nat.iter m _ ks0) in *.
  (* the child select list *)
  set (CSL := ANode child_sl T_SELECT_LIST None None (cs1 ++ cs2)).
  assert (models h7 CSL) as HmCSL.
  { apply models_node; [exact Hs7|]. cbn [akids]. by apply Forall_app. }
  assert (allocated (S child_sl) (length h7) (cs1 ++ cs2)) as Hacs.
  { apply (allocated_app _ (length h4)); [lia | lia | | done].
    eapply allocated_le; [| |exact Hac1]; lia. }
  assert (NoDup (addrs CSL)) as HndCSL.
  { unfold CSL. rewrite addrs_node. apply NoDup_cons. split; [|apply Hacs].
    intros Hin. pose proof (allocated_elem _ _ _ _ Hacs Hin). lia. }
  assert (length cs1 = length (columns sl)) as Hlcs1.
  { by rewrite <- (length_fmap erase cs1), Hec1, HeE, columns_clone, !length_fmap. }
  assert (erase CSL = childSelectList sl rest) as HeCSL.
  { unfold CSL, childSelectList. cbn [erase]. f_equal.
    by rewrite !fmap_app, Hec1, Hecs, HeE, columns_clone, derived_clones. }
  (* the child statement *)
  set (CAT := ANode child_ast ty tok None (CSL :: ksf)).
  assert (ksf ≫= addrs `sublist_of` ks0 ≫= addrs) as Hsub.
  { apply bind_sublist, iter_dropFirst_sublist. }
  assert (∀ a, a ∈ ksf ≫= addrs → length h3 ≤ a < length h4 ∧ a ≠ child_ast) as Hrksf.
  { intros a Ha. pose proof (elem_of_sublist _ _ _ Ha Hsub) as Ha0.
    split; [by apply Hrks|]. intros ->. by apply Hcaks. }
  assert (models h7 CAT) as HmCAT.
  { apply models_node; [exact Hc7|]. cbn [akids]. constructor; [done|].
    rewrite Forall_forall in Ho7. eapply Forall_impl; [exact Hks7|]. apply Ho7. }
  assert (NoDup (addrs CAT)) as HndCAT.
  { unfold CAT. rewrite addrs_node, bind_cons. apply NoDup_cons. split.
    - apply not_elem_of_app. split; [|intros Hin; by apply Hrksf in Hin as [_ Hin]].
      unfold CSL. rewrite addrs_node. apply not_elem_of_cons.
      split; [unfold child_sl; lia|]. intros Hin.
      rewrite bind_app in Hin. apply elem_of_app in Hin as [Hin|Hin].
      + pose proof (allocated_elem _ _ _ _ Hac1 Hin). lia.
      + pose proof (allocated_elem _ _ _ _ Hcn7 Hin). lia.
    - apply NoDup_app. split; [done|]. split; [|exact (sublist_NoDup _ _ Hndks Hsub)].
      intros a Ha Hin. apply Hrksf in Hin as [Hin _].
      unfold CSL in Ha. rewrite addrs_node, bind_app in Ha.
      apply elem_of_cons in Ha as [->|Ha]; [unfold child_sl in Hin; lia|].
      apply elem_of_app in Ha as [Ha|Ha].
      + pose proof (allocated_elem _ _ _ _ Hac1 Ha). lia.
      + pose proof (allocated_elem _ _ _ _ Hcn7 Ha). lia. }
  assert (erase <$> ksf = clone <$> filter (λ k, ¬ isGroupByClause k) rest) as Heksf.
  { unfold ksf. rewrite iter_dropFirst_erase, Heks0.
    assert (length (filter isGroupByClause (clone <$> rest)) ≤ m) as Hm.
    { rewrite filter_clone by (intros t; unfold isGroupByClause; by rewrite treeType_clone).
      unfold m. rewrite length_fmap, filter_cons. case_decide; simpl; lia. }
    rewrite (iter_dropFirst_filter _ _ _ Hm).
    apply filter_clone. intros t. unfold isGroupByClause. by rewrite treeType_clone. }
  split; [|split; [|split]].
  - rewrite <- (root_resolve E 0).
    rewrite (readAST_models h7 (resolve E 0)) by (by rewrite ?addrs_resolve).
    by rewrite erase_resolve, HeE.
  - pose proof (readAST_models h7 CSL HmCSL HndCSL) as Hr.
    unfold CSL in Hr at 1. cbn [root] in Hr. by rewrite Hr, HeCSL.
  - pose proof (readAST_models h7 (ANode ge T_GROUP_BY None None gs)) as Hr.
    cbn [root erase] in Hr. rewrite Hr.
    + unfold groupExpressions. by rewrite Hegs, Hlcs1.
    + by apply models_node.
    + rewrite addrs_node. apply NoDup_cons. split; [|apply Hgn7].
      intros Hin. pose proof (allocated_elem _ _ _ _ Hgn7 Hin). fold ge in Hca. lia.
  - pose proof (readAST_models h7 CAT HmCAT HndCAT) as Hr.
    unfold CAT in Hr at 1. cbn [root] in Hr. rewrite Hr.
    unfold CAT, childStatement. cbn [erase]. by rewrite fmap_cons, HeCSL, Heksf.
Qed.
End GroupByRefinement.

Section GroupByPlan.
Context `{Collaborators}.
Import ASTNode QueryPlan.

Lemma length_rewriteEach {T} (f : T → nat → T) (count : T → nat) (l : list T)
    (next : nat) :
  length (rewriteEach f count l next) = length l.
Proof.
  revert next. induction l as [|k l IH]; intros next; simpl; [done|]. by rewrite IH.
Qed.

Lemma length_treeKids_pushDown (t : tree) (next : nat) :
  treeType t ≠ T_COLUMN_NAME →
  length (treeKids (pushDown (clone t) next)) = length (treeKids t).
Proof.
  destruct t as [ty tok id kids]. cbn [treeType clone pushDown]. intros Hty.
  rewrite decide_False by done. cbn [treeKids].
  by rewrite length_rewriteEach, length_fmap.
Qed.

Lemma fmap_const_replicate {A B} (x : B) (l : list A) :
  (λ _, x) <$> l = replicate (length l) x.
Proof. induction l as [|a l IH]; [done|]. by rewrite fmap_cons, IH. Qed.

(** [buildGroupBy] after the trees are built. *)
Lemma buildGroupBy_run
    (plan : heap → addr → result (heap * Executable)) (h : heap) (ast : addr)
    (h7 : heap) (t : GroupByTrees) (sl : tree) (rest : list tree) :
  rewriteGroupBy h ast = Ok (h7, t) →
  readAST h7 (gb_select_list t) = Ok (pushDown (clone sl) 0) →
  readAST h7 (gb_group_exprs t) = Ok (groupExpressions sl rest) →
  treeType sl = T_SELECT_LIST →
  buildGroupBy plan h ast
  = ('(select_expr, select_scratchpad_len) ← compileAST (pushDown (clone sl) 0) 0;
     '(group_expr, group_scratchpad_len) ← compileAST (groupExpressions sl rest) 0;
     _ ← assert (group_scratchpad_len =? 0);
     '(h8, child) ← plan h7 (gb_child_ast t);
     Ok (h8, GroupBy (replicate (length (treeKids sl)) "unnamed"%string)
                     select_expr group_expr select_scratchpad_len child)).
Proof.
  intros Hrw Rsl Rge Hslty.
  unfold buildGroupBy. rewrite Hrw. cbn [mbind result_bind].
  unfold compile. rewrite Rsl, Rge. cbn [mbind result_bind].
  destruct (compileAST (pushDown (clone sl) 0) 0) as [[select_expr slen]|]; [|done].
  cbn [mbind result_bind].
  destruct (compileAST (groupExpressions sl rest) 0) as [[group_expr glen]|]; [|done].
  cbn [mbind result_bind].
  destruct (assert (glen =? 0)); [|done]. cbn [mbind result_bind].
  destruct (readAST_root _ _ _ Rsl) as (c & Hc & _ & Hkids).
  unfold get. rewrite Hc. cbn [deref mbind result_bind].
  rewrite fmap_const_replicate, (Forall2_length _ _ _ Hkids).
  rewrite length_treeKids_pushDown by (by rewrite Hslty).
  done.
Qed.

(** X13. What [buildGroupBy] computes, as a function of the statement.
    For a statement that can be read from the store and has a select
    list as first child, the plan is a GroupBy node with one column
    called unnamed per entry of the select list; its select expression
    is compiled from the select list with the column references
    resolved to 0, 1, 2, ... in order of occurrence, its group
    expression from the grouping keys with the indices continuing, and
    its child is the plan of a statement that reads as a copy of the
    statement with the generated select list (one derived column per
    column reference, those of the select list first) in the place of
    its own and without GROUP BY clauses.  It fails exactly when a
    compilation fails, the group expression asks for scratch slots, or
    the planning of the child fails. *)
Theorem buildGroupBy_plan
    (plan : heap → addr → result (heap * Executable)) (h : heap) (ast : addr)
    ty tok id (sl : tree) (rest : list tree) :
  readAST h ast = Ok (Node ty tok id (sl :: rest)) →
  treeType sl = T_SELECT_LIST →
  ∃ h7 child_ast,
    readAST h7 child_ast = Ok (childStatement ty tok sl rest) ∧
    buildGroupBy plan h ast
    = ('(select_expr, select_scratchpad_len) ← compileAST (pushDown (clone sl) 0) 0;
       '(group_expr, group_scratchpad_len) ← compileAST (groupExpressions sl rest) 0;
       _ ← assert (group_scratchpad_len =? 0);
       '(h8, child) ← plan h7 child_ast;
       Ok (h8, GroupBy (replicate (length (treeKids sl)) "unnamed"%string)
                       select_expr group_expr select_scratchpad_len child)).
Proof.
  intros Hread Hslty.
  destruct (rewriteGroupBy_reads _ _ _ _ _ _ _ Hread Hslty)
    as (h7 & t & Hrw & Rsl & _ & Rge & Rca).
  exists h7, (gb_child_ast t). split; [exact Rca|].
  by apply buildGroupBy_run.
Qed.
End GroupByPlan.

Section GroupsOnce.
Context `{Collaborators}.
Import ASTNode QueryPlan.

Lemma buildDrawStatement_is_Draw (h : heap) (ast : addr) (e : Executable) :
  buildDrawStatement h ast = Ok e → ∃ type, e = DrawStatement type.
Proof.
  unfold buildDrawStatement. intros Hb.
  apply bind_Ok in Hb as (? & _ & Hb). apply bind_Ok in Hb as (tok & _ & Hb).
  destruct (Token.getType tok); try done; injection Hb as <-; by eexists.
Qed.

(** How a GroupBy plan comes about. *)
Lemma buildQueryPlan_GroupBy_inv (fuel : nat) (repo : TableRepository)
    (h : heap) (ast : addr) (h' : heap) (e : Executable) :
  buildQueryPlan fuel repo h ast = Ok (h', e) → isGroupBy e = true →
  ∃ k n, fuel = S k ∧ h !! ast = Some n ∧
         type_ n ≠ T_SERIES ∧ type_ n ≠ T_DRAW ∧
         hasLimitClause h ast = Ok false ∧
         buildGroupBy (buildQueryPlan k repo) h ast = Ok (h', e).
Proof.
  intros Hb He. destruct fuel as [|k]; [done|]. simpl in Hb.
  apply bind_Ok in Hb as (n & Hn & Hb). apply get_Ok in Hn.
  exists k, n. split; [done|]. split; [done|].
  destruct (decide (type_ n = T_SERIES)).
  { apply buildSeriesStatement_is_Series in Hb as (? & ? & ? & ->). done. }
  destruct (decide (type_ n = T_DRAW)).
  { apply bind_Ok in Hb as (x & Hx & [= <- <-]).
    apply buildDrawStatement_is_Draw in Hx as (? & ->). done. }
  apply bind_Ok in Hb as (limit & Hl & Hb).
  destruct limit as [[h1 e1]|].
  { injection Hb as <- <-.
    apply LimitClause_build_Some in Hl as [_ (? & ? & ? & ->)]. done. }
  apply LimitClause_build_None in Hl.
  apply bind_Ok in Hb as (g & _ & Hb). apply bind_Ok in Hb as (aggr & _ & Hb).
  destruct aggr; [done|].
  destruct (TableScan_build h ast repo); [by injection Hb as <- <-|].
  destruct (TablelessSelect_build h ast); [by injection Hb as <- <-|done].
Qed.

(** A statement without LIMIT clause, GROUP BY clause and aggregate in
    its select list goes to a leaf builder. *)
Lemma buildQueryPlan_leaf (fuel : nat) (repo : TableRepository)
    (h : heap) (ast : addr) (n : ASTNode) (h' : heap) (e : Executable) :
  h !! ast = Some n → type_ n ≠ T_SERIES → type_ n ≠ T_DRAW →
  hasLimitClause h ast = Ok false →
  hasGroupByClause h ast = Ok false →
  (∀ b, hasAggregationInSelectList h ast = Ok b → b = false) →
  buildQueryPlan fuel repo h ast = Ok (h', e) →
  h' = h ∧ (e = TableScan (getColumns e) ∨ e = TablelessSelect (getColumns e)).
Proof.
  intros Hn Hser Hdraw Hlim Hgrp Hagg Hb.
  destruct fuel as [|k]; [done|]. simpl in Hb.
  apply bind_Ok in Hb as (n' & Hn' & Hb).
  apply get_Ok in Hn'. rewrite Hn in Hn'. injection Hn' as <-.
  destruct (decide (type_ n = T_SERIES)); [done|].
  destruct (decide (type_ n = T_DRAW)); [done|].
  apply bind_Ok in Hb as (limit & Hl & Hb).
  destruct limit as [r|].
  { apply LimitClause_build_without_limit in Hl. congruence. }
  rewrite Hgrp in Hb. cbn [mbind result_bind] in Hb.
  apply bind_Ok in Hb as (a & Ha & Hb). pose proof (Hagg _ Ha) as ->.
  destruct (TableScan_build h ast repo) as [cols|].
  { injection Hb as <- <-. simpl. eauto. }
  destruct (TablelessSelect_build h ast) as [cols|]; [|done].
  injection Hb as <- <-. simpl. eauto.
Qed.

Lemma hasLimitClause_read (h : heap) (ast : addr) (t : tree) :
  readAST h ast = Ok t →
  hasLimitClause h ast
  = Ok (existsb (λ k, bool_decide (treeType k = T_LIMIT)) (treeKids t)).
Proof.
  intros Hread. apply readAST_root in Hread as (c & Hc & _ & Hkids).
  unfold hasLimitClause, get. rewrite Hc. cbn [deref mbind result_bind].
  by apply anyType_read.
Qed.

Lemma existsb_type_clones (ty : kASTNodeType) (P : tree → Prop)
    `{∀ t, Decision (P t)} (l : list tree) :
  existsb (λ k, bool_decide (treeType k = ty)) l = false →
  existsb (λ k, bool_decide (treeType k = ty)) (clone <$> filter P l) = false.
Proof.
  induction l as [|t l IH]; [done|]. cbn [existsb]. intros [Ht Hl]%orb_false_iff.
  rewrite filter_cons. destruct (decide (P t)); [|by apply IH].
  rewrite fmap_cons. cbn [existsb]. by rewrite (treeType_clone t), Ht, IH.
Qed.

Lemma existsb_clauses_dropped (l : list tree) :
  existsb (λ k, bool_decide (treeType k = T_GROUP_BY))
          (clone <$> filter (λ k, ¬ isGroupByClause k) l) = false.
Proof.
  induction l as [|t l IH]; [done|].
  rewrite filter_cons. destruct (decide (¬ isGroupByClause t)) as [Ht|Ht]; [|done].
  rewrite fmap_cons. cbn [existsb]. rewrite (treeType_clone t), IH.
  by rewrite bool_decide_eq_false_2 by exact Ht.
Qed.

Lemma callsAggregate_derived (cols : list tree) :
  Forall (λ c, callsAggregate c = false) cols →
  existsb callsAggregate (derived <$> cols) = false.
Proof.
  induction 1 as [|c cols Hc _ IH]; [done|]. rewrite fmap_cons. cbn [existsb].
  rewrite IH. unfold derived. cbn [callsAggregate existsb].
  rewrite callsAggregate_clone, Hc. by rewrite bool_decide_eq_false_2.
Qed.

(** X14. Grouping happens once.  When [buildQueryPlan] returns a GroupBy
    plan for a readable statement whose column references hold no
    aggregate call, the child of that plan is a table scan or a
    tableless select: the statement handed down has no GROUP BY clause
    and only copies of column references in its select list, so it is
    never grouped again. *)
Theorem buildQueryPlan_groups_once (fuel : nat) (repo : TableRepository)
    (h : heap) (ast : addr) ty tok id (sl : tree) (rest : list tree)
    (h' : heap) (e : Executable) :
  readAST h ast = Ok (Node ty tok id (sl :: rest)) →
  treeType sl = T_SELECT_LIST →
  Forall (λ c, callsAggregate c = false) (columns sl ++ (groupKeys rest ≫= columns)) →
  buildQueryPlan fuel repo h ast = Ok (h', e) →
  isGroupBy e = true →
  ∃ columns select_expr group_expr scratchpad_len child,
    e = GroupBy columns select_expr group_expr scratchpad_len child ∧
    (child = TableScan (getColumns child) ∨ child = TablelessSelect (getColumns child)).
Proof.
  intros Hread Hslty Hcols Hb He.
  destruct (buildQueryPlan_GroupBy_inv _ _ _ _ _ _ Hb He)
    as (k & n & -> & Hn & Hser & Hdraw & Hlim & Hg).
  destruct (readAST_root _ _ _ Hread) as (n' & Hn' & Hty & _).
  rewrite Hn in Hn'. injection Hn' as <-. cbn [treeType] in Hty.
  rewrite (hasLimitClause_read _ _ _ Hread) in Hlim. injection Hlim as Hlim.
  cbn [treeKids existsb] in Hlim. apply orb_false_iff in Hlim as [_ Hlim].
  destruct (rewriteGroupBy_reads _ _ _ _ _ _ _ Hread Hslty)
    as (h7 & t & Hrw & Rsl & _ & Rge & Rca).
  rewrite (buildGroupBy_run _ _ _ _ _ _ _ Hrw Rsl Rge Hslty) in Hg.
  set (child_ast := gb_child_ast t) in *.
  apply bind_Ok in Hg as ([select_expr slen] & _ & Hg).
  apply bind_Ok in Hg as ([group_expr glen] & _ & Hg).
  apply bind_Ok in Hg as (? & _ & Hg).
  apply bind_Ok in Hg as ([h8 child] & Hchild & [= <- <-]).
  eexists _, _, _, _, child. split; [done|].
  destruct (readAST_root _ _ _ Rca) as (nc & Hnc & Htyc & Hkc).
  cbn [childStatement treeType treeKids] in Htyc, Hkc.
  eapply (buildQueryPlan_leaf k repo h7 child_ast nc); [done | congruence | congruence
    | | | | exact Hchild].
  - rewrite (hasLimitClause_read _ _ _ Rca). cbn [childStatement treeKids existsb].
    by rewrite existsb_type_clones.
  - unfold hasGroupByClause, get. rewrite Hnc. cbn [deref mbind result_bind].
    destruct (_ || _); [done|]. rewrite (anyType_read _ _ _ _ Hkc).
    cbn [existsb childSelectList treeType]. by rewrite existsb_clauses_dropped.
  - intros b. unfold hasAggregationInSelectList, get. rewrite Hnc.
    cbn [deref mbind result_bind]. destruct (_ || _); [by intros [= <-]|].
    apply Forall2_cons_inv_r in Hkc as (csl & l & Hx & _ & Hch).
    unfold ASTNode.child. rewrite Hch.
    cbn [lookup list_lookup deref mbind result_bind]. intros Hb'.
    apply bind_Ok in Hb' as (? & _ & Hb'). apply bind_Ok in Hb' as (? & _ & Hb').
    destruct (hasAggregationExpression_rec_read _ _ _ _ Hx) as [_ Hok].
    destruct (Hok b Hb') as [-> _]. cbn [childSelectList callsAggregate].
    by rewrite callsAggregate_derived.
Qed.
End GroupsOnce.

(** ** buildSeriesStatement: what it does to the nested statement *)

Section SeriesSelectList.
Context `{Collaborators}.
Import ASTNode QueryPlan.

Lemma setChildren_same (c : ASTNode) : setChildren c (children_ c ++ []) = c.
Proof. destruct c. unfold setChildren. simpl. by rewrite app_nil_r. Qed.

(** X15. [buildSeriesStatement] changes the statement it is given.  When
    the series is named by an expression, the select list of the
    nested statement, an object of the caller, gets one derived column
    per column reference of the name, appended behind its own entries,
    before the nested statement is planned; when it is named by a
    literal (a SERIES_NAME node), nothing is appended.  In both cases
    every other object of the caller is unchanged when the nested
    statement is planned, and the appended entries are new objects. *)
Theorem buildSeriesStatement_select_list
    (plan : heap → addr → result (heap * Executable))
    (h : heap) (ast : addr) (n sel csl : ASTNode) (name0 select_ast child_sl : addr)
    (tname : tree) (h' : heap) (e : Executable) :
  h !! ast = Some n → type_ n = T_SERIES →
  children_ n !! 0 = Some name0 → children_ n !! 1 = Some select_ast →
  h !! select_ast = Some sel → children_ sel !! 0 = Some child_sl →
  h !! child_sl = Some csl →
  readAST h name0 = Ok tname →
  buildSeriesStatement plan h ast = Ok (h', e) →
  ∃ h1 new column_names name_expr select,
    plan h1 select_ast = Ok (h', select) ∧
    e = SeriesStatement column_names name_expr select ∧
    h1 !! child_sl = Some (setChildren csl (children_ csl ++ new)) ∧
    readAll (readAST h1) new
    = Ok (if decide (treeType tname = T_SERIES_NAME) then []
          else derived <$> columns tname) ∧
    Forall (λ a, length h ≤ a < length h1) new ∧
    (∀ a, a < length h → a ≠ child_sl → h1 !! a = h !! a).
Proof.
  intros Hn Hnty Hname0 Hsa Hsel Hchild Hcsl Hread Hb.
  destruct (readAST_root _ _ _ Hread) as (nm & Hnm & Hnmty & _).
  pose proof (lookup_lt_Some _ _ _ Hn) as Hast.
  pose proof (lookup_lt_Some _ _ _ Hcsl) as Hcsllt.
  unfold buildSeriesStatement, get, child in Hb.
  rewrite Hn in Hb. cbn [deref mbind result_bind] in Hb.
  rewrite Hsa, Hname0 in Hb. cbn [deref mbind result_bind] in Hb.
  rewrite Hsel in Hb. cbn [deref mbind result_bind] in Hb.
  apply bind_Ok in Hb as (? & _ & Hb). rewrite Hchild in Hb.
  cbn [deref mbind result_bind] in Hb. rewrite Hcsl in Hb.
  cbn [deref mbind result_bind] in Hb.
  apply bind_Ok in Hb as (? & Hlist & Hb).
  apply assert_Ok, bool_decide_eq_true in Hlist.
  assert (ast ≠ child_sl) as Hne by (intros ->; congruence).
  rewrite Hnm in Hb. cbn [deref mbind result_bind] in Hb. rewrite Hnmty in Hb.
  apply bind_Ok in Hb as ([h1 name] & Hname & Hb).
  assert (∃ new,
            h1 !! child_sl = Some (setChildren csl (children_ csl ++ new)) ∧
            readAll (readAST h1) new
            = Ok (if decide (treeType tname = T_SERIES_NAME) then []
                  else derived <$> columns tname) ∧
            Forall (λ a, length h ≤ a < length h1) new ∧
            (∀ a, a < length h → a ≠ child_sl → h1 !! a = h !! a))
    as (new & Htarget & Hnew & Hfresh & Hframe).
  { destruct (decide (treeType tname = T_SERIES_NAME)) as [Hty|Hty].
    - apply bind_Ok in Hname as (token & _ & Hname). unfold alloc in Hname.
      unfold setToken, update, get in Hname.
      rewrite lookup_app_r, Nat.sub_diag in Hname by done.
      cbn [lookup list_lookup deref mbind result_bind] in Hname.
      injection Hname as <- <-.
      exists []. split; [|split; [done|split; [done|]]].
      + rewrite setChildren_same, list_lookup_insert_ne by lia.
        by rewrite lookup_app_l.
      + intros a Ha _. rewrite list_lookup_insert_ne by lia. by rewrite lookup_app_l.
    - destruct (deepCopy_clone h name0 tname Hread)
        as (h0 & E & Hcopy & [Hl0 Hk0] & HmE & HeE & HaE).
      rewrite Hcopy in Hname. cbn [mbind result_bind] in Hname.
      pose proof HaE as [HndE HrE]%allocated_singleton. rewrite Forall_forall in HrE.
      assert (child_sl ∉ addrs E) as HninE.
      { intros Hin. specialize (HrE _ Hin). lia. }
      assert (h0 !! child_sl = Some csl) as Hcsl0 by (by rewrite Hk0).
      destruct (push_tree_run h0 child_sl E csl HmE HndE HninE Hcsl0)
        as (h1' & cols & Hpush & _ & Hec & [Ht Hmc [Hsep Hrc] Hl1 Hf]).
      rewrite Hpush in Hname. injection Hname as <- <-.
      exists (root <$> cols). split; [done|]. split; [|split].
      + rewrite (readAll_models _ _ Hmc Hsep), Hec, HeE.
        by rewrite columns_clone, derived_clones.
      + apply Forall_fmap, Forall_forall. intros c Hc. rewrite Forall_forall in Hrc.
        assert (root c ∈ cols ≫= addrs) as Hin.
        { apply list_elem_of_bind. exists c. split; [apply root_in_addrs | done]. }
        specialize (Hrc _ Hin). simpl. lia.
      + intros a Ha Hasl. rewrite Hf; [by apply Hk0 | lia | | done].
        intros Hin. specialize (HrE _ Hin). lia. }
  rewrite (Hframe ast Hast Hne), Hn in Hb. cbn [deref mbind result_bind] in Hb.
  rewrite Hsa in Hb. cbn [deref mbind result_bind] in Hb.
  apply bind_Ok in Hb as ([h2 select] & Hplan & Hb).
  apply bind_Ok in Hb as ([name_expr len] & _ & Hb).
  apply bind_Ok in Hb as (? & _ & [= <- <-]).
  by eexists h1, new, _, name_expr, select.
Qed.
End SeriesSelectList.

(** ** buildQueryPlan on a GROUP BY statement *)

Section GroupByStatement.
Context `{Collaborators}.
Import ASTNode QueryPlan.

Lemma anyType_findType (h : heap) (ty : kASTNodeType) (l : list addr) (i : nat) :
  anyType h ty l = Ok false → findType h ty l i = Ok None.
Proof.
  revert i. induction l as [|a l IH]; intros i; simpl; [done|].
  destruct (get h a) as [c|e]; simpl; [|done].
  destruct (decide (type_ c = ty)); [done | apply IH].
Qed.

Lemma LimitClause_build_no_limit
    (plan : heap → addr → result (heap * Executable)) (h : heap) (ast : addr) :
  hasLimitClause h ast = Ok false → LimitClause_build plan h ast = Ok None.
Proof.
  unfold hasLimitClause, LimitClause_build. intros Hl.
  apply bind_Ok in Hl as (n & -> & Hl). cbn [mbind result_bind].
  by rewrite (anyType_findType _ _ _ 0 Hl).
Qed.

Lemma buildQueryPlan_S (k : nat) (repo : TableRepository) (h : heap) (ast : addr) :
  buildQueryPlan (S k) repo h ast
  = (n ← get h ast;
     if decide (type_ n = T_SERIES) then
       buildSeriesStatement (buildQueryPlan k repo) h ast
     else if decide (type_ n = T_DRAW) then
       exec ← buildDrawStatement h ast; Ok (h, exec)
     else
       limit ← LimitClause_build (buildQueryPlan k repo) h ast;
       match limit with
       | Some exec => Ok exec
       | None =>
           group_by ← hasGroupByClause h ast;
           aggr ← (if group_by : bool then Ok true
                   else hasAggregationInSelectList h ast);
           if aggr : bool then buildGroupBy (buildQueryPlan k repo) h ast
           else buildLeaf repo h ast
       end).
Proof. done. Qed.

(** A statement without LIMIT clause, GROUP BY clause and aggregate in
    its select list is planned by the leaf builders, with any fuel. *)
Lemma buildQueryPlan_leaf_run (k : nat) (repo : TableRepository)
    (h : heap) (ast : addr) (n : ASTNode) :
  h !! ast = Some n → type_ n ≠ T_SERIES → type_ n ≠ T_DRAW →
  hasLimitClause h ast = Ok false →
  hasGroupByClause h ast = Ok false →
  hasAggregationInSelectList h ast = Ok false →
  buildQueryPlan (S k) repo h ast = buildLeaf repo h ast.
Proof.
  intros Hn Hser Hdraw Hlim Hgrp Hagg. rewrite buildQueryPlan_S. unfold get at 1.
  rewrite Hn. cbn [deref mbind result_bind].
  rewrite decide_False by done. rewrite decide_False by done.
  rewrite (LimitClause_build_no_limit _ _ _ Hlim). cbn [mbind result_bind].
  rewrite Hgrp. cbn [mbind result_bind]. rewrite Hagg. cbn [mbind result_bind].
  done.
Qed.

Lemma knownCalls_clone (t : tree) : knownCalls (clone t) = knownCalls t.
Proof.
  induction t as [ty tok id kids IH] using tree_nested_ind.
  cbn [clone knownCalls]. f_equal.
  induction IH as [|k kids Hk _ IHkids]; [done|].
  rewrite fmap_cons. cbn [forallb]. by rewrite Hk, IHkids.
Qed.

Lemma knownCalls_derived (cols : list tree) :
  Forall (λ c, knownCalls c = true) cols →
  forallb knownCalls (derived <$> cols) = true.
Proof.
  induction 1 as [|c cols Hc _ IH]; [done|]. rewrite fmap_cons. cbn [forallb].
  rewrite IH. unfold derived. cbn [knownCalls forallb].
  rewrite knownCalls_clone, Hc. by rewrite decide_False.
Qed.

(** The two tests of the dispatch on a readable SELECT statement. *)
Lemma statement_tests (h : heap) (ast : addr) tok id (sl : tree) (rest : list tree) :
  readAST h ast = Ok (Node T_SELECT tok id (sl :: rest)) →
  treeType sl = T_SELECT_LIST →
  hasGroupByClause h ast
  = Ok ((0 <? length rest)
        && existsb (λ c, bool_decide (treeType c = T_GROUP_BY)) rest) ∧
  (knownCalls sl = true →
   hasAggregationInSelectList h ast = Ok ((0 <? length rest) && callsAggregate sl)).
Proof.
  intros Hread Hslty.
  destruct (readAST_root _ _ _ Hread) as (n & Hn & Hty & Hkids).
  cbn [treeType treeKids] in Hty, Hkids.
  unfold hasGroupByClause, hasAggregationInSelectList, get. rewrite Hn.
  cbn [deref mbind result_bind]. rewrite Hty, (Forall2_length _ _ _ Hkids).
  rewrite bool_decide_eq_true_2 by done. cbn [negb orb length].
  destruct rest as [|r rest]; [done|]. cbn [length Nat.ltb Nat.leb andb].
  split.
  - rewrite (anyType_read _ _ _ _ Hkids). cbn [existsb].
    by rewrite Hslty, (bool_decide_eq_false_2 (T_SELECT_LIST = T_GROUP_BY)).
  - intros Hknown. apply Forall2_cons_inv_r in Hkids as (own_sl & l & Hsl & _ & Hch).
    unfold child. rewrite Hch. cbn [lookup list_lookup deref mbind result_bind].
    destruct (readAST_root _ _ _ Hsl) as (c & Hc & Hcty & _).
    rewrite Hc. cbn [deref mbind result_bind]. rewrite Hcty, Hslty.
    rewrite bool_decide_eq_true_2 by done. cbn [assert mbind result_bind].
    destruct (hasAggregationExpression_rec_read _ _ _ _ Hsl) as [Herr Hok].
    unfold hasAggregationExpression.
    destruct (hasAggregationExpression_rec _ _ _) as [b|e].
    + by destruct (Hok b eq_refl) as [-> _].
    + destruct (Herr e eq_refl) as [_ Hf]. congruence.
Qed.

(** X17. [buildQueryPlan] on a SELECT statement without LIMIT clause,
    from end to end.  Take a readable SELECT with a select list as
    first child whose calls are all known and whose column references
    hold no aggregate call.  If it has no further child, or neither a
    GROUP BY clause nor an aggregate in its select list, the plan is
    that of the leaf builders.  Otherwise the planner needs one level
    of recursion whatever the fuel: the plan is the GroupBy node of
    [buildGroupBy] over a leaf plan of the child statement, which reads
    as the statement with the generated select list and without its
    GROUP BY clauses. *)
Theorem buildQueryPlan_select_statement (k : nat) (repo : TableRepository)
    (h : heap) (ast : addr) tok id (sl : tree) (rest : list tree) :
  readAST h ast = Ok (Node T_SELECT tok id (sl :: rest)) →
  treeType sl = T_SELECT_LIST →
  existsb (λ c, bool_decide (treeType c = T_LIMIT)) rest = false →
  knownCalls sl = true →
  Forall (λ c, callsAggregate c = false ∧ knownCalls c = true)
         (columns sl ++ (groupKeys rest ≫= columns)) →
  let grouped :=
    (0 <? length rest)
    && (existsb (λ c, bool_decide (treeType c = T_GROUP_BY)) rest || callsAggregate sl) in
  (grouped = false → buildQueryPlan (S k) repo h ast = buildLeaf repo h ast) ∧
  (grouped = true →
   ∃ h7 child_ast,
     readAST h7 child_ast = Ok (childStatement T_SELECT tok sl rest) ∧
     buildQueryPlan (S (S k)) repo h ast
     = ('(select_expr, select_scratchpad_len) ← compileAST (pushDown (clone sl) 0) 0;
        '(group_expr, group_scratchpad_len) ← compileAST (groupExpressions sl rest) 0;
        _ ← assert (group_scratchpad_len =? 0);
        '(h8, child) ← buildLeaf repo h7 child_ast;
        Ok (h8, GroupBy (replicate (length (treeKids sl)) "unnamed"%string)
                        select_expr group_expr select_scratchpad_len child))).
Proof.
  intros Hread Hslty Hnolimit Hknownsl Hcols grouped.
  destruct (readAST_root _ _ _ Hread) as (n & Hn & Hty & Hkids).
  cbn [treeType treeKids] in Hty, Hkids.
  destruct (statement_tests _ _ _ _ _ _ Hread Hslty) as [Hgrp Hagg].
  specialize (Hagg Hknownsl).
  assert (hasLimitClause h ast = Ok false) as Hlim.
  { rewrite (hasLimitClause_read _ _ _ Hread). cbn [treeKids existsb].
    by rewrite Hslty, Hnolimit. }
  (* the dispatch on the statement *)
  assert (∀ k, buildQueryPlan (S k) repo h ast
               = if grouped then buildGroupBy (buildQueryPlan k repo) h ast
                 else buildLeaf repo h ast) as Hdispatch.
  { intros k'. rewrite buildQueryPlan_S. unfold get at 1. rewrite Hn.
    cbn [deref mbind result_bind].
    rewrite Hty. rewrite decide_False by done. rewrite decide_False by done.
    rewrite (LimitClause_build_no_limit _ _ _ Hlim). cbn [mbind result_bind].
    rewrite Hgrp. cbn [mbind result_bind]. unfold grouped.
    destruct (0 <? length rest); cbn [andb]; [|by rewrite Hagg].
    destruct (existsb (λ c, bool_decide (treeType c = T_GROUP_BY)) rest);
      cbn [orb]; [done|].
    rewrite Hagg. cbn [andb mbind result_bind]. by destruct (callsAggregate sl). }
  split; intros Hgrouped; rewrite Hdispatch, Hgrouped; [done|].
  destruct (rewriteGroupBy_reads _ _ _ _ _ _ _ Hread Hslty)
    as (h7 & t & Hrw & Rsl & _ & Rge & Rca).
  rewrite (buildGroupBy_run _ _ _ _ _ _ _ Hrw Rsl Rge Hslty).
  set (child_ast := gb_child_ast t) in *.
  exists h7, child_ast. split; [done|].
  (* the child statement goes to a leaf builder *)
  destruct (readAST_root _ _ _ Rca) as (nc & Hnc & Htyc & Hkc).
  cbn [childStatement treeType treeKids] in Htyc, Hkc.
  rewrite (buildQueryPlan_leaf_run k repo h7 child_ast nc);
    [done | exact Hnc | by rewrite Htyc | by rewrite Htyc | | |].
  - rewrite (hasLimitClause_read _ _ _ Rca). cbn [childStatement treeKids existsb].
    by rewrite existsb_type_clones.
  - unfold hasGroupByClause, get. rewrite Hnc. cbn [deref mbind result_bind].
    destruct (negb _ || _); [done|]. rewrite (anyType_read _ _ _ _ Hkc).
    cbn [existsb childSelectList treeType]. by rewrite existsb_clauses_dropped.
  - unfold hasAggregationInSelectList, get. rewrite Hnc.
    cbn [deref mbind result_bind]. destruct (negb _ || _); [done|].
    apply Forall2_cons_inv_r in Hkc as (csl & l & Hx & _ & Hch).
    unfold child. rewrite Hch. cbn [lookup list_lookup deref mbind result_bind].
    destruct (readAST_root _ _ _ Hx) as (cx & Hcx & Hcxty & _).
    rewrite Hcx. cbn [deref mbind result_bind]. rewrite Hcxty.
    cbn [childSelectList treeType].
    rewrite bool_decide_eq_true_2 by done. cbn [assert mbind result_bind].
    destruct (hasAggregationExpression_rec_read _ _ _ _ Hx) as [Herr Hok].
    assert (knownCalls (childSelectList sl rest) = true) as Hknown.
    { cbn [childSelectList knownCalls]. rewrite decide_False by done.
      apply knownCalls_derived. eapply Forall_impl; [exact Hcols|]. by intros c [_ ?]. }
    assert (callsAggregate (childSelectList sl rest) = false) as Hpure.
    { cbn [childSelectList callsAggregate]. rewrite bool_decide_eq_false_2 by done.
      apply callsAggregate_derived. eapply Forall_impl; [exact Hcols|]. by intros c [? _]. }
    unfold hasAggregationExpression.
    destruct (hasAggregationExpression_rec _ _ _) as [b|e].
    + destruct (Hok b eq_refl) as [-> _]. by rewrite Hpure.
    + destruct (Herr e eq_refl) as [_ Hf]. congruence.
Qed.
End GroupByStatement.

(** ** More sample runs *)

Section MoreSamples.
Import ASTNode QueryPlan.

Lemma hasAggregationExpression_decides_witness :
  hasAggregationExpression (H := Demo.collaborators) Demo.groupByStatement 1 = Ok true.
Proof.
  assert (readAST Demo.groupByStatement 1
          = Ok (Node T_METHOD_CALL (Demo.identifier "avg") None
                  [Node T_COLUMN_NAME (Demo.identifier "value") None []])) as Hread
    by (vm_compute; reflexivity).
  exact (hasAggregationExpression_decides (H := Demo.collaborators) _ _ _ Hread eq_refl).
Defined.

Lemma hasAggregationExpression_failure_witness :
  ∃ b, hasAggregationExpression (H := Demo.collaborators) Demo.twoCopies 1 = Ok b ∧
       b = false.
Proof.
  assert (readAST Demo.twoCopies 1
          = Ok (Node T_METHOD_CALL (Demo.identifier "abs") None
                  [Node T_COLUMN_NAME (Demo.identifier "x") None []])) as Hread
    by (vm_compute; reflexivity).
  destruct (hasAggregationExpression_failure (H := Demo.collaborators) _ _ _ Hread)
    as (_ & Hanswer & _).
  destruct (hasAggregationExpression (H := Demo.collaborators) Demo.twoCopies 1)
    as [b|] eqn:Hrun; [|vm_compute in Hrun; discriminate].
  exists b. split; [reflexivity|]. exact (Hanswer b eq_refl).
Defined.

Lemma hasGroupByClause_decides_witness :
  hasGroupByClause Demo.groupByStatement 7 = Ok true.
Proof.
  destruct (readAST Demo.groupByStatement 7) as [t|] eqn:Hread;
    [|vm_compute in Hread; discriminate].
  rewrite (hasGroupByClause_decides _ _ _ Hread).
  vm_compute in Hread. injection Hread as <-. reflexivity.
Defined.


End MoreSamples.

Section MoreHTTPSamples.
Import http MetricRepository HTTPAPI.

Lemma Demo_stripSlashes_prefix (s : string) :
  String.prefix (Demo.stripSlashes s) s = true.
Proof.
  induction s as [|c s IH]; [done|]. cbn [Demo.stripSlashes].
  destruct (Demo.stripSlashes s) as [|d rest].
  - case_decide; [done|]. simpl. by destruct (Ascii.ascii_dec c c).
  - simpl. by destruct (Ascii.ascii_dec c c).
Qed.

Lemma insertSample_accepted `{Library} (now : Z) (repo : MetricRepository)
    (response : HTTPResponse) (key : string) (params : list (string * string))
    (s : string) (v : double) :
  3 ≤ String.length key → URI.getParam params "value" = Some s → stod s = Some v →
  ∃ repo', insertSample now repo response (URI.mk (metricPath key) params)
           = Ok (repo', setStatus response kStatusCreated).
Proof.
  intros Hlen Hs Hv. unfold insertSample. cbn [URI.path URI.queryParams].
  rewrite substr_metricPath. cbn [mbind result_bind].
  case_decide; [lia|]. rewrite Hs, Hv.
  destruct (findOrCreateMetric repo key). by eexists.
Qed.

Lemma insertSample_then_scan_witness :
  ∃ repo1 response1 repo2 response3,
    insertSample (H := Demo.library) 10 Demo.emptyRepository Demo.blankResponse
      (URI.mk (metricPath "abc") [("value", "3.5")]%string) = Ok (repo1, response1) ∧
    renderMetricSampleScan (H := Demo.library) 11 repo1 Demo.blankResponse
      (URI.mk (metricPath "abc") []) = Ok (repo2, response3) ∧
    status response3 = Some 200%Z.
Proof.
  destruct (insertSample_accepted (H := Demo.library) 10 Demo.emptyRepository
              Demo.blankResponse "abc" [("value", "3.5")]%string "3.5" (7, 2)%Z
              ltac:(simpl; lia) eq_refl eq_refl) as (repo1 & Hrun).
  destruct (insertSample_then_scan (H := Demo.library) 10 11 Demo.emptyRepository
              Demo.blankResponse Demo.blankResponse "abc" [("value", "3.5")]%string []
              repo1 _ Hrun eq_refl) as (repo2 & response3 & Hscan & Hok).
  by exists repo1, (setStatus Demo.blankResponse kStatusCreated), repo2, response3.
Defined.

Lemma handleHTTPRequest_returns_witness :
  ∃ handled repo' response',
    handleHTTPRequest (H := Demo.library) 10 Demo.emptyRepository
      (Build_HTTPRequest M_POST (URI.mk "/metrics/abc/" [("value", "1")]%string))
      Demo.blankResponse
    = Ok (handled, repo', response') ∧
    (handled = false → repo' = Demo.emptyRepository ∧ response' = Demo.blankResponse).
Proof.
  exact (handleHTTPRequest_returns (H := Demo.library) 10 Demo.emptyRepository
           (Build_HTTPRequest M_POST (URI.mk "/metrics/abc/" [("value", "1")]%string))
           Demo.blankResponse Demo_stripSlashes_prefix).
Defined.
End MoreHTTPSamples.

Section GroupBySamples.
Import ASTNode QueryPlan.

Lemma Demo_keyColumn :
  models Demo.groupByStatement DemoTrees.keyColumn ∧
  NoDup (addrs DemoTrees.keyColumn) ∧ 3 ∉ addrs DemoTrees.keyColumn.
Proof.
  split; [apply models_cells; by repeat constructor|].
  split; compute_done.
Qed.

Lemma Demo_groupByStatement_read :
  readAST Demo.groupByStatement 7
  = Ok (Node T_SELECT None None (DemoTrees.selectList :: DemoTrees.clauses)).
Proof. vm_compute. reflexivity. Qed.

Lemma buildInternalSelectList_appends_witness :
  ∃ h' new,
    buildInternalSelectList Demo.groupByStatement 5 3 = Ok (h', true) ∧
    h' !! 3 = Some (mk T_SELECT_LIST None None ([2] ++ new)) ∧
    readAll (readAST h') new = Ok [derived (DemoTrees.column "k")] ∧
    readAST h' 5 = Ok (Node T_RESOLVED_COLUMN (Demo.identifier "k") (Some 1%Z) []).
Proof.
  destruct Demo_keyColumn as (Hm & Hnd & Hni).
  destruct (buildInternalSelectList_appends Demo.groupByStatement 3 DemoTrees.keyColumn
              (mk T_SELECT_LIST None None [2]) Hm Hnd Hni eq_refl)
    as (h' & new & Hrun & Htarget & Hnew & Hresolved & _).
  exists h', new. split; [exact Hrun|]. split; [exact Htarget|].
  split; [exact Hnew | exact Hresolved].
Defined.

Lemma buildInternalSelectList_round_trip_witness :
  ∃ h' tl' entries resolved,
    buildInternalSelectList Demo.twoCopies 1 4 = Ok (h', true) ∧
    h' !! 4 = Some tl' ∧
    readAll (readAST h') (children_ tl') = Ok entries ∧
    readAST h' 1 = Ok resolved ∧
    inline 0 entries resolved
    = Node T_METHOD_CALL (Demo.identifier "abs") None [DemoTrees.column "x"].
Proof.
  destruct Demo_firstCopy as (Hm & Hnd & Hni).
  destruct (buildInternalSelectList_round_trip Demo.twoCopies 4 Demo.firstCopy
              (mk T_SELECT_LIST None None []) Hm Hnd Hni eq_refl eq_refl)
    as (h' & tl' & entries & resolved & Hrun & Htl & Hentries & Hresolved & Hback).
  exists h', tl', entries, resolved.
  split; [exact Hrun|]. split; [exact Htl|]. split; [exact Hentries|].
  split; [exact Hresolved | exact Hback].
Defined.

Lemma buildGroupBy_plan_witness :
  ∃ h7 child_ast,
    readAST h7 child_ast
    = Ok (childStatement T_SELECT None DemoTrees.selectList DemoTrees.clauses) ∧
    buildGroupBy (H := Demo.collaborators) Demo.planner Demo.groupByStatement 7
    = ('(select_expr, select_scratchpad_len) ←
         compileAST (Collaborators := Demo.collaborators)
           (pushDown (clone DemoTrees.selectList) 0) 0;
       '(group_expr, group_scratchpad_len) ←
         compileAST (Collaborators := Demo.collaborators)
           (groupExpressions DemoTrees.selectList DemoTrees.clauses) 0;
       _ ← assert (group_scratchpad_len =? 0);
       '(h8, child) ← Demo.planner h7 child_ast;
       Ok (h8, GroupBy ["unnamed"%string] select_expr group_expr
                       select_scratchpad_len child)).
Proof.
  exact (buildGroupBy_plan (H := Demo.collaborators) Demo.planner Demo.groupByStatement 7
           T_SELECT None None DemoTrees.selectList DemoTrees.clauses
           Demo_groupByStatement_read eq_refl).
Defined.

Lemma Demo_columns_pure :
  Forall (λ c, callsAggregate (H := Demo.collaborators) c = false
               ∧ knownCalls (H := Demo.collaborators) c = true)
         (columns DemoTrees.selectList ++ (groupKeys DemoTrees.clauses ≫= columns)).
Proof. by repeat constructor. Qed.

Lemma Demo_columns_no_aggregate :
  Forall (λ c, callsAggregate (H := Demo.collaborators) c = false)
         (columns DemoTrees.selectList ++ (groupKeys DemoTrees.clauses ≫= columns)).
Proof. by repeat constructor. Qed.

Lemma buildQueryPlan_groups_once_witness :
  ∃ h' column_names select_expr group_expr scratchpad_len child,
    Demo.planner Demo.groupByStatement 7
    = Ok (h', GroupBy column_names select_expr group_expr scratchpad_len child) ∧
    (child = TableScan (getColumns child) ∨ child = TablelessSelect (getColumns child)).
Proof.
  destruct (Demo.planner Demo.groupByStatement 7) as [[h' e]|] eqn:Hrun;
    [|vm_compute in Hrun; discriminate].
  assert (isGroupBy e = true) as He.
  { vm_compute in Hrun. by injection Hrun as <- <-. }
  destruct (buildQueryPlan_groups_once (H := Demo.collaborators) 2 () Demo.groupByStatement
              7 T_SELECT None None DemoTrees.selectList DemoTrees.clauses h' e
              Demo_groupByStatement_read eq_refl Demo_columns_no_aggregate Hrun He)
    as (cs & se & ge & len & child & Hplan & Hleaf).
  exists h', cs, se, ge, len, child. split; [|exact Hleaf].
  exact (f_equal (λ e, Ok (h', e)) Hplan).
Defined.

Lemma buildQueryPlan_select_statement_witness :
  ∃ h7 child_ast,
    readAST h7 child_ast
    = Ok (childStatement T_SELECT None DemoTrees.selectList DemoTrees.clauses) ∧
    buildQueryPlan (H := Demo.collaborators) 2 () Demo.groupByStatement 7
    = ('(select_expr, select_scratchpad_len) ←
         compileAST (Collaborators := Demo.collaborators)
           (pushDown (clone DemoTrees.selectList) 0) 0;
       '(group_expr, group_scratchpad_len) ←
         compileAST (Collaborators := Demo.collaborators)
           (groupExpressions DemoTrees.selectList DemoTrees.clauses) 0;
       _ ← assert (group_scratchpad_len =? 0);
       '(h8, child) ← buildLeaf (H := Demo.collaborators) () h7 child_ast;
       Ok (h8, GroupBy ["unnamed"%string] select_expr group_expr
                       select_scratchpad_len child)).
Proof.
  destruct (buildQueryPlan_select_statement (H := Demo.collaborators) 0 ()
              Demo.groupByStatement 7 None None DemoTrees.selectList DemoTrees.clauses
              Demo_groupByStatement_read eq_refl eq_refl eq_refl Demo_columns_pure)
    as [_ Hgrouped].
  exact (Hgrouped eq_refl).
Defined.

Lemma buildSeriesStatement_select_list_witness :
  ∃ h' e h1 new,
    buildSeriesStatement (H := Demo.collaborators) Demo.planner Demo.seriesStatement 9
    = Ok (h', e) ∧
    h1 !! 4 = Some (mk T_SELECT_LIST None None ([1; 3] ++ new)) ∧
    readAll (readAST h1) new = Ok [derived (DemoTrees.column "host")] ∧
    h1 !! 6 = Demo.seriesStatement !! 6.
Proof.
  destruct (buildSeriesStatement (H := Demo.collaborators) Demo.planner
              Demo.seriesStatement 9) as [[h' e]|] eqn:Hrun;
    [|vm_compute in Hrun; discriminate].
  assert (readAST Demo.seriesStatement 10 = Ok (DemoTrees.column "host")) as Hname
    by (vm_compute; reflexivity).
  destruct (buildSeriesStatement_select_list (H := Demo.collaborators) Demo.planner
              Demo.seriesStatement 9 (mk T_SERIES None None [10; 6])
              (mk T_SELECT None None [4; 5]) (mk T_SELECT_LIST None None [1; 3])
              10 6 4 (DemoTrees.column "host") h' e
              eq_refl eq_refl eq_refl eq_refl eq_refl eq_refl eq_refl Hname Hrun)
    as (h1 & new & cs & ne & sel & _ & _ & Htarget & Hnew & _ & Hframe).
  exists h', e, h1, new. split; [reflexivity|]. split; [exact Htarget|].
  split; [exact Hnew|]. apply Hframe; [simpl; lia | discriminate].
Defined.
End GroupBySamples.

Section WriteSamples.
Import http MetricRepository HTTPAPI.

Lemma insertSample_stores `{Library} (now : Z) (repo : MetricRepository)
    (response : HTTPResponse) (key : string) (params : list (string * string))
    (s : string) (v : double) :
  3 ≤ String.length key → URI.getParam params "value" = Some s → stod s = Some v →
  ∃ repo', insertSample now repo response (URI.mk (metricPath key) params)
           = Ok (repo', setStatus response kStatusCreated) ∧
           is_Some (metrics repo' !! key).
Proof.
  intros Hlen Hs Hv. unfold insertSample. cbn [URI.path URI.queryParams].
  rewrite substr_metricPath. cbn [mbind result_bind].
  case_decide; [lia|]. rewrite Hs, Hv.
  unfold findOrCreateMetric, addSample, log.
  destruct (metrics repo !! key) as [l|] eqn:Hk; cbn.
  - eexists. split; [done|]. cbn. rewrite lookup_alter_eq, Hk. by eexists.
  - eexists. split; [done|]. cbn. rewrite lookup_alter_eq, lookup_insert_eq. by eexists.
Qed.

Lemma handleHTTPRequest_writes_witness :
  ∃ handled repo' response',
    handleHTTPRequest (H := Demo.library) 10 Demo.emptyRepository
      (Build_HTTPRequest M_POST (URI.mk (metricPath "abc") [("value", "1")]%string))
      Demo.blankResponse
    = Ok (handled, repo', response') ∧
    handled = true ∧ status response' = Some 201%Z.
Proof.
  destruct (insertSample_stores (H := Demo.library) 10 Demo.emptyRepository
              Demo.blankResponse "abc" [("value", "1")]%string "1" (1, 1)%Z
              ltac:(simpl; lia) eq_refl eq_refl) as (repo' & Hins & Hstored).
  assert (handleHTTPRequest (H := Demo.library) 10 Demo.emptyRepository
            (Build_HTTPRequest M_POST (URI.mk (metricPath "abc") [("value", "1")]%string))
            Demo.blankResponse
          = Ok (true, repo', setStatus Demo.blankResponse kStatusCreated)) as Hrun.
  { destruct (handleHTTPRequest_metric (H := Demo.library) 10 Demo.emptyRepository
                (Build_HTTPRequest M_POST
                   (URI.mk (metricPath "abc") [("value", "1")]%string))
                Demo.blankResponse ltac:(discriminate) eq_refl) as [Hpost _].
    rewrite (Hpost eq_refl). cbn [uri]. by rewrite Hins. }
  assert (metrics repo' ≠ metrics Demo.emptyRepository) as Hne.
  { intros Heq. rewrite Heq in Hstored. unfold Demo.emptyRepository in Hstored.
    cbn [metrics] in Hstored. rewrite lookup_empty in Hstored. by destruct Hstored. }
  destruct (handleHTTPRequest_writes (H := Demo.library) _ _ _ _ _ _ _ Hrun Hne)
    as (_ & _ & Hhandled & Hstatus).
  by exists true, repo', (setStatus Demo.blankResponse kStatusCreated).
Defined.
End WriteSamples.
